(** * Minesweeper grid engine: a shallow embedding of [backend/tile.py],
      [backend/grid.py] and the game loop of [minesweeper_console.py], with
      the properties of the flood-fill reveal, the win check, the indicator
      computation, the validated construction, the display and the console. *)

From stdpp Require Import gmap list fin_maps relations strings pretty.
From Stdlib Require Import ZArith Lia.

Local Open Scope Z_scope.

(** ** Tiles ([backend/tile.py]) *)

Record Tile := mkTile { _mine : bool; _revealed : bool; _flagged : bool }.

#[global] Instance Tile_eq_dec : EqDecision Tile.
Proof. solve_decision. Defined.

(** [Tile()] with its three defaults. *)
Definition new_tile : Tile := mkTile false false false.

Definition place_mine (t : Tile) : Tile := mkTile true (_revealed t) (_flagged t).
Definition is_mine (t : Tile) : bool := _mine t.
Definition mark_as_revealed (t : Tile) : Tile := mkTile (_mine t) true (_flagged t).
Definition is_revealed (t : Tile) : bool := _revealed t.
(** [place_flag] prints a warning on a revealed tile and sets the flag anyway. *)
Definition place_flag (t : Tile) : Tile := mkTile (_mine t) (_revealed t) true.
Definition remove_flag (t : Tile) : Tile := mkTile (_mine t) (_revealed t) false.
Definition is_flagged (t : Tile) : bool := _flagged t.

(** ** Outcomes of a call: a value, a raised exception, or a loop that has
       not finished within the steps granted to it. *)

Inductive exn :=
| KeyError
| Exception (msg : string).

Inductive outcome (A : Type) :=
| Ret (a : A)
| Raise (e : exn)
| OutOfFuel.
Arguments Ret {A} a.
Arguments Raise {A} e.
Arguments OutOfFuel {A}.

#[global] Instance outcome_fmap : FMap outcome := λ A B f m,
  match m with
  | Ret a => Ret (f a)
  | Raise e => Raise e
  | OutOfFuel => OutOfFuel
  end.

#[global] Instance outcome_bind : MBind outcome := λ A B k m,
  match m with
  | Ret a => k a
  | Raise e => Raise e
  | OutOfFuel => OutOfFuel
  end.

(** A dict subscript [d[k]]: the value, or [KeyError]. *)
Definition subscript {V} (d : gmap (Z * Z) V) (k : Z * Z) : outcome V :=
  match d !! k with
  | Some v => Ret v
  | None => Raise KeyError
  end.

(** A [for] loop over a list whose body may raise. *)
Fixpoint for_each {A S} (body : S → A → outcome S) (l : list A) (s : S) : outcome S :=
  match l with
  | [] => Ret s
  | a :: l' => s' ← body s a; for_each body l' s'
  end.

(** [range(n)] *)
Definition range (n : Z) : list Z := seqZ 0 n.

(** ** The pseudo-random generator of Python's [random] module, taken as an
       interface: seeding with an integer, and [randint(a, b)], which is
       documented to return a value of the closed interval. *)

Class PRNG := {
  rng_state : Type;
  seed_int : Z → rng_state;
  randint : Z → Z → rng_state → Z * rng_state;
  randint_range : ∀ a b s, a ≤ b → a ≤ (randint a b s).1 ≤ b
}.

(** What the operating system supplies to one construction: the 16 bytes
    read by [urandom(16)], and the state in which [random.seed(None)]
    leaves the generator (seeded from system entropy). *)
Record os_env `{PRNG} := mkEnv {
  urandom16 : list Z;
  seed_none : rng_state
}.
Arguments mkEnv {_} _ _.

(** [int.from_bytes(bs, "big")] *)
Definition from_bytes_big (bs : list Z) : Z :=
  foldl (λ acc b, acc * 256 + b) 0 bs.

(** ** The grid ([backend/grid.py]) *)

Record Grid := mkGrid {
  _grid_height : Z;
  _grid_width : Z;
  _mine_count : Z;
  _tile_grid : gmap (Z * Z) Tile;
  _mine_count_grid : gmap (Z * Z) Z;
  seed : Z
}.

Definition set_tile_grid (g : Grid) (tg : gmap (Z * Z) Tile) : Grid :=
  mkGrid (_grid_height g) (_grid_width g) (_mine_count g) tg (_mine_count_grid g) (seed g).

Definition set_mine_count_grid (g : Grid) (mc : gmap (Z * Z) Z) : Grid :=
  mkGrid (_grid_height g) (_grid_width g) (_mine_count g) (_tile_grid g) mc (seed g).

Definition ROTATIONS : list (Z * Z) :=
  [(-1, -1); (-1, 0); (-1, 1);
   ( 0, -1);          ( 0, 1);
   ( 1, -1); ( 1, 0); ( 1, 1)].

Definition shift (p rel : Z * Z) : Z * Z := (p.1 + rel.1, p.2 + rel.2).

Definition get_area_size (g : Grid) : Z := _grid_height g * _grid_width g.

Definition get_tile (g : Grid) (row col : Z) : outcome Tile :=
  subscript (_tile_grid g) (row, col).

Definition get_surrounding_mine_count (g : Grid) (row col : Z) : outcome Z :=
  subscript (_mine_count_grid g) (row, col).

Definition _is_tile_a_indicator (mc : gmap (Z * Z) Z) (loc : Z * Z) : outcome bool :=
  c ← subscript mc loc; Ret (0 <? c).

(** [not mine and not indicator]: the count is not looked up for a mine. *)
Definition is_tile_empty (tg : gmap (Z * Z) Tile) (mc : gmap (Z * Z) Z)
    (loc : Z * Z) : outcome bool :=
  t ← subscript tg loc;
  if is_mine t then Ret false
  else (ind ← _is_tile_a_indicator mc loc; Ret (negb ind)).

(** *** Validation *)

Definition check_valid_grid_arguments (grid_height grid_width mine_count : Z)
    : outcome unit :=
  let grid_size := grid_height * grid_width in
  if (grid_height <? 5) || (grid_width <? 5) then
    Raise (Exception "Invalid grid size - too small")
  else if mine_count <? 1 then
    Raise (Exception "Invalid grid mine count - at least 1 mine required")
  else if grid_size <? mine_count then
    Raise (Exception "Invalid grid mine count - can't have more tiles than grid size!")
  else Ret tt.

(** *** Set-up *)

Definition _init_grids (g : Grid) : Grid :=
  foldl (λ g row,
    foldl (λ g col,
      mkGrid (_grid_height g) (_grid_width g) (_mine_count g)
             (<[(row, col) := new_tile]> (_tile_grid g))
             (<[(row, col) := 0]> (_mine_count_grid g)) (seed g))
      g (range (_grid_width g)))
    g (range (_grid_height g)).

Section WithPRNG.
Context `{R : PRNG}.

Definition _generate_rnd_position (g : Grid) (s : rng_state) : (Z * Z) * rng_state :=
  let '(row, s1) := randint 0 (_grid_height g - 1) s in
  let '(col, s2) := randint 0 (_grid_width g - 1) s1 in
  ((row, col), s2).

(** The [while True] loop that places one mine: draw until the tile drawn
    has no mine. The loop has no bound of its own; [fuel] is the number of
    draws the model grants it, and [OutOfFuel] tells that it took them all. *)
Fixpoint place_one_mine (fuel : nat) (g : Grid) (s : rng_state)
    : outcome (Grid * rng_state) :=
  match fuel with
  | O => OutOfFuel
  | S fuel' =>
      let '(loc, s') := _generate_rnd_position g s in
      tile ← subscript (_tile_grid g) loc;
      if is_mine tile then place_one_mine fuel' g s'
      else Ret (set_tile_grid g (<[loc := place_mine tile]> (_tile_grid g)), s')
  end.

Definition _place_random_mines (fuel : nat) (g : Grid) (s : rng_state)
    : outcome (Grid * rng_state) :=
  for_each (λ '(g, s) _, place_one_mine fuel g s) (range (_mine_count g)) (g, s).

End WithPRNG.

Definition _find_surrounding_mine_count (tg : gmap (Z * Z) Tile) (row col : Z) : Z :=
  foldl (λ count relative_location,
    match tg !! shift (row, col) relative_location with
    | Some t => if is_mine t then count + 1 else count
    | None => count
    end) 0 ROTATIONS.

Definition _generate_indicators (g : Grid) : outcome Grid :=
  for_each (λ g row,
    for_each (λ g col,
      t ← subscript (_tile_grid g) (row, col);
      if negb (is_mine t) then
        Ret (set_mine_count_grid g
               (<[(row, col) := _find_surrounding_mine_count (_tile_grid g) row col]>
                  (_mine_count_grid g)))
      else Ret g)
      (range (_grid_width g)) g)
    (range (_grid_height g)) g.

Section WithPRNG2.
Context `{R : PRNG}.

Definition _set_up_grid (fuel : nat) (g : Grid) (s : rng_state)
    : outcome (Grid * rng_state) :=
  let g := _init_grids g in
  '(g, s) ← _place_random_mines fuel g s;
  g ← _generate_indicators g;
  Ret (g, s).

Definition generate_seed (env : os_env) : Z := from_bytes_big (urandom16 env).

(** [random.seed(a)]: with an integer the generator is seeded from it, with
    [None] from system entropy. *)
Definition random_seed (a : option Z) (env : os_env) : rng_state :=
  match a with Some n => seed_int n | None => seed_none env end.

(** [Grid.__init__]: validation first; then the seed is recorded, a fresh
    one from [urandom] when none is given; the generator is seeded with the
    [seed] argument, not with the recorded [self.seed]; then set-up. It
    returns the grid and the state in which it leaves the module-wide
    generator. *)
Definition new_grid (fuel : nat) (grid_height grid_width mine_count : Z)
    (seed_arg : option Z) (env : os_env) : outcome (Grid * rng_state) :=
  _ ← check_valid_grid_arguments grid_height grid_width mine_count;
  let self_seed := match seed_arg with Some n => n | None => generate_seed env end in
  let s := random_seed seed_arg env in
  _set_up_grid fuel (mkGrid grid_height grid_width mine_count ∅ ∅ self_seed) s.

(** [restart_grid] empties both dicts and sets up again, drawing on from
    wherever the module-wide generator stands. *)
Definition restart_grid (fuel : nat) (g : Grid) (s : rng_state)
    : outcome (Grid * rng_state) :=
  _set_up_grid fuel (set_mine_count_grid (set_tile_grid g ∅) ∅) s.

End WithPRNG2.

(** *** Reveal: [open_tile] *)

(** The state the nested [rotate_algorithm] works on: the tile dict, whose
    tiles it marks, and the two lists of the enclosing call. *)
Record fill_state := mkFill {
  fs_tiles : gmap (Z * Z) Tile;
  to_check : list (Z * Z);
  to_not_check : list (Z * Z)
}.

(** The body of the [try] for one relative location; a [KeyError] leaves
    the state as it was, since every lookup precedes the first mutation. *)
Definition rotate_try (mc : gmap (Z * Z) Z) (curr : Z * Z) (st : fill_state)
    (relative_location : Z * Z) : outcome fill_state :=
  let location := shift curr relative_location in
  empty ← is_tile_empty (fs_tiles st) mc location;
  t ← subscript (fs_tiles st) location;
  if empty && negb (is_revealed t) && negb (is_flagged t) then
    if bool_decide (location ∈ to_check st) then Ret st
    else Ret (mkFill (<[location := mark_as_revealed t]> (fs_tiles st))
                     (to_check st ++ [location]) (to_not_check st))
  else
    ind ← _is_tile_a_indicator mc location;
    if ind && negb (is_revealed t) && negb (is_flagged t) then
      if bool_decide (location ∈ to_not_check st) then Ret st
      else Ret (mkFill (<[location := mark_as_revealed t]> (fs_tiles st))
                       (to_check st) (to_not_check st ++ [location]))
    else Ret st.

Definition rotate_step (mc : gmap (Z * Z) Z) (curr : Z * Z) (st : fill_state)
    (relative_location : Z * Z) : fill_state :=
  match rotate_try mc curr st relative_location with
  | Ret st' => st'
  | _ => st
  end.

Definition rotate_algorithm (mc : gmap (Z * Z) Z) (curr : Z * Z) (st : fill_state)
    : fill_state :=
  foldl (rotate_step mc curr) st ROTATIONS.

(** [for location in to_check]: the list grows while it is iterated, so the
    loop is a cursor into it. *)
Fixpoint open_loop (fuel : nat) (mc : gmap (Z * Z) Z) (i : nat) (st : fill_state)
    : outcome fill_state :=
  match to_check st !! i with
  | None => Ret st
  | Some location =>
      match fuel with
      | O => OutOfFuel
      | S fuel' => open_loop fuel' mc (S i) (rotate_algorithm mc location st)
      end
  end.

(** [open_tile]; the [print] of the result is left out. The loop is granted
    one step per tile of the grid, which [open_tile_total] shows to be
    enough. *)
Definition open_tile (g : Grid) (row col : Z) : outcome (Grid * list (Z * Z)) :=
  curr_tile ← subscript (_tile_grid g) (row, col);
  if is_mine curr_tile || is_revealed curr_tile then Ret (g, [(row, col)])
  else
    let tg := <[(row, col) := mark_as_revealed curr_tile]> (_tile_grid g) in
    st ← open_loop (size (_tile_grid g)) (_mine_count_grid g) 0
           (mkFill tg [(row, col)] []);
    Ret (set_tile_grid g (fs_tiles st), to_check st ++ to_not_check st).

(** *** Win check *)

(** The condition [check_win] asks of each tile. *)
Definition win_tile (tile : Tile) : bool :=
  (is_flagged tile && is_mine tile) || (is_revealed tile && negb (is_mine tile)).

Definition check_win (g : Grid) : bool :=
  forallb win_tile (map_to_list (_tile_grid g)).*2.

(** *** Flags, as the console places them: [get_tile(row, col).place_flag()] *)

Definition place_flag_at (g : Grid) (row col : Z) : outcome Grid :=
  t ← get_tile g row col;
  Ret (set_tile_grid g (<[(row, col) := place_flag t]> (_tile_grid g))).

Definition remove_flag_at (g : Grid) (row col : Z) : outcome Grid :=
  t ← get_tile g row col;
  Ret (set_tile_grid g (<[(row, col) := remove_flag t]> (_tile_grid g))).

(** *** Display *)

(** [Tile.__str__] *)
Definition tile_str (t : Tile) : string :=
  if _revealed t then (if _mine t then "X" else "-")
  else if _flagged t then "?" else "+".

Definition newline : string := String (Ascii.ascii_of_nat 10) EmptyString.

(** One cell of [Grid.__str__]: the count of a revealed tile whose count is
    positive, the tile's own text otherwise; [and] looks the count up only
    for a revealed tile. [pretty] writes an integer as [str] does. *)
Definition grid_cell (g : Grid) (row col : Z) : outcome string :=
  t ← subscript (_tile_grid g) (row, col);
  shows_count ← ((if is_revealed t
                  then c ← subscript (_mine_count_grid g) (row, col); Ret (0 <? c)
                  else Ret false) : outcome bool);
  if (shows_count : bool) then
    c ← subscript (_mine_count_grid g) (row, col); Ret (pretty c)
  else
    t ← subscript (_tile_grid g) (row, col); Ret (tile_str t).

(** The list [visualization] of [Grid.__str__]: the cells row by row, a
    newline after each row. *)
Definition visualization (g : Grid) : outcome (list string) :=
  for_each (λ vis row,
    vis ← for_each (λ vis col, s ← grid_cell g row col; Ret (vis ++ [s]))
             (range (_grid_width g)) vis;
    Ret (vis ++ [newline]))
    (range (_grid_height g)) [].

(** [Grid.__str__] *)
Definition grid_str (g : Grid) : outcome string :=
  vis ← visualization g; Ret (String.concat " " vis).

(** [cheat]: the two lines it prints. *)
Definition cheat (g : Grid) : outcome (list string) :=
  vis ← for_each (λ vis row,
    vis ← for_each (λ vis col,
             t ← subscript (_tile_grid g) (row, col);
             if is_mine t then Ret (vis ++ ["X"])
             else c ← subscript (_mine_count_grid g) (row, col);
                  Ret (vis ++ [pretty c]))
             (range (_grid_width g)) vis;
    Ret (vis ++ [newline]))
    (range (_grid_height g)) [];
  Ret ["Cheat:"; String.concat EmptyString vis].

(** ** The console ([minesweeper_console.py]) *)

(** The loop of [play_game], run on the triples [row, col, flag] that
    [get_user_input] returns, one per turn. What it prints is left out;
    [str(self.game)] is kept for what it can raise. The result tells whether
    the loop broke on a win or waits for the next input. *)
Fixpoint play_loop (g : Grid) (inputs : list (Z * Z * bool)) : outcome (Grid * bool) :=
  _ ← grid_str g;
  match inputs with
  | [] => Ret (g, false)
  | (row, col, flag) :: inputs' =>
      g' ← ((if flag then place_flag_at g row col
             else fst <$> open_tile g row col) : outcome Grid);
      if check_win g' then Ret (g', true) else play_loop g' inputs'
  end.

Definition play_game (g : Grid) (cheat_arg : bool) (inputs : list (Z * Z * bool))
    : outcome (Grid * bool) :=
  _ ← ((if cheat_arg then cheat g else Ret []) : outcome (list string));
  play_loop g inputs.

(** [MinesweeperConsole.__init__] *)
Definition MinesweeperConsole `{R : PRNG} (fuel : nat)
    (grid_height grid_width mine_count : Z) (seed_arg : option Z) (cheat_arg : bool)
    (env : os_env) (inputs : list (Z * Z * bool)) : outcome (Grid * bool) :=
  '(game, _) ← new_grid fuel grid_height grid_width mine_count seed_arg env;
  play_game game cheat_arg inputs.

(** ** A concrete generator, used to run the model: the state counts the
       calls made so far and call [2n] and [2n+1] return the two base-5
       digits of [n]. *)

Definition counter_raw (s : nat) : Z :=
  if Nat.even s then Z.of_nat (s / 2) else Z.of_nat (s / 2) / 5.

Definition counter_randint (a b : Z) (s : nat) : Z * nat :=
  (a + counter_raw s mod (Z.max 1 (b - a + 1)), S s).

Lemma counter_randint_range a b s : a ≤ b → a ≤ (counter_randint a b s).1 ≤ b.
Proof.
  intros Hab. unfold counter_randint. simpl.
  pose proof (Z.mod_pos_bound (counter_raw s) (Z.max 1 (b - a + 1))). lia.
Qed.

Definition counter_prng : PRNG :=
  {| rng_state := nat;
     seed_int := λ n, (2 * Z.abs_nat n)%nat;
     randint := counter_randint;
     randint_range := counter_randint_range |}.

#[global] Existing Instance counter_prng.

(** A generator pinned to the lower bound of every [randint]. *)

Lemma pinned_randint_range (a b : Z) (s : unit) : a ≤ b → a ≤ (a, s).1 ≤ b.
Proof. simpl. lia. Qed.

Definition pinned_prng : PRNG :=
  {| rng_state := unit;
     seed_int := λ _, tt;
     randint := λ a _ s, (a, s);
     randint_range := pinned_randint_range |}.

(** ** Vocabulary of the properties *)

Definition in_range (h w : Z) (p : Z * Z) : Prop := 0 ≤ p.1 < h ∧ 0 ≤ p.2 < w.

(** The coordinates of an [h] by [w] grid, row by row. *)
Definition all_positions (h w : Z) : list (Z * Z) :=
  row ← range h; col ← range w; [(row, col)].

(** [q] is one of the up to 8 neighbours of [p]. *)
Definition neighbor (p q : Z * Z) : Prop := ∃ rel, rel ∈ ROTATIONS ∧ q = shift p rel.

Definition mine_at (tg : gmap (Z * Z) Tile) (p : Z * Z) : bool :=
  match tg !! p with Some t => is_mine t | None => false end.

Definition revealed_at (tg : gmap (Z * Z) Tile) (p : Z * Z) : bool :=
  match tg !! p with Some t => is_revealed t | None => false end.

Definition flagged_at (tg : gmap (Z * Z) Tile) (p : Z * Z) : bool :=
  match tg !! p with Some t => is_flagged t | None => false end.

(** Stored count of [p], 0 where there is none. *)
Definition count_at (mc : gmap (Z * Z) Z) (p : Z * Z) : Z := default 0 (mc !! p).

(** An empty tile: no mine and no positive count. *)
Definition empty_at (g : Grid) (p : Z * Z) : Prop :=
  is_tile_empty (_tile_grid g) (_mine_count_grid g) p = Ret true.

(** An indicator tile: no mine and a stored count above 0. *)
Definition indicator_at (g : Grid) (p : Z * Z) : Prop :=
  p ∈ dom (_tile_grid g) ∧ mine_at (_tile_grid g) p = false ∧
  0 < count_at (_mine_count_grid g) p.

(** [p] is revealed in [g'] and was not in [g]. *)
Definition newly_revealed (g g' : Grid) (p : Z * Z) : Prop :=
  revealed_at (_tile_grid g) p = false ∧ revealed_at (_tile_grid g') p = true.

(** The positions holding a mine. *)
Definition mines_of (tg : gmap (Z * Z) Tile) : gset (Z * Z) :=
  dom (filter (λ kv, is_mine kv.2 = true) tg).

(** The count of section 4.3 as the specification words it: the offsets
    with both components in -1, 0, +1 other than (0,0), kept when the
    shifted coordinate is inside the grid and holds a mine. *)
Definition spec_offsets : list (Z * Z) :=
  filter (λ d, d ≠ (0, 0)) (dr ← [-1; 0; 1]; dc ← [-1; 0; 1]; [(dr, dc)]).

Definition spec_neighbor_mines (g : Grid) (row col : Z) : Z :=
  Z.of_nat (length (filter
    (λ d, in_range (_grid_height g) (_grid_width g) (shift (row, col) d) ∧
          mine_at (_tile_grid g) (shift (row, col) d) = true)
    spec_offsets)).

(** The tile grids reachable from [tg] by revealing tiles. *)
Definition reveals_only (tg tg' : gmap (Z * Z) Tile) : Prop :=
  ∀ p, tg' !! p = tg !! p ∨
       ∃ t, tg !! p = Some t ∧ tg' !! p = Some (mark_as_revealed t).

(** The wall property as first worded: a neighbour [q] of an indicator [p]
    revealed by the call, itself revealed by the call and not the clicked
    tile, lies next to an empty tile revealed by the call. *)
Definition wall_as_worded (g : Grid) (row col : Z) : Prop :=
  ∀ g' l p q, open_tile g row col = Ret (g', l) →
    indicator_at g p → newly_revealed g g' p →
    neighbor p q → newly_revealed g g' q → q ≠ (row, col) →
    ∃ e, empty_at g e ∧ newly_revealed g g' e ∧ neighbor e q.

(** The flag property as first worded, clicked tile included. *)
Definition flags_kept_as_worded (g : Grid) (row col : Z) : Prop :=
  ∀ g' l p, open_tile g row col = Ret (g', l) →
    flagged_at (_tile_grid g) p = true → revealed_at (_tile_grid g) p = false →
    revealed_at (_tile_grid g') p = false.

(** The win property as first worded: a flag on a safe tile loses. *)
Definition safe_flag_loses_as_worded (g : Grid) : Prop :=
  (∃ p t, _tile_grid g !! p = Some t ∧ is_mine t = false ∧ is_flagged t = true) →
  check_win g = false.

(** Same dimensions, mine count and seed. *)
Definition same_header (g g' : Grid) : Prop :=
  _grid_height g' = _grid_height g ∧ _grid_width g' = _grid_width g ∧
  _mine_count g' = _mine_count g ∧ seed g' = seed g.

(** A grid as [_init_grids] leaves it when it starts from empty dicts: a
    fresh tile and a zero count at every coordinate of the grid, nothing
    elsewhere. *)
Definition blank (g : Grid) : Prop :=
  ∀ p, (in_range (_grid_height g) (_grid_width g) p →
          _tile_grid g !! p = Some new_tile ∧ _mine_count_grid g !! p = Some 0) ∧
       (¬ in_range (_grid_height g) (_grid_width g) p →
          _tile_grid g !! p = None ∧ _mine_count_grid g !! p = None).

(** Both dicts have exactly the coordinates of the grid as keys. *)
Definition covered (g : Grid) : Prop :=
  ∀ p, (is_Some (_tile_grid g !! p) ↔ in_range (_grid_height g) (_grid_width g) p) ∧
       (is_Some (_mine_count_grid g !! p) ↔
          in_range (_grid_height g) (_grid_width g) p).

(** No tile is revealed or flagged. *)
Definition untouched (g : Grid) : Prop :=
  ∀ p t, _tile_grid g !! p = Some t → is_revealed t = false ∧ is_flagged t = false.

(** A grid as set-up leaves it: both dicts dense, no tile revealed or
    flagged, as many mines as the mine count, a zero count under every mine
    and the count of [_find_surrounding_mine_count] under every other tile. *)
Definition constructed (g : Grid) : Prop :=
  covered g ∧ untouched g ∧
  size (mines_of (_tile_grid g)) = Z.to_nat (_mine_count g) ∧
  ∀ p t, _tile_grid g !! p = Some t →
    _mine_count_grid g !! p =
      Some (if is_mine t then 0
            else _find_surrounding_mine_count (_tile_grid g) p.1 p.2).

(** No mine is revealed, and no mine carries a positive count. *)
Definition mines_hidden (g : Grid) : Prop :=
  ∀ p t, _tile_grid g !! p = Some t → is_mine t = true →
    is_revealed t = false ∧ count_at (_mine_count_grid g) p ≤ 0.

(** One placement: a tile without a mine gets one. *)
Definition placed (g g' : Grid) : Prop :=
  ∃ loc t, _tile_grid g !! loc = Some t ∧ is_mine t = false ∧
    g' = set_tile_grid g (<[loc := place_mine t]> (_tile_grid g)).

(** The loop ends: [to_check] never repeats a position and only holds keys
    of the tile dict, so it is no longer than the dict. *)
Definition fill_bounded (st : fill_state) : Prop :=
  NoDup (to_check st) ∧ ∀ p, p ∈ to_check st → p ∈ dom (fs_tiles st).

(** What holds of the two lists all along the loop: the tile dict differs
    from the one of the call only by reveals; a tile revealed since is in
    one of the lists; a member of [to_check] other than the clicked tile is
    an empty tile revealed by the call; and every listed tile other than the
    clicked one is next to a member of [to_check]. *)
Definition wall_inv (g : Grid) (clicked : Z * Z) (st : fill_state) : Prop :=
  reveals_only (_tile_grid g) (fs_tiles st) ∧
  (∀ p, revealed_at (fs_tiles st) p = true →
        revealed_at (_tile_grid g) p = true ∨ p ∈ to_check st ∨ p ∈ to_not_check st) ∧
  (∀ q, q ∈ to_check st → q = clicked ∨
        (empty_at g q ∧ revealed_at (_tile_grid g) q = false ∧
         revealed_at (fs_tiles st) q = true)) ∧
  (∀ q, q ∈ to_check st ∨ q ∈ to_not_check st →
        q = clicked ∨ ∃ e, e ∈ to_check st ∧ neighbor e q).

(** The tiles a call expands, as a chain from the clicked tile: the clicked
    tile, and every empty tile revealed by the call that is next to a tile
    of the chain. [tg'] is the tile dict after the call. *)
Inductive chain (g : Grid) (tg' : gmap (Z * Z) Tile) (clicked : Z * Z)
    : Z * Z → Prop :=
| chain_clicked : chain g tg' clicked clicked
| chain_empty e q :
    chain g tg' clicked e → neighbor e q → empty_at g q →
    revealed_at (_tile_grid g) q = false → revealed_at tg' q = true →
    chain g tg' clicked q.

Section Sessions.
Context `{R : PRNG}.

(** The sequence of positions the generator yields from state [s]. *)
Definition next_state (g : Grid) (s : rng_state) : rng_state :=
  (_generate_rnd_position g s).2.

Definition position_at (g : Grid) (s : rng_state) (n : nat) : Z * Z :=
  (_generate_rnd_position g (Nat.iter n (next_state g) s)).1.

(** Every position of the grid keeps coming up in the sequence. *)
Definition fair (g : Grid) (s : rng_state) : Prop :=
  ∀ k p, in_range (_grid_height g) (_grid_width g) p →
    ∃ n, (k ≤ n)%nat ∧ position_at g s n = p.

(** One action of a session on the grid and the module-wide generator. An
    action that raises leaves both as they were. *)
Inductive step : Grid * rng_state → Grid * rng_state → Prop :=
| step_open g s row col g' l :
    open_tile g row col = Ret (g', l) → step (g, s) (g', s)
| step_place_flag g s row col g' :
    place_flag_at g row col = Ret g' → step (g, s) (g', s)
| step_remove_flag g s row col g' :
    remove_flag_at g row col = Ret g' → step (g, s) (g', s)
| step_check_win g s (b : bool) :
    check_win g = b → step (g, s) (g, s)
| step_restart g s fuel g' s' :
    restart_grid fuel g s = Ret (g', s') → step (g, s) (g', s').

End Sessions.

(** ** Concrete grids, built by running the model on the counting generator *)

Definition demo_env : os_env := mkEnv [0; 0; 0; 0; 0; 0; 0; 0; 0; 0; 0; 0; 0; 0; 0; 9] 0%nat.

Definition grid_or_empty (o : outcome (Grid * nat)) : Grid :=
  match o with Ret (g, _) => g | _ => mkGrid 0 0 0 ∅ ∅ 0 end.

(** The result of a call that returned. *)
Definition opened (o : outcome (Grid * list (Z * Z))) : Grid * list (Z * Z) :=
  match o with Ret r => r | _ => (mkGrid 0 0 0 ∅ ∅ 0, []) end.

Definition then_do (g : Grid) (op : Grid → outcome Grid) : Grid :=
  match op g with Ret g' => g' | _ => g end.

(** 5x5, one mine, at (0,0). *)
Definition corner_grid : Grid := grid_or_empty (new_grid 30 5 5 1 (Some 0) demo_env).

(** 5x5, two mines, at (1,0) and (2,0). *)
Definition edge_grid : Grid := grid_or_empty (new_grid 30 5 5 2 (Some 1) demo_env).

(** The corner grid with a flag on the safe tile (4,4). *)
Definition corner_flagged : Grid := then_do corner_grid (λ g, place_flag_at g 4 4).

(** The same after flagging the mine too and clicking the flagged (4,4). *)
Definition corner_won : Grid :=
  then_do (then_do corner_flagged (λ g, place_flag_at g 0 0))
          (λ g, fst <$> open_tile g 4 4).

(** 5x5, mines at (0,4), (2,2) and (4,0), placed by hand and counted by
    [_generate_indicators]: two regions of empty tiles, one round (0,0) and
    one round (4,4), with indicators between them. *)
Definition three_mines_grid : Grid :=
  let g0 := _init_grids (mkGrid 5 5 3 ∅ ∅ 0) in
  let tg := foldl (λ tg p, match tg !! p with
                           | Some t => <[p := place_mine t]> tg
                           | None => tg
                           end)
                  (_tile_grid g0) [(0, 4); (2, 2); (4, 0)] in
  match _generate_indicators (set_tile_grid g0 tg) with Ret g => g | _ => g0 end.

(** The same with every tile without a mine revealed, as a fill that went
    on through the indicators would leave it. *)
Definition three_mines_all_open : Grid :=
  set_tile_grid three_mines_grid
    ((λ t, if is_mine t then t else mark_as_revealed t) <$> _tile_grid three_mines_grid).

(** ** Vocabulary of the further properties *)

(** A tile the fill reveals when it meets it: stored with a count, without
    a flag, and either without a mine or with a positive count. *)
Definition eligible (tg : gmap (Z * Z) Tile) (mc : gmap (Z * Z) Z) (q : Z * Z)
    : Prop :=
  ∃ t c, tg !! q = Some t ∧ mc !! q = Some c ∧ is_flagged t = false ∧
         (is_mine t = false ∨ 0 < c).

(** What holds of the two lists along the loop, besides [wall_inv]: neither
    repeats a position, they share none, every listed tile is revealed, and
    every member of [to_not_check] has a positive count. *)
Definition listed_inv (mc : gmap (Z * Z) Z) (st : fill_state) : Prop :=
  NoDup (to_check st) ∧ NoDup (to_not_check st) ∧
  (∀ p, p ∈ to_check st → p ∉ to_not_check st) ∧
  (∀ p, p ∈ to_check st ∨ p ∈ to_not_check st →
        revealed_at (fs_tiles st) p = true) ∧
  (∀ p, p ∈ to_not_check st → 0 < count_at mc p).

(** All eight neighbours of [e] that the fill reveals are revealed. *)
Definition expanded (mc : gmap (Z * Z) Z) (st : fill_state) (e : Z * Z) : Prop :=
  ∀ rel, rel ∈ ROTATIONS → eligible (fs_tiles st) mc (shift e rel) →
         revealed_at (fs_tiles st) (shift e rel) = true.

(** What every state of a session keeps of a set-up grid: both dicts dense,
    as many mines as the mine count, a zero count under every mine and the
    count of [_find_surrounding_mine_count] under every other tile. *)
Definition well_formed (g : Grid) : Prop :=
  covered g ∧
  size (mines_of (_tile_grid g)) = Z.to_nat (_mine_count g) ∧
  ∀ p t, _tile_grid g !! p = Some t →
    _mine_count_grid g !! p =
      Some (if is_mine t then 0
            else _find_surrounding_mine_count (_tile_grid g) p.1 p.2).

(** What the player sees of two grids is the same: the same tiles are
    revealed, the revealed ones hold the same mine and count, the others the
    same flag. *)
Definition same_view (g g' : Grid) : Prop :=
  _grid_height g' = _grid_height g ∧ _grid_width g' = _grid_width g ∧
  ∀ p, in_range (_grid_height g) (_grid_width g) p →
    revealed_at (_tile_grid g') p = revealed_at (_tile_grid g) p ∧
    (revealed_at (_tile_grid g) p = true →
       mine_at (_tile_grid g') p = mine_at (_tile_grid g) p ∧
       count_at (_mine_count_grid g') p = count_at (_mine_count_grid g) p) ∧
    (revealed_at (_tile_grid g) p = false →
       flagged_at (_tile_grid g') p = flagged_at (_tile_grid g) p).

(** From [g] to [g'] nothing but reveals and new flags. *)
Definition grows (g g' : Grid) : Prop :=
  same_header g g' ∧ _mine_count_grid g' = _mine_count_grid g ∧
  ∀ p, (is_Some (_tile_grid g' !! p) ↔ is_Some (_tile_grid g !! p)) ∧
       mine_at (_tile_grid g') p = mine_at (_tile_grid g) p ∧
       (flagged_at (_tile_grid g) p = true → flagged_at (_tile_grid g') p = true) ∧
       (revealed_at (_tile_grid g) p = true → revealed_at (_tile_grid g') p = true).

(** The condition of [check_win] at a coordinate. *)
Definition win_at (tg : gmap (Z * Z) Tile) (p : Z * Z) : bool :=
  (flagged_at tg p && mine_at tg p) || (revealed_at tg p && negb (mine_at tg p)).

(** A way to win: a flag on every mine, a click on every other tile. *)
Definition winning_inputs (g : Grid) (ps : list (Z * Z)) : list (Z * Z * bool) :=
  (λ p, (p.1, p.2, mine_at (_tile_grid g) p)) <$> ps.

(** One turn of the console. *)
Definition turn (g : Grid) (i : Z * Z * bool) : outcome Grid :=
  if i.2 then place_flag_at g i.1.1 i.1.2 else fst <$> open_tile g i.1.1 i.1.2.

(** The result of a console run that returned. *)
Definition played (o : outcome (Grid * bool)) : Grid * bool :=
  match o with Ret r => r | _ => (mkGrid 0 0 0 ∅ ∅ 0, false) end.

(** The cells of a printout, row by row, a newline after each row. *)
Definition cells_of (cell : Z * Z → string) (h w : Z) : list string :=
  row ← range h; (col ← range w; [cell (row, col)]) ++ [newline].

(** ** The flood fill *)

Section FloodFill.
Variable mc : gmap (Z * Z) Z.

(** What one relative location can do: nothing, reveal an empty tile into
    [to_check], or reveal a tile with a positive count into [to_not_check]. *)
Lemma rotate_step_cases curr st rel :
  let loc := shift curr rel in
  rotate_step mc curr st rel = st ∨
  ∃ t, fs_tiles st !! loc = Some t ∧ is_revealed t = false ∧ is_flagged t = false ∧
    ((is_mine t = false ∧ count_at mc loc ≤ 0 ∧ is_Some (mc !! loc) ∧
      (loc ∉ to_check st) ∧
      rotate_step mc curr st rel =
        mkFill (<[loc := mark_as_revealed t]> (fs_tiles st))
               (to_check st ++ [loc]) (to_not_check st))
     ∨ (0 < count_at mc loc ∧ (loc ∉ to_not_check st) ∧
        rotate_step mc curr st rel =
          mkFill (<[loc := mark_as_revealed t]> (fs_tiles st))
                 (to_check st) (to_not_check st ++ [loc]))).
Proof.
  intros loc. unfold rotate_step, rotate_try, is_tile_empty, _is_tile_a_indicator,
    subscript, count_at. fold loc.
  destruct (fs_tiles st !! loc) as [t|] eqn:Ht; simpl; [|by left].
  destruct (is_mine t) eqn:Hm; simpl.
  - destruct (mc !! loc) as [c|] eqn:Hc; simpl; [|by left].
    destruct (0 <? c) eqn:Hpos; simpl; [|by left].
    destruct (is_revealed t) eqn:Hr; simpl; [by left|].
    destruct (is_flagged t) eqn:Hf; simpl; [by left|].
    case_bool_decide; [by left|].
    right. exists t. repeat split; try done. right. repeat split; try done. lia.
  - destruct (mc !! loc) as [c|] eqn:Hc; simpl; [|by left].
    destruct (0 <? c) eqn:Hpos; simpl.
    + destruct (is_revealed t) eqn:Hr; simpl; [by left|].
      destruct (is_flagged t) eqn:Hf; simpl; [by left|].
      case_bool_decide; [by left|].
      right. exists t. repeat split; try done. right. repeat split; try done. lia.
    + destruct (is_revealed t) eqn:Hr; simpl; [by left|].
      destruct (is_flagged t) eqn:Hf; simpl; [by left|].
      case_bool_decide; [by left|].
      right. exists t. repeat split; try done. left. repeat split; try done.
      lia.
Qed.

Lemma rotate_step_to_check_mono curr st rel p :
  p ∈ to_check st → p ∈ to_check (rotate_step mc curr st rel).
Proof.
  intros Hp.
  destruct (rotate_step_cases curr st rel) as [->|(t & _ & _ & _ & [(_&_&_&_&->)|(_&_&->)])];
    simpl; set_solver.
Qed.

(** An invariant of single steps made from members of [to_check] is an
    invariant of [rotate_algorithm] and of the whole loop. *)
Section Invariant.
Variable I : fill_state → Prop.
Hypothesis I_step : ∀ st curr rel,
  I st → curr ∈ to_check st → rel ∈ ROTATIONS → I (rotate_step mc curr st rel).

Lemma rotate_fold_inv curr rels st :
  rels ⊆ ROTATIONS → I st → curr ∈ to_check st →
  I (foldl (rotate_step mc curr) st rels) ∧
  curr ∈ to_check (foldl (rotate_step mc curr) st rels) ∧
  to_check st ⊆ to_check (foldl (rotate_step mc curr) st rels).
Proof.
  revert st. induction rels as [|rel rels IH]; intros st Hsub HI Hc; simpl.
  - done.
  - destruct (IH (rotate_step mc curr st rel)) as (H1 & H2 & H3).
    + intros x Hx. apply Hsub. by apply list_elem_of_further.
    + apply I_step; [done..|]. apply Hsub, list_elem_of_here.
    + by apply rotate_step_to_check_mono.
    + split_and!; [done..|].
      intros p Hp. apply H3. by apply rotate_step_to_check_mono.
Qed.

Lemma rotate_algorithm_inv curr st :
  I st → curr ∈ to_check st → I (rotate_algorithm mc curr st).
Proof. intros. by apply rotate_fold_inv. Qed.

Lemma open_loop_inv fuel i st st' :
  I st → open_loop fuel mc i st = Ret st' → I st'.
Proof.
  revert i st. induction fuel as [|fuel IH]; intros i st HI; simpl.
  - destruct (to_check st !! i); [done|]. by intros [= <-].
  - destruct (to_check st !! i) as [loc|] eqn:Hi; [|by intros [= <-]].
    apply IH, rotate_algorithm_inv; [done|]. by eapply list_elem_of_lookup_2.
Qed.
End Invariant.

(** The loop ends: each step keeps [to_check] free of repeats and inside
    the keys of the tile dict, which it leaves as they are. *)
Lemma fill_bounded_step st curr rel :
  fill_bounded st → fill_bounded (rotate_step mc curr st rel) ∧
  dom (fs_tiles (rotate_step mc curr st rel)) = dom (fs_tiles st).
Proof.
  intros [Hnd Hdom].
  destruct (rotate_step_cases curr st rel)
    as [->|(t & Ht & _ & _ & [(_&_&_&Hin&->)|(_&_&->)])]; simpl; [done|..].
  - assert (Hd : dom (<[shift curr rel:=mark_as_revealed t]> (fs_tiles st))
                 = dom (fs_tiles st)) by (apply dom_insert_lookup_L; eauto).
    split; [|done]. split; simpl.
    + apply NoDup_app. split_and!; [done| |apply NoDup_singleton].
      intros x Hx ->%list_elem_of_singleton. done.
    + rewrite Hd. intros p [Hp| ->%list_elem_of_singleton]%elem_of_app; [by apply Hdom|].
      apply elem_of_dom. eauto.
  - assert (Hd : dom (<[shift curr rel:=mark_as_revealed t]> (fs_tiles st))
                 = dom (fs_tiles st)) by (apply dom_insert_lookup_L; eauto).
    split; [|done]. split; simpl; [done|]. by rewrite Hd.
Qed.

Lemma fill_bounded_length st :
  fill_bounded st → (length (to_check st) ≤ size (fs_tiles st))%nat.
Proof.
  intros [Hnd Hdom]. rewrite <- size_dom, <- (size_list_to_set (C := gset (Z * Z))) by done.
  apply subseteq_size. intros p Hp. apply Hdom. set_solver.
Qed.

Lemma rotate_algorithm_bounded curr st :
  fill_bounded st →
  fill_bounded (rotate_algorithm mc curr st) ∧
  size (fs_tiles (rotate_algorithm mc curr st)) = size (fs_tiles st).
Proof.
  unfold rotate_algorithm. generalize ROTATIONS. intros rels. revert st.
  induction rels as [|rel rels IH]; intros st Hb; simpl; [done|].
  destruct (fill_bounded_step st curr rel Hb) as [Hb' Hd].
  destruct (IH _ Hb') as [? Hs]. split; [done|].
  by rewrite Hs, <- !size_dom, Hd.
Qed.

Lemma open_loop_total fuel i st :
  fill_bounded st → (size (fs_tiles st) ≤ fuel + i)%nat →
  ∃ st', open_loop fuel mc i st = Ret st'.
Proof.
  revert i st. induction fuel as [|fuel IH]; intros i st Hb Hsz; simpl.
  - destruct (to_check st !! i) eqn:Hi; [|eauto].
    apply lookup_lt_Some in Hi. pose proof (fill_bounded_length st Hb). lia.
  - destruct (to_check st !! i) eqn:Hi; [|eauto].
    destruct (rotate_algorithm_bounded p st Hb) as [Hb' Hs].
    apply IH; [done|]. rewrite Hs. lia.
Qed.

End FloodFill.

(** [open_tile] returns or raises [KeyError]; it never runs short of steps. *)
Lemma open_tile_total g row col :
  open_tile g row col = Raise KeyError ∧ _tile_grid g !! (row, col) = None ∨
  ∃ g' l, open_tile g row col = Ret (g', l).
Proof.
  unfold open_tile, subscript.
  destruct (_tile_grid g !! (row, col)) as [t|] eqn:Ht; simpl; [right|by left].
  destruct (is_mine t || is_revealed t); [eauto|].
  destruct (open_loop_total (_mine_count_grid g) (size (_tile_grid g)) 0
    (mkFill (<[(row, col) := mark_as_revealed t]> (_tile_grid g)) [(row, col)] []))
    as [st' Hst'].
  - split; simpl; [apply NoDup_singleton|].
    intros p ->%list_elem_of_singleton. apply elem_of_dom. rewrite lookup_insert_eq. eauto.
  - simpl. rewrite <- !size_dom, dom_insert_lookup_L by eauto. lia.
  - rewrite Hst'. simpl. eauto.
Qed.

(** ** Tile-level facts used throughout *)

Lemma reveals_only_refl tg : reveals_only tg tg.
Proof. intros p. by left. Qed.

Lemma reveals_only_insert tg tg' p t :
  reveals_only tg tg' → tg' !! p = Some t →
  reveals_only tg (<[p := mark_as_revealed t]> tg').
Proof.
  intros H Ht q. destruct (decide (p = q)) as [<-|Hne].
  - rewrite lookup_insert_eq. destruct (H p) as [Hp|(t0 & Ht0 & Hp)].
    + right. exists t. split; congruence.
    + right. exists t0. split; [done|]. rewrite Hp in Ht. by injection Ht as <-.
  - rewrite lookup_insert_ne by done. apply H.
Qed.

Lemma reveals_only_mine tg tg' p : reveals_only tg tg' → mine_at tg' p = mine_at tg p.
Proof. intros H. unfold mine_at. by destruct (H p) as [->|(t & -> & ->)]. Qed.

Lemma reveals_only_revealed tg tg' p :
  reveals_only tg tg' → revealed_at tg p = true → revealed_at tg' p = true.
Proof. intros H. unfold revealed_at. by destruct (H p) as [->|(t & -> & ->)]. Qed.

Lemma empty_at_iff g p :
  empty_at g p ↔
  ∃ t c, _tile_grid g !! p = Some t ∧ is_mine t = false ∧
         _mine_count_grid g !! p = Some c ∧ c ≤ 0.
Proof.
  unfold empty_at, is_tile_empty, _is_tile_a_indicator, subscript. split.
  - destruct (_tile_grid g !! p) as [t|]; simpl; [|done].
    destruct (is_mine t) eqn:Hm; simpl; [done|].
    destruct (_mine_count_grid g !! p) as [c|]; simpl; [|done].
    destruct (0 <? c) eqn:Hc; simpl; [done|]. intros _. exists t, c. split_and!; try done. lia.
  - intros (t & c & -> & Hm & -> & Hc). simpl. rewrite Hm. simpl.
    destruct (0 <? c) eqn:Hc'; [lia|done].
Qed.

(** ** Short-circuit of [open_tile] *)

Lemma open_tile_short g row col t :
  _tile_grid g !! (row, col) = Some t → is_mine t || is_revealed t = true →
  open_tile g row col = Ret (g, [(row, col)]).
Proof. intros Ht H. unfold open_tile, subscript. rewrite Ht. simpl. by rewrite H. Qed.

(** What a call that gets past the short-circuit does, in terms of the loop. *)
Lemma open_tile_unfold g row col g' l :
  open_tile g row col = Ret (g', l) →
  (g' = g ∧ l = [(row, col)] ∧
   ∃ t, _tile_grid g !! (row, col) = Some t ∧ is_mine t || is_revealed t = true) ∨
  ∃ t st, _tile_grid g !! (row, col) = Some t ∧ is_mine t = false ∧
    is_revealed t = false ∧
    open_loop (size (_tile_grid g)) (_mine_count_grid g) 0
      (mkFill (<[(row, col) := mark_as_revealed t]> (_tile_grid g)) [(row, col)] [])
      = Ret st ∧
    g' = set_tile_grid g (fs_tiles st) ∧ l = to_check st ++ to_not_check st.
Proof.
  unfold open_tile, subscript.
  destruct (_tile_grid g !! (row, col)) as [t|] eqn:Ht; simpl; [|done].
  destruct (is_mine t || is_revealed t) eqn:Hs.
  - intros [= <- <-]. left. eauto.
  - apply orb_false_iff in Hs as [Hm Hr].
    destruct (open_loop _ _ _ _) as [st| |] eqn:Hl; simpl; [|done..].
    intros [= <- <-]. right. exists t, st. by split_and!.
Qed.

Lemma open_loop_keeps_revealed mc fuel i st st' p :
  revealed_at (fs_tiles st) p = true → open_loop fuel mc i st = Ret st' →
  revealed_at (fs_tiles st') p = true.
Proof.
  intros Hp. apply (open_loop_inv mc (λ st, revealed_at (fs_tiles st) p = true)); [|done].
  clear. intros st curr rel Hp _ _.
  destruct (rotate_step_cases mc curr st rel)
    as [->|(t & Ht & _ & _ & [(_&_&_&_&->)|(_&_&->)])]; simpl; [done|..];
    unfold revealed_at in *;
    (destruct (decide (shift curr rel = p)) as [<-|Hne];
      [by rewrite lookup_insert_eq | by rewrite lookup_insert_ne]).
Qed.

(** C6: on a tile that has a mine or is already revealed, [open_tile]
    changes nothing (it returns the very grid it was given, with both
    dicts) and returns [[(row, col)]]; so a second call on the same
    coordinate after any call that returned changes nothing either. *)
Theorem open_tile_short_circuit_idempotent :
  (∀ g row col t,
      _tile_grid g !! (row, col) = Some t → is_mine t || is_revealed t = true →
      open_tile g row col = Ret (g, [(row, col)])) ∧
  (∀ g row col g' l,
      open_tile g row col = Ret (g', l) →
      open_tile g' row col = Ret (g', [(row, col)])).
Proof.
  split; [apply open_tile_short|].
  intros g row col g' l H.
  destruct (open_tile_unfold _ _ _ _ _ H)
    as [(-> & _ & t & Ht & Hs)|(t & st & Ht & Hm & Hr & Hl & -> & _)].
  - by eapply open_tile_short.
  - eapply open_loop_keeps_revealed in Hl; last first.
    { simpl. unfold revealed_at. by rewrite lookup_insert_eq. }
    unfold revealed_at in Hl.
    destruct (fs_tiles st !! (row, col)) as [t'|] eqn:Ht'; [|done].
    eapply open_tile_short; [exact Ht'|]. rewrite Hl. apply orb_true_r.
Qed.

(** ** The win check *)

Lemma check_win_spec g :
  check_win g = true ↔ ∀ p t, _tile_grid g !! p = Some t → win_tile t = true.
Proof.
  unfold check_win. rewrite forallb_forall. split.
  - intros H p t Hpt. apply H, list_elem_of_In, list_elem_of_fmap.
    exists (p, t). split; [done|]. by apply elem_of_map_to_list.
  - intros H t [[p t'] [-> Hin]]%list_elem_of_In%list_elem_of_fmap.
    apply elem_of_map_to_list in Hin. by eapply H.
Qed.

Lemma win_tile_spec t :
  win_tile t = true ↔
  (is_flagged t = true ∧ is_mine t = true) ∨ (is_revealed t = true ∧ is_mine t = false).
Proof.
  unfold win_tile. rewrite orb_true_iff, !andb_true_iff, negb_true_iff. tauto.
Qed.

Lemma check_win_unrevealed_safe g p t :
  _tile_grid g !! p = Some t → is_mine t = false → is_revealed t = false →
  check_win g = false.
Proof.
  intros Ht Hm Hr. apply not_true_is_false. intros Hw.
  pose proof (proj1 (check_win_spec g) Hw p t Ht) as H.
  apply win_tile_spec in H. destruct H as [[_ ?]|[? _]]; congruence.
Qed.

(** C5: [check_win] is true exactly when every tile is flagged with a mine
    or revealed without one; flagging all mines and revealing all safe
    tiles gives true, and one unrevealed safe tile gives false. *)
Theorem check_win_iff g :
  (check_win g = true ↔
   ∀ p t, _tile_grid g !! p = Some t →
     (is_flagged t = true ∧ is_mine t = true) ∨
     (is_revealed t = true ∧ is_mine t = false)) ∧
  ((∀ p t, _tile_grid g !! p = Some t →
      if is_mine t then is_flagged t = true else is_revealed t = true) →
   check_win g = true) ∧
  ((∃ p t, _tile_grid g !! p = Some t ∧ is_mine t = false ∧ is_revealed t = false) →
   check_win g = false).
Proof.
  split_and!.
  - rewrite check_win_spec. by setoid_rewrite win_tile_spec.
  - intros H. apply check_win_spec. intros p t Ht. apply win_tile_spec.
    specialize (H p t Ht). destruct (is_mine t); tauto.
  - intros (p & t & Ht & Hm & Hr). by eapply check_win_unrevealed_safe.
Qed.

Lemma corner_won_tiles :
  Forall (λ kv, if is_mine kv.2 then is_flagged kv.2 = true else is_revealed kv.2 = true)
    (map_to_list (_tile_grid corner_won)).
Proof. vm_compute. repeat constructor. Qed.

Lemma corner_grid_tile_4_4 : _tile_grid corner_grid !! (4, 4) = Some new_tile.
Proof. vm_compute. reflexivity. Qed.

Lemma check_win_iff_witness :
  check_win corner_won = true ∧ check_win corner_grid = false.
Proof.
  split.
  - apply (proj1 (proj2 (check_win_iff corner_won))). intros p t Ht.
    apply elem_of_map_to_list in Ht.
    exact (proj1 (Forall_forall _ _) corner_won_tiles (p, t) Ht).
  - apply (proj2 (proj2 (check_win_iff corner_grid))).
    exists (4, 4), new_tile. split; [exact corner_grid_tile_4_4|]. split; reflexivity.
Defined.

Lemma corner_won_wins : check_win corner_won = true.
Proof. vm_compute. reflexivity. Qed.

Lemma corner_won_tile_4_4 :
  _tile_grid corner_won !! (4, 4) = Some (mkTile false true true).
Proof. vm_compute. reflexivity. Qed.

(** C4 as first worded fails: with the mine flagged and every safe tile
    revealed, a flag on the revealed safe tile (4,4) does not stop the win. *)
Lemma safe_flag_loses_counterexample : ¬ safe_flag_loses_as_worded corner_won.
Proof.
  intros H. pose proof corner_won_wins as Hw.
  rewrite H in Hw; [discriminate|].
  exists (4, 4), (mkTile false true true).
  split; [exact corner_won_tile_4_4|]. split; reflexivity.
Qed.

(** C4, amended: a grid with a safe tile that is flagged and not revealed
    fails the win check. *)
Theorem check_win_unrevealed_flagged_safe g :
  (∃ p t, _tile_grid g !! p = Some t ∧ is_mine t = false ∧ is_flagged t = true ∧
          is_revealed t = false) →
  check_win g = false.
Proof. intros (p & t & Ht & Hm & _ & Hr). by eapply check_win_unrevealed_safe. Qed.

Lemma corner_flagged_tile_4_4 :
  _tile_grid corner_flagged !! (4, 4) = Some (mkTile false false true).
Proof. vm_compute. reflexivity. Qed.

Lemma check_win_unrevealed_flagged_safe_witness : check_win corner_flagged = false.
Proof.
  apply check_win_unrevealed_flagged_safe.
  exists (4, 4), (mkTile false false true).
  split; [exact corner_flagged_tile_4_4|]. repeat split; reflexivity.
Defined.

(** ** Flags and the fill *)

(** The loop leaves a flagged tile exactly as it is. *)
Lemma open_loop_keeps_flagged mc fuel i st st' p t :
  fs_tiles st !! p = Some t → is_flagged t = true →
  open_loop fuel mc i st = Ret st' → fs_tiles st' !! p = Some t.
Proof.
  intros Hp Hf. apply (open_loop_inv mc (λ st, fs_tiles st !! p = Some t)); [|done].
  clear Hp. intros st0 curr rel Hp _ _.
  destruct (rotate_step_cases mc curr st0 rel)
    as [->|(t' & Ht' & _ & Hf' & [(_&_&_&_&->)|(_&_&->)])]; simpl; [done|..];
    (destruct (decide (shift curr rel = p)) as [<-|Hne];
      [congruence | by rewrite lookup_insert_ne]).
Qed.

Lemma open_tile_keeps_flagged g row col g' l p t :
  open_tile g row col = Ret (g', l) → p ≠ (row, col) →
  _tile_grid g !! p = Some t → is_flagged t = true →
  _tile_grid g' !! p = Some t.
Proof.
  intros H Hne Hp Hf.
  destruct (open_tile_unfold _ _ _ _ _ H)
    as [(-> & _)|(t0 & st & Ht0 & _ & _ & Hl & -> & _)]; [done|].
  simpl. eapply open_loop_keeps_flagged; [|done..].
  simpl. by rewrite lookup_insert_ne.
Qed.

Lemma corner_flagged_opens :
  (λ r, revealed_at (_tile_grid r.1) (4, 4)) <$> open_tile corner_flagged 4 4 = Ret true.
Proof. vm_compute. reflexivity. Qed.

Lemma corner_flagged_before :
  flagged_at (_tile_grid corner_flagged) (4, 4) = true ∧
  revealed_at (_tile_grid corner_flagged) (4, 4) = false.
Proof. vm_compute. split; reflexivity. Qed.

(** C3 as first worded fails on the clicked tile: in the corner grid with a
    flag on the unrevealed tile (4,4), clicking (4,4) reveals it. *)
Lemma flags_kept_counterexample : ¬ flags_kept_as_worded corner_flagged 4 4.
Proof.
  intros H. pose proof corner_flagged_opens as Ho.
  destruct (open_tile corner_flagged 4 4) as [[g' l]| |] eqn:E;
    simpl in Ho; [|discriminate..].
  injection Ho as Ho.
  rewrite (H g' l (4, 4) E (proj1 corner_flagged_before)
             (proj2 corner_flagged_before)) in Ho.
  discriminate.
Qed.

(** C3, amended: a call of [open_tile] leaves every flagged, unrevealed tile
    other than the clicked one unrevealed (the tile is left as it was). *)
Theorem open_tile_never_reveals_other_flagged g row col g' l p t :
  open_tile g row col = Ret (g', l) → p ≠ (row, col) →
  _tile_grid g !! p = Some t → is_flagged t = true → is_revealed t = false →
  _tile_grid g' !! p = Some t ∧ revealed_at (_tile_grid g') p = false.
Proof.
  intros H Hne Hp Hf Hr.
  pose proof (open_tile_keeps_flagged _ _ _ _ _ _ _ H Hne Hp Hf) as Hp'.
  split; [done|]. unfold revealed_at. by rewrite Hp'.
Qed.

Lemma corner_flagged_click_3_3 :
  open_tile corner_flagged 3 3 = Ret (opened (open_tile corner_flagged 3 3)).
Proof. vm_compute. reflexivity. Qed.

Lemma open_tile_never_reveals_other_flagged_witness :
  revealed_at (_tile_grid (opened (open_tile corner_flagged 3 3)).1) (4, 4) = false.
Proof.
  refine (proj2 (open_tile_never_reveals_other_flagged corner_flagged 3 3
    (opened (open_tile corner_flagged 3 3)).1 (opened (open_tile corner_flagged 3 3)).2
    (4, 4) (mkTile false false true) _ _ corner_flagged_tile_4_4 eq_refl eq_refl)).
  - rewrite <- surjective_pairing. exact corner_flagged_click_3_3.
  - intros [=].
Defined.

(** ** The wall of the fill *)

Lemma revealed_at_insert tg p q t :
  revealed_at (<[p := mark_as_revealed t]> tg) q =
  if decide (p = q) then true else revealed_at tg q.
Proof.
  unfold revealed_at. case_decide as Hpq.
  - subst. by rewrite lookup_insert_eq.
  - by rewrite lookup_insert_ne.
Qed.

Section Wall.
Variables (g : Grid) (clicked : Z * Z) (t0 : Tile).
Hypothesis clicked_tile : _tile_grid g !! clicked = Some t0.

Let tg1 := <[clicked := mark_as_revealed t0]> (_tile_grid g).

Lemma wall_inv_init : wall_inv g clicked (mkFill tg1 [clicked] []).
Proof.
  split_and!; simpl.
  - apply reveals_only_insert; [apply reveals_only_refl|done].
  - intros p. unfold tg1. rewrite revealed_at_insert. case_decide; [|by left].
    subst. intros _. right. left. apply list_elem_of_here.
  - intros q ->%list_elem_of_singleton. by left.
  - intros q [->%list_elem_of_singleton|[]%elem_of_nil]. by left.
Qed.

Lemma wall_inv_step st curr rel :
  wall_inv g clicked st → curr ∈ to_check st → rel ∈ ROTATIONS →
  wall_inv g clicked (rotate_step (_mine_count_grid g) curr st rel).
Proof.
  intros (Hro & Hrev & Hchk & Hnbr) Hcurr Hrel.
  assert (Hn : neighbor curr (shift curr rel)) by by exists rel.
  destruct (rotate_step_cases (_mine_count_grid g) curr st rel)
    as [->|(t & Ht & Hr & Hf & [(Hm & Hc & [c Hmc] & Hin & ->)|(Hc & Hin & ->)])];
    [done|..]; unfold wall_inv; simpl.
  - (* an empty tile joins [to_check] *)
    assert (Hunrev : revealed_at (_tile_grid g) (shift curr rel) = false).
    { apply not_true_is_false. intros Hx.
      apply (reveals_only_revealed _ _ _ Hro) in Hx.
      unfold revealed_at in Hx. rewrite Ht in Hx. congruence. }
    assert (Hempty : empty_at g (shift curr rel)).
    { apply empty_at_iff.
      pose proof (reveals_only_mine _ _ (shift curr rel) Hro) as Hmine.
      unfold mine_at in Hmine. rewrite Ht in Hmine.
      destruct (_tile_grid g !! shift curr rel) as [tg0|] eqn:Htg0.
      - exists tg0, c. split_and!; [done|congruence|done|].
        unfold count_at in Hc. by rewrite Hmc in Hc.
      - destruct (Hro (shift curr rel)) as [Hx|(? & Hx & _)]; congruence. }
    split_and!.
    + by apply reveals_only_insert.
    + intros p. rewrite revealed_at_insert. case_decide as Hp.
      * subst p. intros _. right. left. apply elem_of_app. right. apply list_elem_of_here.
      * intros Hx. destruct (Hrev p Hx) as [?|[?|?]]; [by left| |by right; right].
        right. left. apply elem_of_app. by left.
    + intros q [Hq| ->%list_elem_of_singleton]%elem_of_app.
      * destruct (Hchk q Hq) as [?|(? & ? & Hx)]; [by left|right].
        split_and!; [done..|]. rewrite revealed_at_insert. by case_decide.
      * right. split_and!; [done..|]. rewrite revealed_at_insert. by case_decide.
    + intros q Hq.
      assert (Hcases : q ∈ to_check st ∨ q ∈ to_not_check st ∨ q = shift curr rel).
      { destruct Hq as [[?| ->%list_elem_of_singleton]%elem_of_app|?]; auto. }
      destruct Hcases as [Hq'|[Hq'| ->]].
      * destruct (Hnbr q (or_introl Hq')) as [?|(e & He & ?)]; [by left|right].
        exists e. split; [|done]. apply elem_of_app. by left.
      * destruct (Hnbr q (or_intror Hq')) as [?|(e & He & ?)]; [by left|right].
        exists e. split; [|done]. apply elem_of_app. by left.
      * right. exists curr. split; [|done]. apply elem_of_app. by left.
  - (* a tile with a positive count joins [to_not_check] *)
    split_and!.
    + by apply reveals_only_insert.
    + intros p. rewrite revealed_at_insert. case_decide as Hp.
      * subst p. intros _. right. right. apply elem_of_app. right. apply list_elem_of_here.
      * intros Hx. destruct (Hrev p Hx) as [?|[?|?]]; [by left|by right; left|].
        right. right. apply elem_of_app. by left.
    + intros q Hq. destruct (Hchk q Hq) as [?|(? & ? & Hx)]; [by left|right].
      split_and!; [done..|]. rewrite revealed_at_insert. by case_decide.
    + intros q Hq.
      assert (Hcases : q ∈ to_check st ∨ q ∈ to_not_check st ∨ q = shift curr rel).
      { destruct Hq as [?|[?| ->%list_elem_of_singleton]%elem_of_app]; auto. }
      destruct Hcases as [Hq'|[Hq'| ->]].
      * destruct (Hnbr q (or_introl Hq')) as [?|(e & He & ?)]; [by left|right]. eauto.
      * destruct (Hnbr q (or_intror Hq')) as [?|(e & He & ?)]; [by left|right]. eauto.
      * right. eauto.
Qed.

Lemma wall_inv_final fuel st :
  open_loop fuel (_mine_count_grid g) 0 (mkFill tg1 [clicked] []) = Ret st →
  wall_inv g clicked st.
Proof.
  apply (open_loop_inv (_mine_count_grid g) (wall_inv g clicked)); [|apply wall_inv_init].
  intros. by apply wall_inv_step.
Qed.

End Wall.

Lemma chain_mono g tg1 tg2 clicked q :
  (∀ p, revealed_at tg1 p = true → revealed_at tg2 p = true) →
  chain g tg1 clicked q → chain g tg2 clicked q.
Proof.
  intros H Hc. induction Hc as [|e q _ IH Hn He Hb Ha]; [constructor|].
  apply (chain_empty g tg2 clicked e q); auto.
Qed.

Lemma chain_cases g tg' clicked e :
  chain g tg' clicked e →
  e = clicked ∨
  (empty_at g e ∧ revealed_at (_tile_grid g) e = false ∧ revealed_at tg' e = true).
Proof. intros [|e0 q _ _ He Hb Ha]; [by left|by right]. Qed.

(** Every member of [to_check] is linked to the clicked tile by a chain of
    empty tiles revealed by the call. *)
Lemma chain_inv_final g clicked t0 fuel st :
  _tile_grid g !! clicked = Some t0 →
  open_loop fuel (_mine_count_grid g) 0
    (mkFill (<[clicked := mark_as_revealed t0]> (_tile_grid g)) [clicked] []) = Ret st →
  ∀ q, q ∈ to_check st → chain g (fs_tiles st) clicked q.
Proof.
  intros Ht0 Hl.
  assert (wall_inv g clicked st ∧
          ∀ q, q ∈ to_check st → chain g (fs_tiles st) clicked q) as [_ H]; [|done].
  eapply (open_loop_inv (_mine_count_grid g)
    (λ st, wall_inv g clicked st ∧
           ∀ q, q ∈ to_check st → chain g (fs_tiles st) clicked q)); [| |exact Hl].
  - intros st0 curr rel [Hw Hch] Hcurr Hrel.
    pose proof (wall_inv_step g clicked st0 curr rel Hw Hcurr Hrel) as Hw'.
    split; [done|].
    assert (Hn : neighbor curr (shift curr rel)) by by exists rel.
    destruct (rotate_step_cases (_mine_count_grid g) curr st0 rel)
      as [Heq|(t & _ & _ & _ & [(_ & _ & _ & _ & Heq)|(_ & _ & Heq)])];
      rewrite Heq in Hw' |- *; [done|..];
      destruct Hw' as (_ & _ & Hchk' & _); simpl in *.
    + assert (Hmono : ∀ p, revealed_at (fs_tiles st0) p = true →
        revealed_at (<[shift curr rel := mark_as_revealed t]> (fs_tiles st0)) p = true).
      { intros p Hp. rewrite revealed_at_insert. by case_decide. }
      intros q [Hq| ->%list_elem_of_singleton]%elem_of_app.
      * by apply (chain_mono g (fs_tiles st0)), Hch.
      * destruct (Hchk' (shift curr rel)) as [->|(He & Hb & Ha)].
        { apply elem_of_app. right. apply list_elem_of_here. }
        { constructor. }
        apply (chain_empty g _ clicked curr); [|done..].
        by apply (chain_mono g (fs_tiles st0)), Hch.
    + intros q Hq. apply (chain_mono g (fs_tiles st0)); [|by apply Hch].
      intros p Hp. rewrite revealed_at_insert. by case_decide.
  - split; [by apply (wall_inv_init g clicked t0)|].
    intros q ->%list_elem_of_singleton. constructor.
Qed.

Lemma neighbor_inv e q :
  neighbor e q → e ∈ (λ rel, (q.1 - rel.1, q.2 - rel.2)) <$> ROTATIONS.
Proof.
  intros (rel & Hrel & ->). apply list_elem_of_fmap. exists rel. split; [|done].
  destruct e as [e1 e2]. unfold shift. simpl. f_equal; lia.
Qed.

Lemma edge_grid_click_1_1 :
  open_tile edge_grid 1 1 = Ret (opened (open_tile edge_grid 1 1)).
Proof. vm_compute. reflexivity. Qed.

Lemma edge_grid_indicator_1_1 : indicator_at edge_grid (1, 1).
Proof.
  split; [apply elem_of_dom; exists new_tile|split]; vm_compute; [reflexivity..|].
  reflexivity.
Qed.

Lemma edge_grid_newly_revealed :
  newly_revealed edge_grid (opened (open_tile edge_grid 1 1)).1 (1, 1) ∧
  newly_revealed edge_grid (opened (open_tile edge_grid 1 1)).1 (0, 0).
Proof. vm_compute. repeat split; reflexivity. Qed.

Lemma origin_neighbours :
  (λ rel : Z * Z, ((0, 0).1 - rel.1, (0, 0).2 - rel.2)) <$> ROTATIONS =
  [(1, 1); (1, 0); (1, -1); (0, 1); (0, -1); (-1, 1); (-1, 0); (-1, -1)].
Proof. reflexivity. Qed.

Lemma edge_grid_origin_neighbours :
  Forall (λ e, is_tile_empty (_tile_grid edge_grid) (_mine_count_grid edge_grid) e
               ≠ Ret true)
         [(1, 1); (1, 0); (1, -1); (0, 1); (0, -1); (-1, 1); (-1, 0); (-1, -1)].
Proof.
  repeat (apply Forall_cons; split; [vm_compute; intros H; discriminate H|]).
  apply Forall_nil. exact I.
Qed.

(** C1 as first worded fails when the clicked tile is itself an indicator:
    on the 5x5 grid with mines at (1,0) and (2,0), clicking the indicator
    (1,1) reveals it and expands it, which reveals its neighbour (0,0); no
    empty tile is next to (0,0). *)
Lemma wall_counterexample : ¬ wall_as_worded edge_grid 1 1.
Proof.
  intros H.
  destruct (H (opened (open_tile edge_grid 1 1)).1 (opened (open_tile edge_grid 1 1)).2
              (1, 1) (0, 0)) as (e & Hempty & _ & Hn).
  - rewrite <- surjective_pairing. exact edge_grid_click_1_1.
  - exact edge_grid_indicator_1_1.
  - exact (proj1 edge_grid_newly_revealed).
  - exists (-1, -1). split; [apply list_elem_of_here|reflexivity].
  - exact (proj2 edge_grid_newly_revealed).
  - intros [=].
  - apply neighbor_inv in Hn. rewrite origin_neighbours in Hn.
    exact (proj1 (Forall_forall _ _) edge_grid_origin_neighbours e Hn Hempty).
Qed.

(** C1, amended: the one indicator a call of [open_tile] expands is the
    clicked tile. Every tile revealed by the call is the clicked tile or a
    neighbour of a tile of the chain: the clicked tile and the empty tiles
    revealed by the call that a path of such empty tiles, neighbour to
    neighbour, links to the clicked tile. So a neighbour of an indicator
    other than the clicked tile is revealed only when it is reached through
    a tile of the chain, which that indicator is not. *)
Theorem open_tile_wall g row col g' l :
  open_tile g row col = Ret (g', l) →
  (∀ q, newly_revealed g g' q →
     q = (row, col) ∨
     ∃ e, chain g (_tile_grid g') (row, col) e ∧ neighbor e q) ∧
  (∀ p q, indicator_at g p → p ≠ (row, col) → neighbor p q →
     newly_revealed g g' q → q ≠ (row, col) →
     ∃ e, e ≠ p ∧ chain g (_tile_grid g') (row, col) e ∧ neighbor e q).
Proof.
  intros H.
  assert (H1 : ∀ q, newly_revealed g g' q →
            q = (row, col) ∨
            ∃ e, chain g (_tile_grid g') (row, col) e ∧ neighbor e q).
  { intros q [Hq Hq'].
    destruct (open_tile_unfold _ _ _ _ _ H)
      as [(-> & _)|(t & st & Ht & _ & _ & Hl & -> & _)]; [congruence|].
    simpl in *.
    destruct (wall_inv_final g (row, col) t Ht _ _ Hl) as (_ & Hrev & _ & Hnbr).
    destruct (Hrev q Hq') as [?|Hin]; [congruence|].
    destruct (Hnbr q Hin) as [?|(e & He & Hn)]; [by left|right].
    exists e. split; [|done]. by apply (chain_inv_final g (row, col) t _ st Ht Hl). }
  split; [done|].
  intros p q (_ & _ & Hpos) Hp Hn Hq Hqc.
  destruct (H1 q Hq) as [?|(e & Hch & Hne)]; [done|].
  exists e. split; [|done]. intros ->.
  destruct (chain_cases _ _ _ _ Hch) as [?|(He & _)]; [done|].
  apply empty_at_iff in He as (t & c & _ & _ & Hc & Hle).
  unfold count_at in Hpos. rewrite Hc in Hpos. simpl in Hpos. lia.
Qed.

Lemma open_tile_wall_witness :
  (∀ q, newly_revealed edge_grid (opened (open_tile edge_grid 1 1)).1 q →
     q = (1, 1) ∨
     ∃ e, chain edge_grid (_tile_grid (opened (open_tile edge_grid 1 1)).1) (1, 1) e ∧
          neighbor e q) ∧
  (∀ p q, indicator_at edge_grid p → p ≠ (1, 1) → neighbor p q →
     newly_revealed edge_grid (opened (open_tile edge_grid 1 1)).1 q → q ≠ (1, 1) →
     ∃ e, e ≠ p ∧
          chain edge_grid (_tile_grid (opened (open_tile edge_grid 1 1)).1) (1, 1) e ∧
          neighbor e q).
Proof.
  apply (open_tile_wall edge_grid 1 1 _ (opened (open_tile edge_grid 1 1)).2).
  rewrite <- surjective_pairing. exact edge_grid_click_1_1.
Defined.

(** ** The chain stops at the wall *)

Lemma three_mines_click_0_0 :
  length (opened (open_tile three_mines_grid 0 0)).2 = 12%nat.
Proof. vm_compute. reflexivity. Qed.

(** The empty tiles round (0,0) have no empty neighbour but themselves. *)
Lemma three_mines_region :
  Forall (λ e, Forall (λ rel,
    empty_at three_mines_grid (shift e rel) →
    shift e rel ∈ [(0, 0); (0, 1); (0, 2); (1, 0); (2, 0)]) ROTATIONS)
    [(0, 0); (0, 1); (0, 2); (1, 0); (2, 0)].
Proof.
  unfold empty_at.
  repeat (apply Forall_cons_2;
    [repeat (apply Forall_cons_2;
       [vm_compute;
        first [intros H; discriminate H
              |intros _; repeat first [apply list_elem_of_here
                                      |apply list_elem_of_further]]|]);
     apply Forall_nil_2|]).
  apply Forall_nil_2.
Qed.

Lemma three_mines_chain tg' e :
  chain three_mines_grid tg' (0, 0) e → e ∈ [(0, 0); (0, 1); (0, 2); (1, 0); (2, 0)].
Proof.
  induction 1 as [|e q _ IH (rel & Hrel & ->) He _ _].
  - apply list_elem_of_here.
  - pose proof (proj1 (Forall_forall _ _) three_mines_region e IH) as H1.
    exact (proj1 (Forall_forall _ _) H1 rel Hrel He).
Qed.

(** What the amended C1 says of a call is not true of a fill that goes on
    through indicators. On the grid with mines at (0,4), (2,2) and (4,0) a
    click on (0,0) reveals 12 tiles; were all 22 tiles without a mine
    revealed, (4,4) would be neither the clicked tile nor next to a tile of
    the chain. *)
Lemma chain_stops_at_the_wall :
  newly_revealed three_mines_grid three_mines_all_open (4, 4) ∧
  ¬ ((4, 4) = (0, 0) ∨
     ∃ e, chain three_mines_grid (_tile_grid three_mines_all_open) (0, 0) e ∧
          neighbor e (4, 4)).
Proof.
  split; [vm_compute; split; reflexivity|].
  intros [H|(e & Hc & Hn)]; [discriminate H|].
  apply three_mines_chain in Hc. apply neighbor_inv in Hn.
  repeat (apply elem_of_cons in Hc as [->|Hc];
    [vm_compute in Hn;
     repeat (apply elem_of_cons in Hn as [Hn|Hn]; [discriminate Hn|]);
     by apply elem_of_nil in Hn|]).
  by apply elem_of_nil in Hc.
Qed.

(** ** Loops *)

Lemma for_each_inv {A S} (body : S → A → outcome S) (P : S → Prop) l s s' :
  (∀ s a s', a ∈ l → P s → body s a = Ret s' → P s') →
  P s → for_each body l s = Ret s' → P s'.
Proof.
  revert s. induction l as [|a l IH]; intros s Hbody HP; simpl.
  - by intros [= <-].
  - destruct (body s a) as [s1| |] eqn:Hb; simpl; [|done..].
    apply IH.
    + intros s2 a2 s2' Ha2. apply Hbody. by apply list_elem_of_further.
    + eapply Hbody; [apply list_elem_of_here|done..].
Qed.

Lemma for_each_count {A S} (body : S → A → outcome S) (f : S → nat) l s s' :
  (∀ s a s', body s a = Ret s' → f s' = Datatypes.S (f s)) →
  for_each body l s = Ret s' → f s' = (length l + f s)%nat.
Proof.
  intros Hbody. revert s. induction l as [|a l IH]; intros s; simpl.
  - by intros [= <-].
  - destruct (body s a) as [s1| |] eqn:Hb; simpl; [|done..].
    intros Hl. rewrite (IH _ Hl), (Hbody _ _ _ Hb). lia.
Qed.

(** A loop whose body always returns, returns. *)
Lemma for_each_total {A S} (body : S → A → outcome S) (P : S → Prop) l s :
  (∀ s a, a ∈ l → P s → ∃ s', body s a = Ret s' ∧ P s') →
  P s → ∃ s', for_each body l s = Ret s' ∧ P s'.
Proof.
  revert s. induction l as [|a l IH]; intros s Hbody HP; simpl; [eauto|].
  destruct (Hbody s a) as (s1 & -> & HP1); [apply list_elem_of_here|done|]. simpl.
  apply IH; [|done]. intros s2 a2 Ha2. apply Hbody. by apply list_elem_of_further.
Qed.

Lemma elem_of_range n i : i ∈ range n ↔ 0 ≤ i < n.
Proof. unfold range. rewrite elem_of_seqZ. lia. Qed.

(** ** Set-up: the empty grids *)

Lemma same_header_refl g : same_header g g.
Proof. done. Qed.

Lemma same_header_trans g1 g2 g3 :
  same_header g1 g2 → same_header g2 g3 → same_header g1 g3.
Proof. unfold same_header. intros (?&?&?&?) (?&?&?&?). split_and!; congruence. Qed.

Lemma init_row_spec row cols g :
  let g' := foldl (λ g col,
      mkGrid (_grid_height g) (_grid_width g) (_mine_count g)
             (<[(row, col) := new_tile]> (_tile_grid g))
             (<[(row, col) := 0]> (_mine_count_grid g)) (seed g)) g cols in
  same_header g g' ∧
  ∀ p, (p.1 = row ∧ p.2 ∈ cols →
          _tile_grid g' !! p = Some new_tile ∧ _mine_count_grid g' !! p = Some 0) ∧
       (¬ (p.1 = row ∧ p.2 ∈ cols) →
          _tile_grid g' !! p = _tile_grid g !! p ∧
          _mine_count_grid g' !! p = _mine_count_grid g !! p).
Proof.
  induction cols as [|col cols IH] using rev_ind; simpl.
  - split; [done|]. intros p. split; [|done]. by intros [_ ?%elem_of_nil].
  - rewrite foldl_app. simpl. destruct IH as [Hh IH]. split.
    + destruct Hh as (?&?&?&?). by split_and!.
    + intros [r c]. simpl. destruct (IH (r, c)) as [IH1 IH2]. simpl in *. split.
      * intros [-> Hc]. destruct (decide (c = col)) as [->|Hne].
        { by rewrite !lookup_insert_eq. }
        rewrite !lookup_insert_ne by congruence. apply IH1. split; [done|].
        apply elem_of_app in Hc as [?| ->%list_elem_of_singleton]; done.
      * intros Hn. rewrite !lookup_insert_ne.
        -- apply IH2. intros [-> ?]. apply Hn. split; [done|]. apply elem_of_app. by left.
        -- intros [= -> ->]. apply Hn. split; [done|]. apply elem_of_app. right.
           apply list_elem_of_here.
        -- intros [= -> ->]. apply Hn. split; [done|]. apply elem_of_app. right.
           apply list_elem_of_here.
Qed.

Lemma init_rows_spec w rows g :
  let g' := foldl (λ g row,
    foldl (λ g col,
      mkGrid (_grid_height g) (_grid_width g) (_mine_count g)
             (<[(row, col) := new_tile]> (_tile_grid g))
             (<[(row, col) := 0]> (_mine_count_grid g)) (seed g))
      g (range (_grid_width g))) g rows in
  _grid_width g = w →
  same_header g g' ∧
  ∀ p, (p.1 ∈ rows ∧ 0 ≤ p.2 < w →
          _tile_grid g' !! p = Some new_tile ∧ _mine_count_grid g' !! p = Some 0) ∧
       (¬ (p.1 ∈ rows ∧ 0 ≤ p.2 < w) →
          _tile_grid g' !! p = _tile_grid g !! p ∧
          _mine_count_grid g' !! p = _mine_count_grid g !! p).
Proof.
  induction rows as [|row rows IH] using rev_ind; simpl; intros Hw.
  - split; [done|]. intros p. split; [|done]. by intros [?%elem_of_nil _].
  - rewrite foldl_app. simpl. destruct (IH Hw) as [Hh IH']. clear IH.
    set (g1 := foldl _ g rows) in *.
    destruct (init_row_spec row (range (_grid_width g1)) g1) as [Hh2 Hrow].
    split; [by eapply same_header_trans|].
    assert (Hw1 : _grid_width g1 = w) by (destruct Hh as (?&?&?&?); congruence).
    intros p. destruct (Hrow p) as [Hr1 Hr2]. destruct (IH' p) as [IH1 IH2].
    rewrite Hw1 in *. setoid_rewrite elem_of_range in Hr1.
    setoid_rewrite elem_of_range in Hr2. split.
    + intros [Hp Hc]. destruct (decide (p.1 = row)) as [Heq|Hne]; [by apply Hr1|].
      destruct Hr2 as [-> ->]; [tauto|]. apply IH1. split; [|done].
      apply elem_of_app in Hp as [?|?%list_elem_of_singleton]; done.
    + intros Hn. destruct Hr2 as [-> ->].
      * intros [Heq ?]. apply Hn. split; [|done]. rewrite Heq. apply elem_of_app.
        right. apply list_elem_of_here.
      * apply IH2. intros [? ?]. apply Hn. split; [|done]. apply elem_of_app. by left.
Qed.

Lemma init_grids_spec g :
  _tile_grid g = ∅ → _mine_count_grid g = ∅ →
  same_header g (_init_grids g) ∧ blank (_init_grids g).
Proof.
  intros Ht Hm.
  destruct (init_rows_spec (_grid_width g) (range (_grid_height g)) g eq_refl)
    as [Hh Hp].
  fold (_init_grids g) in Hh, Hp. split; [done|].
  destruct Hh as (Hh1 & Hw1 & _). intros p. rewrite Hh1, Hw1.
  destruct (Hp p) as [H1 H2]. rewrite elem_of_range in H1, H2. split.
  - intros [? ?]. by apply H1.
  - intros Hn. destruct H2 as [-> ->]; [by intros [? ?]; apply Hn|].
    by rewrite Ht, Hm, !lookup_empty.
Qed.

(** ** Set-up: the mines *)

Lemma elem_of_mines_of tg p : p ∈ mines_of tg ↔ mine_at tg p = true.
Proof.
  unfold mines_of, mine_at. rewrite elem_of_dom. unfold is_Some.
  setoid_rewrite map_lookup_filter_Some. simpl. split.
  - by intros (t & -> & ?).
  - destruct (tg !! p) as [t|]; [eauto|done].
Qed.

Lemma mine_at_place tg loc t p :
  mine_at (<[loc := place_mine t]> tg) p =
  if decide (loc = p) then true else mine_at tg p.
Proof.
  unfold mine_at. case_decide as Hp.
  - subst. by rewrite lookup_insert_eq.
  - by rewrite lookup_insert_ne.
Qed.

Lemma mines_of_place tg loc t :
  mine_at tg loc = false →
  size (mines_of (<[loc := place_mine t]> tg)) = Datatypes.S (size (mines_of tg)).
Proof.
  intros Hm.
  assert (Heq : mines_of (<[loc := place_mine t]> tg) = {[loc]} ∪ mines_of tg).
  { apply set_eq. intros p.
    rewrite elem_of_union, elem_of_singleton, !elem_of_mines_of, mine_at_place.
    case_decide as Hd; [subst; tauto|]. split; [tauto|].
    intros [?|?]; [congruence|done]. }
  rewrite Heq, size_union, size_singleton; [done|].
  apply disjoint_singleton_l. rewrite elem_of_mines_of. congruence.
Qed.

Lemma mines_of_blank g : blank g → mines_of (_tile_grid g) = ∅.
Proof.
  intros Hb. apply set_eq. intros p. rewrite elem_of_mines_of. split; [|set_solver].
  intros Hm. unfold mine_at in Hm.
  destruct (decide (in_range (_grid_height g) (_grid_width g) p)) as [Hr|Hr].
  - destruct (proj1 (Hb p) Hr) as [Ht _]. by rewrite Ht in Hm.
  - destruct (proj2 (Hb p) Hr) as [Ht _]. by rewrite Ht in Hm.
Qed.

Lemma blank_covered g : blank g → covered g.
Proof.
  intros Hb p. destruct (Hb p) as [H1 H2].
  destruct (decide (in_range (_grid_height g) (_grid_width g) p)) as [Hr|Hr].
  - destruct (H1 Hr) as [-> ->]. split; split; eauto.
  - destruct (H2 Hr) as [-> ->]. split; split; (done || by intros []).
Qed.

Lemma blank_untouched g : blank g → untouched g.
Proof.
  intros Hb p t Ht. destruct (Hb p) as [H1 H2].
  destruct (decide (in_range (_grid_height g) (_grid_width g) p)) as [Hr|Hr].
  - destruct (H1 Hr) as [Ht' _]. rewrite Ht' in Ht. by injection Ht as <-.
  - destruct (H2 Hr) as [Ht' _]. congruence.
Qed.

Lemma placed_header g g' : placed g g' → same_header g g'.
Proof. by intros (loc & t & _ & _ & ->). Qed.

Lemma placed_counts g g' : placed g g' → _mine_count_grid g' = _mine_count_grid g.
Proof. by intros (loc & t & _ & _ & ->). Qed.

Lemma placed_covered g g' : placed g g' → covered g → covered g'.
Proof.
  intros (loc & t & Ht & _ & ->) Hc p. simpl. destruct (Hc p) as [H1 H2].
  split; [|done]. rewrite <- H1. destruct (decide (loc = p)) as [->|Hne].
  - rewrite lookup_insert_eq, Ht. split; eauto.
  - by rewrite lookup_insert_ne.
Qed.

Lemma placed_untouched g g' : placed g g' → untouched g → untouched g'.
Proof.
  intros (loc & t & Ht & _ & ->) Hu p t'. simpl.
  destruct (decide (loc = p)) as [->|Hne].
  - rewrite lookup_insert_eq. intros [= <-]. by apply (Hu p t).
  - rewrite lookup_insert_ne by done. apply Hu.
Qed.

Lemma placed_mines g g' :
  placed g g' →
  size (mines_of (_tile_grid g')) = Datatypes.S (size (mines_of (_tile_grid g))).
Proof.
  intros (loc & t & Ht & Hm & ->). simpl. apply mines_of_place.
  unfold mine_at. by rewrite Ht.
Qed.

(** The coordinates of a grid, and how many there are. *)
Lemma all_positions_spec h w p : p ∈ all_positions h w ↔ in_range h w p.
Proof.
  unfold all_positions, in_range. rewrite list_elem_of_bind. split.
  - intros (row & (col & Hp & Hcol)%list_elem_of_bind & Hrow).
    apply list_elem_of_singleton in Hp as ->. simpl.
    by rewrite <- !elem_of_range.
  - intros [Hrow Hcol]. exists p.1. rewrite elem_of_range. split; [|done].
    apply list_elem_of_bind. exists p.2. rewrite elem_of_range. split; [|done].
    destruct p. apply list_elem_of_here.
Qed.

Lemma all_positions_NoDup h w : NoDup (all_positions h w).
Proof.
  unfold all_positions. apply NoDup_bind; [| |apply NoDup_seqZ].
  - intros r1 r2 p _ _ (c1 & ->%list_elem_of_singleton & _)%list_elem_of_bind
      (c2 & Hp%list_elem_of_singleton & _)%list_elem_of_bind. congruence.
  - intros r _. apply NoDup_bind; [| |apply NoDup_seqZ].
    + intros c1 c2 p _ _ ->%list_elem_of_singleton Hp%list_elem_of_singleton.
      congruence.
    + intros c _. apply NoDup_singleton.
Qed.

Lemma all_positions_length h w :
  length (all_positions h w) = (Z.to_nat h * Z.to_nat w)%nat.
Proof.
  unfold all_positions, range.
  rewrite <- (length_seqZ 0 h), <- (length_seqZ 0 w).
  generalize (seqZ 0 h) (seqZ 0 w). intros rows cols.
  induction rows as [|r rows IH]; [done|]. rewrite bind_cons, length_app, IH.
  simpl. f_equal. clear. induction cols as [|c cols IH]; [done|].
  rewrite bind_cons, length_app, IH. done.
Qed.

Lemma covered_size g :
  covered g →
  size (dom (_tile_grid g)) = (Z.to_nat (_grid_height g) * Z.to_nat (_grid_width g))%nat.
Proof.
  intros Hc. rewrite <- all_positions_length.
  rewrite <- (size_list_to_set (C := gset (Z * Z))) by apply all_positions_NoDup.
  f_equal. apply set_eq. intros p.
  rewrite elem_of_dom, elem_of_list_to_set, all_positions_spec.
  apply (proj1 (Hc p)).
Qed.

(** While fewer mines than tiles are placed, some tile has none. *)
Lemma covered_safe_tile g :
  covered g →
  (size (mines_of (_tile_grid g)) <
     Z.to_nat (_grid_height g) * Z.to_nat (_grid_width g))%nat →
  ∃ p, in_range (_grid_height g) (_grid_width g) p ∧ mine_at (_tile_grid g) p = false.
Proof.
  intros Hc Hlt. rewrite <- covered_size in Hlt by done.
  assert (Hsub : mines_of (_tile_grid g) ⊆ dom (_tile_grid g)).
  { intros p. rewrite elem_of_mines_of, elem_of_dom. unfold mine_at.
    destruct (_tile_grid g !! p); [eauto|done]. }
  destruct (size_pos_elem_of (dom (_tile_grid g) ∖ mines_of (_tile_grid g)))
    as [p Hp].
  { rewrite size_difference by done. lia. }
  apply elem_of_difference in Hp as [Hd Hm]. exists p. split.
  - apply (proj1 (Hc p)). by apply elem_of_dom.
  - rewrite elem_of_mines_of in Hm. by destruct (mine_at (_tile_grid g) p).
Qed.

Lemma for_each_not_raise {A S} (body : S → A → outcome S) (P : S → Prop) l s e :
  (∀ s a s', a ∈ l → P s → body s a = Ret s' → P s') →
  (∀ s a, a ∈ l → P s → body s a ≠ Raise e) →
  P s → for_each body l s ≠ Raise e.
Proof.
  revert s. induction l as [|a l IH]; intros s Hret Hraise HP; simpl; [done|].
  destruct (body s a) as [s1|e1|] eqn:Hb; simpl; [| |done].
  - apply IH.
    + intros s2 a2 s2' Ha2. apply Hret. by apply list_elem_of_further.
    + intros s2 a2 Ha2. apply Hraise. by apply list_elem_of_further.
    + eapply Hret; [apply list_elem_of_here|done..].
  - intros [= ->]. by eapply Hraise; [apply list_elem_of_here|..].
Qed.

Section Placement.
Context `{R : PRNG}.

Lemma rnd_position_dims g g' s :
  _grid_height g' = _grid_height g → _grid_width g' = _grid_width g →
  _generate_rnd_position g' s = _generate_rnd_position g s.
Proof. intros Hh Hw. unfold _generate_rnd_position. by rewrite Hh, Hw. Qed.

Lemma rnd_position_in_range g s :
  1 ≤ _grid_height g → 1 ≤ _grid_width g →
  in_range (_grid_height g) (_grid_width g) (_generate_rnd_position g s).1.
Proof.
  intros Hh Hw. unfold _generate_rnd_position.
  pose proof (randint_range 0 (_grid_height g - 1) s) as H1.
  destruct (randint 0 (_grid_height g - 1) s) as [row s1].
  pose proof (randint_range 0 (_grid_width g - 1) s1) as H2.
  destruct (randint 0 (_grid_width g - 1) s1) as [col s2].
  simpl in *. unfold in_range. simpl. lia.
Qed.

Lemma position_at_dims g g' s n :
  _grid_height g' = _grid_height g → _grid_width g' = _grid_width g →
  position_at g' s n = position_at g s n.
Proof.
  intros Hh Hw. unfold position_at. rewrite (rnd_position_dims g g') by done.
  do 2 f_equal. induction n as [|n IH]; simpl; [done|]. rewrite IH.
  unfold next_state. by rewrite (rnd_position_dims g g').
Qed.

Lemma position_at_iter g s k n :
  position_at g (Nat.iter k (next_state g) s) n = position_at g s (n + k).
Proof. unfold position_at. by rewrite Nat.iter_add. Qed.

Lemma fair_dims g g' s :
  _grid_height g' = _grid_height g → _grid_width g' = _grid_width g →
  fair g s → fair g' s.
Proof.
  intros Hh Hw Hf k p Hp. rewrite Hh, Hw in Hp.
  destruct (Hf k p Hp) as (n & Hn & Hpos).
  exists n. split; [done|]. by rewrite (position_at_dims g g').
Qed.

Lemma fair_header g g' s : same_header g g' → fair g s → fair g' s.
Proof. intros (Hh & Hw & _). by apply fair_dims. Qed.

Lemma fair_iter g s k : fair g s → fair g (Nat.iter k (next_state g) s).
Proof.
  intros Hf j p Hp. destruct (Hf (j + k)%nat p Hp) as (n & Hn & Hpos).
  exists (n - k)%nat. split; [lia|]. rewrite position_at_iter.
  by replace (n - k + k)%nat with n by lia.
Qed.

Lemma place_one_mine_placed fuel g s g' s' :
  place_one_mine fuel g s = Ret (g', s') → placed g g'.
Proof.
  revert s. induction fuel as [|fuel IH]; intros s; simpl; [done|].
  destruct (_generate_rnd_position g s) as [loc s1]. unfold subscript.
  destruct (_tile_grid g !! loc) as [t|] eqn:Ht; simpl; [|done].
  destruct (is_mine t) eqn:Hm; [apply IH|].
  intros [= <- <-]. by exists loc, t.
Qed.

Lemma place_one_mine_not_raise fuel g s e :
  covered g → 1 ≤ _grid_height g → 1 ≤ _grid_width g →
  place_one_mine fuel g s ≠ Raise e.
Proof.
  intros Hc Hh Hw. revert s. induction fuel as [|fuel IH]; intros s; simpl; [done|].
  pose proof (rnd_position_in_range g s Hh Hw) as Hr.
  destruct (_generate_rnd_position g s) as [loc s1]. simpl in Hr.
  apply (proj1 (Hc loc)) in Hr as [t Ht]. unfold subscript. rewrite Ht. simpl.
  destruct (is_mine t); [apply IH|done].
Qed.

Lemma place_one_mine_mono fuel fuel' g s r :
  place_one_mine fuel g s = Ret r → (fuel ≤ fuel')%nat →
  place_one_mine fuel' g s = Ret r.
Proof.
  revert fuel' s. induction fuel as [|fuel IH]; intros fuel' s; simpl; [done|].
  intros H Hle. destruct fuel' as [|fuel']; [lia|]. simpl.
  destruct (_generate_rnd_position g s) as [loc s1].
  destruct (subscript (_tile_grid g) loc) as [t| |]; simpl in *; [|done..].
  destruct (is_mine t); [|done]. apply IH; [done|lia].
Qed.

Lemma place_one_mine_S fuel g s :
  place_one_mine (Datatypes.S fuel) g s =
  tile ← subscript (_tile_grid g) (position_at g s 0);
  if is_mine tile then place_one_mine fuel g (next_state g s)
  else Ret (set_tile_grid g
              (<[position_at g s 0 := place_mine tile]> (_tile_grid g)),
            next_state g s).
Proof.
  simpl. unfold position_at, next_state. simpl.
  by destruct (_generate_rnd_position g s).
Qed.

Lemma position_at_S g s d :
  position_at g s (Datatypes.S d) = position_at g (next_state g s) d.
Proof. unfold position_at. by rewrite Nat.iter_succ_r. Qed.

(** The [while True] loop ends as soon as the sequence of positions reaches
    a tile without a mine. *)
Lemma place_one_mine_terminates g d s :
  covered g → 1 ≤ _grid_height g → 1 ≤ _grid_width g →
  mine_at (_tile_grid g) (position_at g s d) = false →
  ∃ g' k, place_one_mine (Datatypes.S d) g s
            = Ret (g', Nat.iter (Datatypes.S k) (next_state g) s).
Proof.
  intros Hc Hh Hw. revert s. induction d as [|d IH]; intros s Hsafe;
    rewrite place_one_mine_S;
    pose proof (rnd_position_in_range g s Hh Hw) as Hr;
    change (_generate_rnd_position g s).1 with (position_at g s 0) in Hr;
    apply (proj1 (Hc _)) in Hr as [t Ht]; unfold subscript; rewrite Ht;
    cbn -[place_one_mine position_at next_state Nat.iter].
  - unfold mine_at in Hsafe. rewrite Ht in Hsafe. rewrite Hsafe.
    by eexists _, 0%nat.
  - destruct (is_mine t); [|by eexists _, 0%nat].
    rewrite position_at_S in Hsafe. destruct (IH _ Hsafe) as (g' & k & Hk).
    exists g', (Datatypes.S k). by rewrite Hk, <- Nat.iter_succ_r.
Qed.

(** With a fair sequence of positions, every mine of the count gets placed:
    some number of draws per mine is enough for the whole loop. *)
Lemma place_mines_terminates (l : list Z) g s :
  covered g → 1 ≤ _grid_height g → 1 ≤ _grid_width g → fair g s →
  (size (mines_of (_tile_grid g)) + length l
     ≤ Z.to_nat (_grid_height g) * Z.to_nat (_grid_width g))%nat →
  ∃ fuel r, ∀ fuel', (fuel ≤ fuel')%nat →
    for_each (λ '(g, s) _, place_one_mine fuel' g s) l (g, s) = Ret r.
Proof.
  revert g s. induction l as [|a l IH]; intros g s Hc Hh Hw Hf Hsz.
  - by exists 0%nat, (g, s).
  - simpl in Hsz. destruct (covered_safe_tile g Hc) as (p & Hp & Hsafe); [lia|].
    destruct (Hf 0%nat p Hp) as (d & _ & Hd). rewrite <- Hd in Hsafe.
    destruct (place_one_mine_terminates g d s Hc Hh Hw Hsafe) as (g1 & k & Hone).
    pose proof (place_one_mine_placed _ _ _ _ _ Hone) as Hpl.
    pose proof (placed_header _ _ Hpl) as Hhd.
    pose proof Hhd as (Hh1 & Hw1 & _).
    destruct (IH g1 (Nat.iter (Datatypes.S k) (next_state g) s))
      as (fuel & r & Hrest).
    + by apply (placed_covered g).
    + by rewrite Hh1.
    + by rewrite Hw1.
    + by apply (fair_header g), fair_iter.
    + rewrite Hh1, Hw1, (placed_mines g g1) by done. lia.
    + exists (Datatypes.S d `max` fuel)%nat, r. intros fuel' Hle. simpl.
      rewrite (place_one_mine_mono _ fuel' _ _ _ Hone) by lia. simpl.
      apply Hrest. lia.
Qed.

(** What the placement loop leaves when it returns. *)
Lemma place_random_mines_spec fuel g s g' s' :
  _place_random_mines fuel g s = Ret (g', s') →
  covered g → untouched g →
  same_header g g' ∧ covered g' ∧ untouched g' ∧
  _mine_count_grid g' = _mine_count_grid g ∧
  size (mines_of (_tile_grid g')) =
    (Z.to_nat (_mine_count g) + size (mines_of (_tile_grid g)))%nat.
Proof.
  unfold _place_random_mines. intros Hret Hc Hu.
  set (P := λ r : Grid * rng_state,
            same_header g r.1 ∧ covered r.1 ∧ untouched r.1 ∧
            _mine_count_grid r.1 = _mine_count_grid g).
  assert (Hinv : P (g', s')).
  { apply (for_each_inv _ P _ _ _) in Hret; [done| |by split_and!].
    intros [g1 s1] a [g2 s2] _ (Hh & Hc1 & Hu1 & Hm1) Hone. unfold P. simpl in *.
    apply place_one_mine_placed in Hone. split_and!.
    - eapply same_header_trans; [done|]. by apply placed_header.
    - by apply (placed_covered g1).
    - by apply (placed_untouched g1).
    - by rewrite (placed_counts g1 g2). }
  destruct Hinv as (H1 & H2 & H3 & H4). split_and!; [done..|].
  apply (for_each_count _ (λ r, size (mines_of (_tile_grid r.1)))) in Hret.
  - simpl in Hret. unfold range in Hret. by rewrite length_seqZ in Hret.
  - intros [g1 s1] a [g2 s2] Hone. simpl in *.
    by apply place_one_mine_placed, placed_mines in Hone.
Qed.

Lemma place_random_mines_not_raise fuel g s e :
  covered g → 1 ≤ _grid_height g → 1 ≤ _grid_width g →
  _place_random_mines fuel g s ≠ Raise e.
Proof.
  intros Hc Hh Hw. unfold _place_random_mines.
  apply (for_each_not_raise _
    (λ r, same_header g r.1 ∧ covered r.1)); [| |done].
  - intros [g1 s1] a [g2 s2] _ [Hhd Hc1] Hone. simpl in *.
    apply place_one_mine_placed in Hone. split.
    + eapply same_header_trans; [done|]. by apply placed_header.
    + by apply (placed_covered g1).
  - intros [g1 s1] a _ [(Hh1 & Hw1 & _) Hc1]. simpl in *.
    apply place_one_mine_not_raise; [done|by rewrite Hh1|by rewrite Hw1].
Qed.

End Placement.

(** ** Set-up: the indicators *)

Lemma indicators_row_spec row cols g g' :
  for_each (λ g col,
      t ← subscript (_tile_grid g) (row, col);
      if negb (is_mine t) then
        Ret (set_mine_count_grid g
               (<[(row, col) := _find_surrounding_mine_count (_tile_grid g) row col]>
                  (_mine_count_grid g)))
      else Ret g) cols g = Ret g' →
  same_header g g' ∧ _tile_grid g' = _tile_grid g ∧
  ∀ p, (p.1 = row ∧ p.2 ∈ cols ∧ mine_at (_tile_grid g) p = false →
          _mine_count_grid g' !! p
            = Some (_find_surrounding_mine_count (_tile_grid g) p.1 p.2)) ∧
       (¬ (p.1 = row ∧ p.2 ∈ cols ∧ mine_at (_tile_grid g) p = false) →
          _mine_count_grid g' !! p = _mine_count_grid g !! p).
Proof.
  revert g. induction cols as [|col cols IH]; intros g; simpl.
  - intros [= <-]. split_and!; [done..|]. intros p. split; [|done].
    by intros (_ & ?%elem_of_nil & _).
  - destruct (subscript (_tile_grid g) (row, col)) as [t| |] eqn:Hs; simpl;
      [|done..].
    assert (Ht : _tile_grid g !! (row, col) = Some t).
    { unfold subscript in Hs. by destruct (_tile_grid g !! (row, col)); simplify_eq. }
    set (g1 := if negb (is_mine t) then _ else _).
    assert (Hg1 : ∃ g1', g1 = Ret g1' ∧ same_header g g1' ∧
              _tile_grid g1' = _tile_grid g ∧
              ∀ p, _mine_count_grid g1' !! p =
                   if decide (p = (row, col) ∧ is_mine t = false)
                   then Some (_find_surrounding_mine_count (_tile_grid g) row col)
                   else _mine_count_grid g !! p).
    { unfold g1. destruct (is_mine t); simpl.
      - exists g. split_and!; [done..|]. intros p. case_decide as Hp; [|done].
        by destruct Hp as [_ [=]].
      - eexists. split_and!; [done..|]. intros p. simpl. case_decide as Hp.
        + destruct Hp as [-> _]. by rewrite lookup_insert_eq.
        + rewrite lookup_insert_ne; [done|]. intros <-. by apply Hp. }
    destruct Hg1 as (g1' & -> & Hh1 & Ht1 & Hm1). simpl. intros Hrest.
    destruct (IH _ Hrest) as (Hh2 & Ht2 & Hm2). rewrite Ht1 in *.
    split_and!; [by eapply same_header_trans|done|].
    intros [r c]. specialize (Hm1 (r, c)). destruct (Hm2 (r, c)) as [Hin Hout].
    simpl in *. split.
    + intros (-> & Hc & Hsafe).
      destruct (decide (c ∈ cols)) as [Hc'|Hc']; [by apply Hin|].
      apply elem_of_cons in Hc as [->|?]; [|done].
      rewrite Hout by tauto. rewrite Hm1.
      unfold mine_at in Hsafe. rewrite Ht in Hsafe. by rewrite decide_True.
    + intros Hn. rewrite Hout, Hm1.
      * case_decide as Hp; [|done]. destruct Hp as [[= -> ->] Hm]. destruct Hn.
        split_and!; [done|apply list_elem_of_here|]. unfold mine_at. by rewrite Ht.
      * intros (-> & ? & ?). apply Hn. split_and!; [done| |done].
        by apply list_elem_of_further.
Qed.

Lemma generate_indicators_rows rows g g' :
  for_each (λ g row,
    for_each (λ g col,
      t ← subscript (_tile_grid g) (row, col);
      if negb (is_mine t) then
        Ret (set_mine_count_grid g
               (<[(row, col) := _find_surrounding_mine_count (_tile_grid g) row col]>
                  (_mine_count_grid g)))
      else Ret g)
      (range (_grid_width g)) g) rows g = Ret g' →
  same_header g g' ∧ _tile_grid g' = _tile_grid g ∧
  ∀ p, (p.1 ∈ rows ∧ 0 ≤ p.2 < _grid_width g ∧ mine_at (_tile_grid g) p = false →
          _mine_count_grid g' !! p
            = Some (_find_surrounding_mine_count (_tile_grid g) p.1 p.2)) ∧
       (¬ (p.1 ∈ rows ∧ 0 ≤ p.2 < _grid_width g ∧ mine_at (_tile_grid g) p = false) →
          _mine_count_grid g' !! p = _mine_count_grid g !! p).
Proof.
  revert g. induction rows as [|row rows IH]; intros g; simpl.
  - intros [= <-]. split_and!; [done..|]. intros p. split; [|done].
    by intros (?%elem_of_nil & _).
  - destruct (for_each _ (range (_grid_width g)) g) as [g1| |] eqn:Hrow; simpl;
      [|done..].
    apply indicators_row_spec in Hrow as (Hh1 & Ht1 & Hm1). intros Hrest.
    destruct (IH _ Hrest) as (Hh2 & Ht2 & Hm2).
    assert (Hw : _grid_width g1 = _grid_width g) by by destruct Hh1 as (_ & ? & _).
    rewrite Ht1, Hw in *.
    split_and!; [by eapply same_header_trans|done|].
    intros p. destruct (Hm1 p) as [Hin1 Hout1]. destruct (Hm2 p) as [Hin2 Hout2].
    rewrite elem_of_range in Hin1, Hout1. split.
    + intros (Hr & Hc & Hsafe).
      destruct (decide (p.1 ∈ rows)) as [Hr'|Hr']; [by apply Hin2|].
      apply elem_of_cons in Hr as [Heq|?]; [|done].
      rewrite Hout2 by tauto. by apply Hin1.
    + intros Hn. rewrite Hout2, Hout1; [done| |].
      * intros (Heq & ? & ?). apply Hn. split; [|by split]. rewrite Heq.
        apply list_elem_of_here.
      * intros (? & ? & ?). apply Hn. split; [|by split].
        by apply list_elem_of_further.
Qed.

Lemma generate_indicators_spec g g' :
  _generate_indicators g = Ret g' →
  same_header g g' ∧ _tile_grid g' = _tile_grid g ∧
  ∀ p, (in_range (_grid_height g) (_grid_width g) p ∧
        mine_at (_tile_grid g) p = false →
          _mine_count_grid g' !! p
            = Some (_find_surrounding_mine_count (_tile_grid g) p.1 p.2)) ∧
       (¬ (in_range (_grid_height g) (_grid_width g) p ∧
           mine_at (_tile_grid g) p = false) →
          _mine_count_grid g' !! p = _mine_count_grid g !! p).
Proof.
  intros H. apply generate_indicators_rows in H as (Hh & Ht & Hm).
  split_and!; [done..|]. intros p. destruct (Hm p) as [Hin Hout].
  rewrite elem_of_range in Hin, Hout. unfold in_range. split.
  - intros [[? ?] ?]. by apply Hin.
  - intros Hn. apply Hout. tauto.
Qed.

(** Over dicts that hold every coordinate of the grid, the loop returns. *)
Lemma generate_indicators_total g :
  covered g → ∃ g', _generate_indicators g = Ret g'.
Proof.
  intros Hc. unfold _generate_indicators.
  set (P := λ g1 : Grid, same_header g g1 ∧ _tile_grid g1 = _tile_grid g).
  destruct (for_each_total
    (λ g row, for_each (λ g col,
      t ← subscript (_tile_grid g) (row, col);
      if negb (is_mine t) then
        Ret (set_mine_count_grid g
               (<[(row, col) := _find_surrounding_mine_count (_tile_grid g) row col]>
                  (_mine_count_grid g)))
      else Ret g) (range (_grid_width g)) g)
    P (range (_grid_height g)) g) as (g' & Hg' & _); [|done|eauto].
  intros g1 row Hrow [Hh1 Ht1].
  assert (Hw1 : _grid_width g1 = _grid_width g) by by destruct Hh1 as (_ & ? & _).
  rewrite Hw1.
  apply (for_each_total _ P); [|done].
  intros g2 col Hcol [Hh2 Ht2]. rewrite Ht2.
  destruct (proj2 (proj1 (Hc (row, col)))) as [t Ht].
  { rewrite elem_of_range in Hrow, Hcol. by split. }
  unfold subscript. rewrite Ht. simpl. destruct (is_mine t); simpl.
  - by exists g2.
  - eexists. split; [done|]. split; [|done].
    destruct Hh2 as (?&?&?&?). by split_and!.
Qed.

(** The count the code computes is the count the specification words. *)
Lemma spec_offsets_rotations : spec_offsets = ROTATIONS.
Proof. reflexivity. Qed.

Lemma find_surrounding_mine_count_spec g row col :
  covered g →
  _find_surrounding_mine_count (_tile_grid g) row col = spec_neighbor_mines g row col.
Proof.
  intros Hc. unfold _find_surrounding_mine_count, spec_neighbor_mines.
  rewrite spec_offsets_rotations.
  assert (Hgen : ∀ a l,
    foldl (λ count relative_location,
      match _tile_grid g !! shift (row, col) relative_location with
      | Some t => if is_mine t then count + 1 else count
      | None => count
      end) a l =
    a + Z.of_nat (length (filter
      (λ d, in_range (_grid_height g) (_grid_width g) (shift (row, col) d) ∧
            mine_at (_tile_grid g) (shift (row, col) d) = true) l))).
  { intros a l. revert a. induction l as [|d l IH]; intros a; simpl; [lia|].
    rewrite IH, filter_cons. unfold mine_at.
    destruct (_tile_grid g !! shift (row, col) d) as [t|] eqn:Ht.
    - destruct (is_mine t) eqn:Hm.
      + rewrite decide_True; [simpl; lia|]. split; [|done].
        apply (proj1 (Hc _)). eauto.
      + rewrite decide_False; [done|]. by intros [_ ?].
    - rewrite decide_False; [done|]. by intros [_ ?]. }
  by rewrite Hgen, Z.add_0_l.
Qed.

(** ** Set-up as a whole *)

(** A grid as set-up leaves it. *)
Lemma constructed_intro g0 g1 g2 :
  blank g0 → same_header g0 g1 → covered g1 → untouched g1 →
  _mine_count_grid g1 = _mine_count_grid g0 →
  size (mines_of (_tile_grid g1)) = Z.to_nat (_mine_count g0) →
  _generate_indicators g1 = Ret g2 →
  same_header g0 g2 ∧ constructed g2.
Proof.
  intros Hb Hh1 Hc1 Hu1 Hm1 Hsz Hind.
  apply generate_indicators_spec in Hind as (Hh2 & Ht2 & Hm2).
  pose proof (same_header_trans _ _ _ Hh1 Hh2) as Hh.
  destruct Hh2 as (Hh2h & Hh2w & _). pose proof Hh as (Hhh & Hhw & Hhm & Hhs).
  split; [done|]. unfold constructed. rewrite Ht2, Hhm.
  split_and!; [|by intros p t; rewrite Ht2; apply Hu1|done|].
  - intros p. rewrite Ht2, Hh2h, Hh2w. destruct (Hc1 p) as [Hct Hcm].
    split; [done|]. destruct (Hm2 p) as [Hin Hout].
    destruct (decide (in_range (_grid_height g1) (_grid_width g1) p ∧
                      mine_at (_tile_grid g1) p = false)) as [Hd|Hd].
    + rewrite (Hin Hd). split; [by intros _; apply Hd|eauto].
    + by rewrite (Hout Hd).
  - intros p t Ht. destruct (Hm2 p) as [Hin Hout].
    assert (Hr : in_range (_grid_height g1) (_grid_width g1) p).
    { apply (proj1 (Hc1 p)). eauto. }
    unfold mine_at in Hin, Hout. rewrite Ht in Hin, Hout.
    destruct (is_mine t); [|by apply Hin].
    rewrite Hout by (by intros [_ ?]). rewrite Hm1.
    destruct Hh1 as (Hh1h & Hh1w & _). rewrite Hh1h, Hh1w in Hr.
    by destruct (proj1 (Hb p) Hr).
Qed.

Section SetUp.
Context `{R : PRNG}.

Lemma set_up_grid_spec fuel g s g' s' :
  _tile_grid g = ∅ → _mine_count_grid g = ∅ →
  _set_up_grid fuel g s = Ret (g', s') →
  same_header g g' ∧ constructed g'.
Proof.
  intros Ht Hm. unfold _set_up_grid.
  destruct (init_grids_spec g Ht Hm) as [Hh0 Hb].
  destruct (_place_random_mines fuel (_init_grids g) s) as [[g1 s1]| |] eqn:Hpl;
    simpl; [|done..].
  apply place_random_mines_spec in Hpl as (Hh1 & Hc1 & Hu1 & Hm1 & Hsz);
    [|by apply blank_covered|by apply blank_untouched].
  rewrite (mines_of_blank _ Hb), size_empty, Nat.add_0_r in Hsz.
  destruct (_generate_indicators g1) as [g2| |] eqn:Hind; simpl; [|done..].
  intros [= <- <-].
  destruct (constructed_intro _ _ _ Hb Hh1 Hc1 Hu1 Hm1 Hsz Hind) as [Hh2 Hcon].
  split; [by eapply same_header_trans|done].
Qed.

Lemma set_up_grid_not_raise fuel g s e :
  _tile_grid g = ∅ → _mine_count_grid g = ∅ →
  1 ≤ _grid_height g → 1 ≤ _grid_width g →
  _set_up_grid fuel g s ≠ Raise e.
Proof.
  intros Ht Hm Hh Hw. unfold _set_up_grid.
  destruct (init_grids_spec g Ht Hm) as [(Hh0 & Hw0 & _) Hb].
  destruct (_place_random_mines fuel (_init_grids g) s) as [[g1 s1]|e1|] eqn:Hpl;
    simpl; [| |done].
  - apply place_random_mines_spec in Hpl as (Hh1 & Hc1 & _);
      [|by apply blank_covered|by apply blank_untouched].
    destruct (generate_indicators_total g1 Hc1) as [g2 ->]. done.
  - apply place_random_mines_not_raise in Hpl; [done|by apply blank_covered|..];
      congruence.
Qed.

(** With a fair sequence of positions set-up returns, whatever the number
    of draws granted beyond some bound. *)
Lemma set_up_grid_terminates g s :
  _tile_grid g = ∅ → _mine_count_grid g = ∅ →
  1 ≤ _grid_height g → 1 ≤ _grid_width g →
  _mine_count g ≤ _grid_height g * _grid_width g →
  fair g s →
  ∃ fuel r, ∀ fuel', (fuel ≤ fuel')%nat → _set_up_grid fuel' g s = Ret r.
Proof.
  intros Ht Hm Hh Hw Hcount Hf.
  destruct (init_grids_spec g Ht Hm) as [Hh0 Hb].
  pose proof Hh0 as (Hh0h & Hh0w & Hh0m & _).
  destruct (place_mines_terminates (range (_mine_count g)) (_init_grids g) s)
    as (fuel & [g1 s1] & Hpl).
  - by apply blank_covered.
  - by rewrite Hh0h.
  - by rewrite Hh0w.
  - by apply (fair_header g).
  - rewrite (mines_of_blank _ Hb), size_empty, Hh0h, Hh0w. unfold range.
    rewrite length_seqZ, <- Z2Nat.inj_mul by lia. simpl. lia.
  - assert (Hc1 : covered g1).
    { specialize (Hpl fuel (le_n _)).
      assert (Hpl' : _place_random_mines fuel (_init_grids g) s = Ret (g1, s1)).
      { unfold _place_random_mines. by rewrite Hh0m. }
      apply place_random_mines_spec in Hpl' as (_ & ? & _);
        [done|by apply blank_covered|by apply blank_untouched]. }
    destruct (generate_indicators_total g1 Hc1) as [g2 Hg2].
    exists fuel, (g2, s1). intros fuel' Hle. unfold _set_up_grid, _place_random_mines.
    rewrite Hh0m, (Hpl fuel' Hle). simpl. by rewrite Hg2.
Qed.

(** *** Validation and construction *)

Lemma check_valid_grid_arguments_ok h w m :
  check_valid_grid_arguments h w m = Ret tt ↔ 5 ≤ h ∧ 5 ≤ w ∧ 1 ≤ m ≤ h * w.
Proof.
  unfold check_valid_grid_arguments.
  destruct (h <? 5) eqn:E1; [simpl; split; [done|lia]|].
  destruct (w <? 5) eqn:E2; [simpl; split; [done|lia]|]. simpl.
  destruct (m <? 1) eqn:E3; [split; [done|lia]|].
  destruct (h * w <? m) eqn:E4; [split; [done|lia]|]. split; [lia|done].
Qed.

Lemma new_grid_valid fuel h w m sd env :
  5 ≤ h → 5 ≤ w → 1 ≤ m ≤ h * w →
  new_grid fuel h w m sd env =
  _set_up_grid fuel
    (mkGrid h w m ∅ ∅ (match sd with Some n => n | None => generate_seed env end))
    (random_seed sd env).
Proof.
  intros Hh Hw Hm. unfold new_grid.
  by rewrite (proj2 (check_valid_grid_arguments_ok h w m)).
Qed.

Lemma new_grid_invalid fuel h w m sd env :
  ¬ (5 ≤ h ∧ 5 ≤ w ∧ 1 ≤ m ≤ h * w) →
  new_grid fuel h w m sd env =
  Raise (Exception
    (if (h <? 5) || (w <? 5) then "Invalid grid size - too small"
     else if m <? 1 then "Invalid grid mine count - at least 1 mine required"
     else "Invalid grid mine count - can't have more tiles than grid size!")).
Proof.
  intros Hn. unfold new_grid, check_valid_grid_arguments.
  destruct ((h <? 5) || (w <? 5)) eqn:E1; [done|].
  destruct (m <? 1) eqn:E3; [done|].
  destruct (h * w <? m) eqn:E4; [done|].
  apply orb_false_iff in E1 as [? ?]. lia.
Qed.

Lemma new_grid_spec fuel h w m sd env g s :
  new_grid fuel h w m sd env = Ret (g, s) →
  (5 ≤ h ∧ 5 ≤ w ∧ 1 ≤ m ≤ h * w) ∧
  _grid_height g = h ∧ _grid_width g = w ∧ _mine_count g = m ∧
  seed g = match sd with Some n => n | None => generate_seed env end ∧
  constructed g.
Proof.
  intros H.
  destruct (decide (5 ≤ h ∧ 5 ≤ w ∧ 1 ≤ m ≤ h * w)) as [Hv|Hv].
  - split; [done|]. destruct Hv as (Hh & Hw & Hm).
    rewrite new_grid_valid in H by done.
    apply set_up_grid_spec in H as [(?&?&?&?) ?]; done.
  - by rewrite new_grid_invalid in H.
Qed.

Lemma restart_grid_spec fuel g s g' s' :
  restart_grid fuel g s = Ret (g', s') → same_header g g' ∧ constructed g'.
Proof. intros H. by apply set_up_grid_spec in H. Qed.

End SetUp.

(** ** The counting generator is fair on a 5x5 grid *)

Lemma counter_next_state g (s : nat) :
  next_state g s = Datatypes.S (Datatypes.S s).
Proof. reflexivity. Qed.

Lemma counter_iter g (s : nat) n :
  Nat.iter n (next_state g) s = (s + 2 * n)%nat.
Proof.
  induction n as [|n IH]; [simpl; lia|].
  rewrite Nat.iter_succ, IH, counter_next_state. lia.
Qed.

Lemma counter_raw_even j : counter_raw (2 * j) = Z.of_nat j.
Proof.
  unfold counter_raw.
  replace (Nat.even (2 * j)) with true
    by (symmetry; apply Nat.even_spec; by exists j).
  by rewrite Nat.mul_comm, Nat.div_mul.
Qed.

Lemma counter_raw_odd j : counter_raw (Datatypes.S (2 * j)) = Z.of_nat j / 5.
Proof.
  unfold counter_raw.
  replace (Nat.even (Datatypes.S (2 * j))) with false.
  - f_equal. f_equal. symmetry. apply (Nat.div_unique _ 2 j 1); lia.
  - symmetry. rewrite Nat.even_succ, <- Nat.negb_even.
    replace (Nat.even (2 * j)) with true; [done|].
    symmetry. apply Nat.even_spec. by exists j.
Qed.

Lemma counter_position g (a n : nat) :
  _grid_height g = 5 → _grid_width g = 5 →
  position_at g (2 * a)%nat n =
  (Z.of_nat (a + n) mod 5, (Z.of_nat (a + n) / 5) mod 5).
Proof.
  intros Hh Hw. unfold position_at. rewrite counter_iter.
  replace (2 * a + 2 * n)%nat with (2 * (a + n))%nat by lia.
  remember (2 * (a + n))%nat as t eqn:Ht.
  unfold _generate_rnd_position. rewrite Hh, Hw. simpl. subst t.
  rewrite counter_raw_even, counter_raw_odd.
  by change (1 `max` (5 - 1 - 0 + 1)) with 5.
Qed.

Lemma counter_fair g (a : nat) :
  _grid_height g = 5 → _grid_width g = 5 → fair g (2 * a)%nat.
Proof.
  intros Hh Hw k [r c] Hp. rewrite Hh, Hw in Hp. destruct Hp as [Hr Hc].
  cbn [fst snd] in Hr, Hc.
  exists (Z.to_nat (r + 5 * c) + 25 * (a + k) - a)%nat. split; [lia|].
  rewrite counter_position by done.
  replace (Z.of_nat (a + (Z.to_nat (r + 5 * c) + 25 * (a + k) - a)))
    with (r + 5 * (c + 5 * Z.of_nat (a + k))) by lia.
  f_equal; Z.div_mod_to_equations; lia.
Qed.

(** The concrete grids are what construction returns. *)
Lemma corner_grid_built : new_grid 30 5 5 1 (Some 0) demo_env = Ret (corner_grid, 2%nat).
Proof. vm_compute. reflexivity. Qed.

Lemma edge_grid_built : new_grid 30 5 5 2 (Some 1) demo_env = Ret (edge_grid, 6%nat).
Proof. vm_compute. reflexivity. Qed.

(** ** Fairness is needed *)

(** The pinned generator draws (0,0) for ever: the second mine is never
    placed, however many draws the loop is granted. *)
Lemma pinned_stuck fuel g s :
  mine_at (_tile_grid g) (0, 0) = true →
  place_one_mine (R := pinned_prng) fuel g s = OutOfFuel.
Proof.
  intros Hm. induction fuel as [|fuel IH]; [done|]. simpl. unfold subscript.
  unfold mine_at in Hm. destruct (_tile_grid g !! (0, 0)) as [t|]; [|done].
  simpl. by rewrite Hm.
Qed.

Lemma pinned_first fuel g s g' s' :
  place_one_mine (R := pinned_prng) fuel g s = Ret (g', s') →
  mine_at (_tile_grid g') (0, 0) = true.
Proof.
  induction fuel as [|fuel IH]; [done|]. simpl. unfold subscript.
  destruct (_tile_grid g !! (0, 0)) as [t|]; [|done]. simpl.
  destruct (is_mine t); [done|]. intros [= <- <-]. simpl.
  by rewrite mine_at_place, decide_True.
Qed.

Lemma pinned_never_returns fuel sd env :
  new_grid (R := pinned_prng) fuel 5 5 2 sd env = OutOfFuel.
Proof.
  rewrite new_grid_valid by lia. unfold _set_up_grid, _place_random_mines.
  set (g0 := mkGrid 5 5 2 ∅ ∅ _).
  destruct (init_grids_spec g0 eq_refl eq_refl) as [(_ & _ & Hm & _) Hb].
  rewrite Hm. change (range (_mine_count g0)) with [0; 1].
  cbn [for_each].
  destruct (place_one_mine _ (_init_grids g0) _) as [[g1 s1]|e|] eqn:H1;
    cbn [mbind outcome_bind]; [| |done].
  - by rewrite (pinned_stuck fuel g1 s1 (pinned_first _ _ _ _ _ H1)).
  - apply (place_one_mine_not_raise (R := pinned_prng)) in H1;
      [done|by apply blank_covered|..].
    + by destruct (init_grids_spec g0 eq_refl eq_refl) as [(-> & _) _].
    + by destruct (init_grids_spec g0 eq_refl eq_refl) as [(_ & -> & _) _].
Qed.

(** ** Indicators after construction *)

(** C8: after construction the count stored for a tile without a mine is
    the number of its neighbours, among the 8 offsets with components in
    -1, 0, +1 other than (0,0), that lie inside the grid and hold a mine. *)
Theorem indicators_count_neighbor_mines `{R : PRNG}
    fuel h w m sd env g s row col t :
  new_grid fuel h w m sd env = Ret (g, s) →
  _tile_grid g !! (row, col) = Some t → is_mine t = false →
  get_surrounding_mine_count g row col = Ret (spec_neighbor_mines g row col).
Proof.
  intros Hnew Ht Hm. apply new_grid_spec in Hnew as (_ & _ & _ & _ & _ & Hcon).
  destruct Hcon as (Hc & _ & _ & Hcount).
  unfold get_surrounding_mine_count, subscript.
  rewrite (Hcount _ _ Ht), Hm. simpl.
  by rewrite find_surrounding_mine_count_spec.
Qed.

Lemma indicators_count_neighbor_mines_witness :
  get_surrounding_mine_count corner_grid 4 4
  = Ret (spec_neighbor_mines corner_grid 4 4).
Proof.
  exact (indicators_count_neighbor_mines 30 5 5 1 (Some 0) demo_env corner_grid
           2%nat 4 4 new_tile corner_grid_built corner_grid_tile_4_4 eq_refl).
Defined.

(** ** Construction *)

(** C9: for valid arguments, a construction that completes leaves exactly
    [mine_count] tiles with a mine and one tile entry and one count entry
    at exactly the coordinates of the grid; and construction does complete,
    given draws enough, when the generator's sequence of positions is fair. *)
Theorem construction_places_all_mines `{R : PRNG} h w m sd env :
  5 ≤ h → 5 ≤ w → 1 ≤ m ≤ h * w →
  (∀ fuel g s, new_grid fuel h w m sd env = Ret (g, s) →
     Z.of_nat (size (mines_of (_tile_grid g))) = m ∧
     (∀ p, is_Some (_tile_grid g !! p) ↔ in_range h w p) ∧
     (∀ p, is_Some (_mine_count_grid g !! p) ↔ in_range h w p)) ∧
  (fair (mkGrid h w m ∅ ∅ 0) (random_seed sd env) →
     ∃ fuel g s, ∀ fuel', (fuel ≤ fuel')%nat →
       new_grid fuel' h w m sd env = Ret (g, s)).
Proof.
  intros Hh Hw Hm. split.
  - intros fuel g s Hnew.
    apply new_grid_spec in Hnew as (_ & <- & <- & <- & _ & Hc & _ & Hsz & _).
    split; [rewrite Hsz; lia|]. split; intros p; apply Hc.
  - intros Hf.
    destruct (set_up_grid_terminates
      (mkGrid h w m ∅ ∅ (match sd with Some n => n | None => generate_seed env end))
      (random_seed sd env)) as (fuel & [g s] & Hret); simpl; [done|done|lia..| |].
    + by apply (fair_dims (mkGrid h w m ∅ ∅ 0)).
    + exists fuel, g, s. intros fuel' Hle. rewrite new_grid_valid by done. by apply Hret.
Qed.

Lemma construction_places_all_mines_witness :
  (∀ fuel g s, new_grid fuel 5 5 3 (Some 7) demo_env = Ret (g, s) →
     Z.of_nat (size (mines_of (_tile_grid g))) = 3 ∧
     (∀ p, is_Some (_tile_grid g !! p) ↔ in_range 5 5 p) ∧
     (∀ p, is_Some (_mine_count_grid g !! p) ↔ in_range 5 5 p)) ∧
  ∃ fuel g s, ∀ fuel', (fuel ≤ fuel')%nat →
    new_grid fuel' 5 5 3 (Some 7) demo_env = Ret (g, s).
Proof.
  destruct (construction_places_all_mines 5 5 3 (Some 7) demo_env) as [H1 H2];
    [lia..|].
  split; [exact H1|]. apply H2. exact (counter_fair (mkGrid 5 5 3 ∅ ∅ 0) 7 eq_refl eq_refl).
Defined.

(** C10: construction raises exactly when the height or the width is below
    5, or the mine count is below 1 or above the area; what it raises then
    is the exception naming the constraint, whatever else it was given and
    before anything is set up; (4,5,1) and (5,5,26) are refused, and (5,5,25)
    builds a grid whose every tile is a mine. *)
Theorem construction_validation `{R : PRNG} :
  (∀ fuel h w m sd env,
     (∃ e, new_grid fuel h w m sd env = Raise e) ↔
     (h < 5 ∨ w < 5 ∨ m < 1 ∨ h * w < m)) ∧
  (∀ fuel h w m sd env, h < 5 ∨ w < 5 →
     new_grid fuel h w m sd env = Raise (Exception "Invalid grid size - too small")) ∧
  (∀ fuel h w m sd env, 5 ≤ h → 5 ≤ w → m < 1 →
     new_grid fuel h w m sd env =
     Raise (Exception "Invalid grid mine count - at least 1 mine required")) ∧
  (∀ fuel h w m sd env, 5 ≤ h → 5 ≤ w → 1 ≤ m → h * w < m →
     new_grid fuel h w m sd env =
     Raise (Exception
       "Invalid grid mine count - can't have more tiles than grid size!")) ∧
  (∀ fuel sd env,
     new_grid fuel 4 5 1 sd env = Raise (Exception "Invalid grid size - too small") ∧
     new_grid fuel 5 5 26 sd env =
     Raise (Exception
       "Invalid grid mine count - can't have more tiles than grid size!")) ∧
  (∀ sd env,
     check_valid_grid_arguments 5 5 25 = Ret tt ∧
     (fair (mkGrid 5 5 25 ∅ ∅ 0) (random_seed sd env) →
      ∃ fuel g s, new_grid fuel 5 5 25 sd env = Ret (g, s) ∧
        ∀ p, in_range 5 5 p → mine_at (_tile_grid g) p = true)).
Proof.
  split_and!.
  - intros fuel h w m sd env. split.
    + intros [e He].
      destruct (decide (5 ≤ h ∧ 5 ≤ w ∧ 1 ≤ m ≤ h * w)) as [(Hh & Hw & Hm)|Hv]; [|lia].
      rewrite new_grid_valid in He by done.
      apply set_up_grid_not_raise in He; [done..|simpl; lia|simpl; lia].
    + intros Hbad. eexists. apply new_grid_invalid. lia.
  - intros fuel h w m sd env Hbad. rewrite new_grid_invalid by lia.
    destruct (h <? 5) eqn:E1; [done|]. destruct (w <? 5) eqn:E2; [done|]. lia.
  - intros fuel h w m sd env Hh Hw Hm. rewrite new_grid_invalid by lia.
    destruct (h <? 5) eqn:E1; [lia|]. destruct (w <? 5) eqn:E2; [lia|]. simpl.
    destruct (m <? 1) eqn:E3; [done|lia].
  - intros fuel h w m sd env Hh Hw Hm Hbig. rewrite new_grid_invalid by lia.
    destruct (h <? 5) eqn:E1; [lia|]. destruct (w <? 5) eqn:E2; [lia|]. simpl.
    destruct (m <? 1) eqn:E3; [lia|done].
  - intros fuel sd env. split; by rewrite new_grid_invalid by lia.
  - intros sd env. split; [done|]. intros Hf.
    destruct (set_up_grid_terminates
      (mkGrid 5 5 25 ∅ ∅ (match sd with Some n => n | None => generate_seed env end))
      (random_seed sd env)) as (fuel & [g s] & Hret); simpl; [done|done|lia..| |].
    + by apply (fair_dims (mkGrid 5 5 25 ∅ ∅ 0)).
    + specialize (Hret fuel (le_n _)). rewrite <- new_grid_valid in Hret by lia.
      exists fuel, g, s. split; [done|].
      apply new_grid_spec in Hret as (_ & Hgh & Hgw & Hgm & _ & Hc & _ & Hsz & _).
      intros p Hp. apply elem_of_mines_of.
      assert (Heq : mines_of (_tile_grid g) = dom (_tile_grid g)).
      { apply set_subseteq_size_eq.
        - intros q. rewrite elem_of_mines_of, elem_of_dom. unfold mine_at.
          destruct (_tile_grid g !! q); [eauto|done].
        - rewrite covered_size, Hsz, Hgh, Hgw, Hgm by done. done. }
      rewrite Heq. apply elem_of_dom, (proj1 (Hc p)). by rewrite Hgh, Hgw.
Qed.

Lemma construction_validation_witness :
  ∃ fuel g s, new_grid fuel 5 5 25 (Some 0) demo_env = Ret (g, s) ∧
    ∀ p, in_range 5 5 p → mine_at (_tile_grid g) p = true.
Proof.
  destruct construction_validation as (_ & _ & _ & _ & _ & H).
  apply (H (Some 0) demo_env). exact (counter_fair (mkGrid 5 5 25 ∅ ∅ 0) 0 eq_refl eq_refl).
Defined.

(** ** Mines stay hidden *)

Lemma constructed_mines_hidden g : constructed g → mines_hidden g.
Proof.
  intros (_ & Hu & _ & Hcount) p t Ht Hm. split; [by apply (Hu p t)|].
  unfold count_at. by rewrite (Hcount p t Ht), Hm.
Qed.

Lemma open_tile_mines_hidden g row col g' l :
  open_tile g row col = Ret (g', l) → mines_hidden g → mines_hidden g'.
Proof.
  intros H Hg.
  destruct (open_tile_unfold _ _ _ _ _ H)
    as [(-> & _)|(t0 & st & Ht0 & Hm0 & _ & Hl & -> & _)]; [done|].
  unfold mines_hidden. simpl.
  eapply (open_loop_inv (_mine_count_grid g)
    (λ st, ∀ p t, fs_tiles st !! p = Some t → is_mine t = true →
           is_revealed t = false ∧ count_at (_mine_count_grid g) p ≤ 0));
    [| |exact Hl].
  - clear. intros st curr rel Hst _ _.
    destruct (rotate_step_cases (_mine_count_grid g) curr st rel)
      as [->|(t & Ht & _ & _ & [(Hm & _ & _ & _ & ->)|(Hc & _ & ->)])];
      [done|..]; simpl; intros p t';
      (destruct (decide (shift curr rel = p)) as [<-|Hne];
        [rewrite lookup_insert_eq; intros [= <-] Hm'
        |rewrite lookup_insert_ne by done; apply Hst]).
    + unfold is_mine in *. simpl in Hm'. congruence.
    + destruct (Hst _ _ Ht Hm') as [_ ?]. lia.
  - simpl. intros p t.
    destruct (decide ((row, col) = p)) as [<-|Hne].
    + rewrite lookup_insert_eq. intros [= <-] Hm'. unfold is_mine in *.
      simpl in Hm'. congruence.
    + rewrite lookup_insert_ne by done. apply Hg.
Qed.

Lemma flag_mines_hidden g p t (f : Tile → Tile) :
  (∀ t, is_mine (f t) = is_mine t ∧ is_revealed (f t) = is_revealed t) →
  _tile_grid g !! p = Some t → mines_hidden g →
  mines_hidden (set_tile_grid g (<[p := f t]> (_tile_grid g))).
Proof.
  intros Hf Ht Hg q t'. simpl. destruct (decide (p = q)) as [<-|Hne].
  - rewrite lookup_insert_eq. intros [= <-]. destruct (Hf t) as [-> ->]. by apply Hg.
  - rewrite lookup_insert_ne by done. apply Hg.
Qed.

Lemma step_mines_hidden `{R : PRNG} x y :
  step x y → mines_hidden x.1 → mines_hidden y.1.
Proof.
  intros Hstep. destruct Hstep as
    [g s row col g' l Ho|g s row col g' Hpf|g s row col g' Hrf|g s b _|g s fuel g' s' Hr];
    simpl; [|..|done|].
  - by apply (open_tile_mines_hidden g row col g' l).
  - unfold place_flag_at, get_tile, subscript in Hpf.
    destruct (_tile_grid g !! (row, col)) as [t|] eqn:Ht; simpl in Hpf; [|done].
    injection Hpf as <-. by apply flag_mines_hidden.
  - unfold remove_flag_at, get_tile, subscript in Hrf.
    destruct (_tile_grid g !! (row, col)) as [t|] eqn:Ht; simpl in Hrf; [|done].
    injection Hrf as <-. by apply flag_mines_hidden.
  - intros _. apply constructed_mines_hidden.
    by apply restart_grid_spec in Hr as [_ Hr].
Qed.

(** C7: from a freshly constructed grid, whatever calls of [open_tile],
    [place_flag], [remove_flag], [check_win] and [restart_grid] follow, no
    tile with a mine is revealed. *)
Theorem no_mine_is_ever_revealed `{R : PRNG}
    fuel h w m sd env g s g' s' p t :
  new_grid fuel h w m sd env = Ret (g, s) →
  rtc step (g, s) (g', s') →
  _tile_grid g' !! p = Some t → is_mine t = true → is_revealed t = false.
Proof.
  intros Hnew Hrun Ht Hm.
  assert (Hinv : mines_hidden (g', s').1).
  { eapply (rtc_ind_r (λ y, mines_hidden y.1)); [|intros y z _ ? ?|exact Hrun].
    - apply constructed_mines_hidden.
      by apply new_grid_spec in Hnew as (_ & _ & _ & _ & _ & Hnew).
    - by eapply step_mines_hidden. }
  by destruct (Hinv p t Ht Hm).
Qed.

Lemma corner_grid_click_4_4 :
  open_tile corner_grid 4 4 = Ret (opened (open_tile corner_grid 4 4)).
Proof. vm_compute. reflexivity. Qed.

Lemma corner_opened_tile_0_0 :
  _tile_grid (opened (open_tile corner_grid 4 4)).1 !! (0, 0)
  = Some (mkTile true false false).
Proof. vm_compute. reflexivity. Qed.

Lemma no_mine_is_ever_revealed_witness :
  is_revealed (mkTile true false false) = false.
Proof.
  apply (no_mine_is_ever_revealed (R := counter_prng) 30 5 5 1 (Some 0) demo_env corner_grid 2%nat
           (opened (open_tile corner_grid 4 4)).1 2%nat (0, 0)).
  - exact corner_grid_built.
  - eapply rtc_l; [|apply rtc_refl].
    apply (step_open (R := counter_prng) corner_grid 2%nat 4 4 _ (opened (open_tile corner_grid 4 4)).2).
    rewrite <- surjective_pairing. exact corner_grid_click_4_4.
  - exact corner_opened_tile_0_0.
  - reflexivity.
Defined.

(** ** The recorded seed *)

(** With an explicit seed the recorded seed is that seed, and a second
    construction from it builds the same grid. *)
Lemma explicit_seed_reproduces `{R : PRNG} fuel h w m n env env' g s :
  new_grid fuel h w m (Some n) env = Ret (g, s) →
  seed g = n ∧ new_grid fuel h w m (Some (seed g)) env' = Ret (g, s).
Proof.
  intros H. pose proof H as (_ & _ & _ & _ & Hs & _)%new_grid_spec.
  split; [done|]. by rewrite Hs.
Qed.

Lemma unseeded_corner_built :
  new_grid 30 5 5 1 None demo_env
  = Ret (grid_or_empty (new_grid 30 5 5 1 None demo_env), 2%nat).
Proof. vm_compute. reflexivity. Qed.

Lemma unseeded_corner_facts :
  seed (grid_or_empty (new_grid 30 5 5 1 None demo_env)) = 9 ∧
  mine_at (_tile_grid (grid_or_empty (new_grid 30 5 5 1 None demo_env))) (0, 0) = true ∧
  mine_at (_tile_grid (grid_or_empty (new_grid 30 5 5 1 (Some 9) demo_env))) (0, 0)
    = false.
Proof. vm_compute. repeat split; reflexivity. Qed.

Lemma reseeded_corner_built :
  new_grid 30 5 5 1 (Some 9) demo_env
  = Ret (grid_or_empty (new_grid 30 5 5 1 (Some 9) demo_env), 20%nat).
Proof. vm_compute. reflexivity. Qed.

(** C2 does not hold of the code when the seed is omitted: the generator is
    seeded with the [seed] argument, [None], while the grid records a fresh
    value that was never given to the generator. Here the first grid, built
    without a seed, records 9 and has its mine at (0,0); the grid built from
    seed 9 with the same dimensions and mine count has its mine elsewhere. *)
Theorem recorded_seed_does_not_reproduce :
  ∃ g1 s1 g2 s2,
    new_grid 30 5 5 1 None demo_env = Ret (g1, s1) ∧
    new_grid 30 5 5 1 (Some (seed g1)) demo_env = Ret (g2, s2) ∧
    mines_of (_tile_grid g1) ≠ mines_of (_tile_grid g2).
Proof.
  destruct unseeded_corner_facts as (Hseed & Hm1 & Hm2).
  exists (grid_or_empty (new_grid 30 5 5 1 None demo_env)), 2%nat,
         (grid_or_empty (new_grid 30 5 5 1 (Some 9) demo_env)), 20%nat.
  split; [exact unseeded_corner_built|]. split.
  - rewrite Hseed. exact reseeded_corner_built.
  - intros Heq. apply elem_of_mines_of in Hm1. rewrite Heq in Hm1.
    apply elem_of_mines_of in Hm1. rewrite Hm2 in Hm1. discriminate Hm1.
Qed.

(** * Further properties *)

(** ** The lists of the fill *)

(** ** More on the fill: what a call changes and what it returns *)

Section FillLists.
Variable mc : gmap (Z * Z) Z.

Lemma rotate_step_reveals_only curr st rel :
  reveals_only (fs_tiles st) (fs_tiles (rotate_step mc curr st rel)).
Proof.
  destruct (rotate_step_cases mc curr st rel)
    as [->|(t & Ht & _ & _ & [(_&_&_&_&->)|(_&_&->)])]; simpl;
    [apply reveals_only_refl|..];
    (apply reveals_only_insert; [apply reveals_only_refl|done]).
Qed.

Lemma reveals_only_trans tg1 tg2 tg3 :
  reveals_only tg1 tg2 → reveals_only tg2 tg3 → reveals_only tg1 tg3.
Proof.
  intros H12 H23 p.
  destruct (H12 p) as [E12|(t & E1 & E2)], (H23 p) as [E23|(t' & E2' & E3)].
  - left. congruence.
  - right. exists t'. split; congruence.
  - right. exists t. split; congruence.
  - right. exists t. split; [done|]. rewrite E3. rewrite E2 in E2'.
    injection E2' as <-. done.
Qed.

Lemma reveals_only_flagged tg tg' p :
  reveals_only tg tg' → flagged_at tg' p = flagged_at tg p.
Proof. intros H. unfold flagged_at. by destruct (H p) as [->|(t & -> & ->)]. Qed.

Lemma reveals_only_dom tg tg' p :
  reveals_only tg tg' → is_Some (tg' !! p) ↔ is_Some (tg !! p).
Proof. intros H. destruct (H p) as [->|(t & -> & ->)]; [done|]. split; eauto. Qed.

Lemma reveals_only_unrevealed tg tg' p :
  reveals_only tg tg' → revealed_at tg' p = false → revealed_at tg p = false.
Proof.
  intros H Hp. apply not_true_is_false. intros Hx.
  apply (reveals_only_revealed _ _ _ H) in Hx. congruence.
Qed.

Lemma reveals_only_eligible tg tg' q :
  reveals_only tg tg' → eligible tg' mc q ↔ eligible tg mc q.
Proof.
  intros H. unfold eligible. destruct (H q) as [->|(t & -> & ->)]; [done|].
  split.
  - intros (t' & c & Heq & Hc & Hf & Hm). injection Heq as <-. by exists t, c.
  - intros (t' & c & Heq & Hc & Hf & Hm). injection Heq as <-.
    by exists (mark_as_revealed t), c.
Qed.

Lemma listed_inv_step st curr rel :
  listed_inv mc st → listed_inv mc (rotate_step mc curr st rel).
Proof.
  intros (Hn1 & Hn2 & Hdis & Hrev & Hpos).
  destruct (rotate_step_cases mc curr st rel)
    as [->|(t & Ht & Hr & _ & [(_&Hc&_&Hin&->)|(Hc&Hin&->)])]; [done|..];
    unfold listed_inv; simpl;
    (assert (Hfresh : ∀ p, p ∈ to_check st ∨ p ∈ to_not_check st →
                           p ≠ shift curr rel);
     [intros p Hp ->; apply Hrev in Hp; unfold revealed_at in Hp;
      rewrite Ht in Hp; congruence|]).
  - split_and!.
    + apply NoDup_app. split_and!; [done| |apply NoDup_singleton].
      intros x Hx ->%list_elem_of_singleton. by apply (Hfresh (shift curr rel)); [left|].
    + done.
    + intros p [Hp| ->%list_elem_of_singleton]%elem_of_app; [by apply Hdis|].
      intros Hx. by apply (Hfresh (shift curr rel)); [right|].
    + intros p Hp. rewrite revealed_at_insert. case_decide; [done|].
      apply Hrev. destruct Hp as [[?|Hx%list_elem_of_singleton]%elem_of_app|?];
        [by left|congruence|by right].
    + done.
  - split_and!.
    + done.
    + apply NoDup_app. split_and!; [done| |apply NoDup_singleton].
      intros x Hx ->%list_elem_of_singleton. by apply (Hfresh (shift curr rel)); [right|].
    + intros p Hp [Hx| ->%list_elem_of_singleton]%elem_of_app; [by apply (Hdis p)|].
      by apply (Hfresh (shift curr rel)); [left|].
    + intros p Hp. rewrite revealed_at_insert. case_decide; [done|].
      apply Hrev. destruct Hp as [?|[?|Hx%list_elem_of_singleton]%elem_of_app];
        [by left|by right|congruence].
    + intros p [Hp| ->%list_elem_of_singleton]%elem_of_app; [by apply Hpos|done].
Qed.

Lemma listed_inv_final fuel i st st' :
  listed_inv mc st → open_loop fuel mc i st = Ret st' → listed_inv mc st'.
Proof.
  apply (open_loop_inv mc (listed_inv mc)). intros. by apply listed_inv_step.
Qed.

(** [to_check] only grows at its end. *)
Lemma rotate_step_prefix curr st rel :
  to_check st `prefix_of` to_check (rotate_step mc curr st rel).
Proof.
  destruct (rotate_step_cases mc curr st rel)
    as [->|(t & _ & _ & _ & [(_&_&_&_&->)|(_&_&->)])]; simpl; [done| |done].
  by apply prefix_app_r.
Qed.

(** One step reveals the tile it looks at when that tile is one the fill
    reveals. *)
Lemma rotate_step_reveals curr st rel :
  listed_inv mc st → eligible (fs_tiles st) mc (shift curr rel) →
  revealed_at (fs_tiles (rotate_step mc curr st rel)) (shift curr rel) = true.
Proof.
  intros (_ & _ & _ & Hrev & _) (t & c & Ht & Hc & Hf & Hm).
  destruct (is_revealed t) eqn:Hr.
  { apply (reveals_only_revealed (fs_tiles st)); [apply rotate_step_reveals_only|].
    unfold revealed_at. by rewrite Ht. }
  assert (Hnot : ∀ p, p ∈ to_check st ∨ p ∈ to_not_check st → p ≠ shift curr rel).
  { intros p Hp ->. apply Hrev in Hp. unfold revealed_at in Hp. rewrite Ht in Hp.
    congruence. }
  unfold rotate_step, rotate_try, is_tile_empty, _is_tile_a_indicator, subscript.
  rewrite Ht, Hc. simpl. rewrite Hr, Hf. simpl.
  destruct (is_mine t) eqn:Hmine; simpl.
  - destruct Hm as [?|Hpos]; [done|]. rewrite (proj2 (Z.ltb_lt 0 c) Hpos). simpl.
    rewrite bool_decide_eq_false_2 by (intros Hx; by apply (Hnot _ (or_intror Hx))).
    simpl. by rewrite revealed_at_insert, decide_True.
  - destruct (0 <? c) eqn:Hpos; simpl.
    + rewrite bool_decide_eq_false_2 by (intros Hx; by apply (Hnot _ (or_intror Hx))).
      simpl. by rewrite revealed_at_insert, decide_True.
    + rewrite bool_decide_eq_false_2 by (intros Hx; by apply (Hnot _ (or_introl Hx))).
      simpl. by rewrite revealed_at_insert, decide_True.
Qed.

Lemma expanded_mono st st' e :
  reveals_only (fs_tiles st) (fs_tiles st') → expanded mc st e → expanded mc st' e.
Proof.
  intros Hro He rel Hrel Hel. apply (reveals_only_revealed _ _ _ Hro), He; [done|].
  by apply (reveals_only_eligible _ _ _ Hro).
Qed.

(** After [rotate_algorithm] the tile it was called on is expanded. *)
Lemma rotate_fold_expands curr rels st :
  listed_inv mc st →
  let st' := foldl (rotate_step mc curr) st rels in
  listed_inv mc st' ∧ reveals_only (fs_tiles st) (fs_tiles st') ∧
  to_check st `prefix_of` to_check st' ∧
  ∀ rel, rel ∈ rels → eligible (fs_tiles st) mc (shift curr rel) →
         revealed_at (fs_tiles st') (shift curr rel) = true.
Proof.
  revert st. induction rels as [|rel rels IH]; intros st Hl; simpl.
  - split_and!; [done|apply reveals_only_refl|done|]. by intros rel ?%elem_of_nil.
  - pose proof (listed_inv_step st curr rel Hl) as Hl1.
    pose proof (rotate_step_reveals_only curr st rel) as Hro1.
    destruct (IH _ Hl1) as (Hl2 & Hro2 & Hpre & Hrev).
    split_and!; [done|by eapply reveals_only_trans| |].
    + etrans; [apply rotate_step_prefix|done].
    + intros rel' [->|Hin]%elem_of_cons Hel.
      * apply (reveals_only_revealed _ _ _ Hro2). by apply rotate_step_reveals.
      * apply Hrev; [done|]. by apply (reveals_only_eligible _ _ _ Hro1).
Qed.

(** When the loop ends every member of [to_check] is expanded. *)
Lemma open_loop_expands fuel i st st' :
  listed_inv mc st →
  (∀ j e, (j < i)%nat → to_check st !! j = Some e → expanded mc st e) →
  open_loop fuel mc i st = Ret st' →
  ∀ e, e ∈ to_check st' → expanded mc st' e.
Proof.
  revert i st. induction fuel as [|fuel IH]; intros i st Hl Hdone; simpl.
  - destruct (to_check st !! i) eqn:Hi; [done|]. intros [= <-] e He.
    apply list_elem_of_lookup in He as [j Hj]. apply (Hdone j); [|done].
    apply lookup_lt_Some in Hj. apply lookup_ge_None in Hi. lia.
  - destruct (to_check st !! i) as [loc|] eqn:Hi.
    + destruct (rotate_fold_expands loc ROTATIONS st Hl) as (Hl' & Hro & Hpre & Hrev).
      unfold rotate_algorithm. apply IH; [done|]. intros j e Hj He.
      destruct (decide (j = i)) as [->|Hne].
      * assert (e = loc) as ->.
        { pose proof (prefix_lookup_Some _ _ _ _ Hi Hpre) as Hx. congruence. }
        intros rel Hrel Hel. apply Hrev; [done|].
        by apply (reveals_only_eligible _ _ _ Hro).
      * assert (Hlt : (j < length (to_check st))%nat).
        { apply lookup_lt_Some in Hi. lia. }
        destruct (lookup_lt_is_Some_2 _ _ Hlt) as [e' He'].
        pose proof (prefix_lookup_Some _ _ _ _ He' Hpre) as Hx.
        assert (e' = e) as -> by congruence.
        apply (expanded_mono st); [done|]. apply (Hdone j); [lia|done].
    + intros [= <-] e He.
      apply list_elem_of_lookup in He as [j Hj]. apply (Hdone j); [|done].
      apply lookup_lt_Some in Hj. apply lookup_ge_None in Hi. lia.
Qed.

(** Every listed position was unrevealed in the dict [tg0] the call began
    with. *)
Lemma open_loop_fresh tg0 fuel i st st' :
  (reveals_only tg0 (fs_tiles st) ∧
   ∀ p, p ∈ to_check st ∨ p ∈ to_not_check st → revealed_at tg0 p = false) →
  open_loop fuel mc i st = Ret st' →
  reveals_only tg0 (fs_tiles st') ∧
  ∀ p, p ∈ to_check st' ∨ p ∈ to_not_check st' → revealed_at tg0 p = false.
Proof.
  apply (open_loop_inv mc (λ st, reveals_only tg0 (fs_tiles st) ∧
    ∀ p, p ∈ to_check st ∨ p ∈ to_not_check st → revealed_at tg0 p = false)).
  clear. intros st curr rel [Hro Hfr] _ _. split.
  { eapply reveals_only_trans; [exact Hro|apply rotate_step_reveals_only]. }
  destruct (rotate_step_cases mc curr st rel)
    as [->|(t & Ht & Hr & _ & [(_&_&_&_&->)|(_&_&->)])]; [done|..]; simpl;
    intros p; rewrite elem_of_app, list_elem_of_singleton;
    (intros Hp;
     assert (Hp' : (p ∈ to_check st ∨ p ∈ to_not_check st) ∨ p = shift curr rel)
       by tauto; clear Hp;
     destruct Hp' as [Hp| ->]; [by apply Hfr|];
     apply (reveals_only_unrevealed _ _ _ Hro); unfold revealed_at; by rewrite Ht).
Qed.

End FillLists.

(** What the loop of a call that gets past the short-circuit ends with. *)
Lemma open_tile_loop g row col t g' l :
  _tile_grid g !! (row, col) = Some t → is_mine t = false → is_revealed t = false →
  open_tile g row col = Ret (g', l) →
  ∃ st, g' = set_tile_grid g (fs_tiles st) ∧ l = to_check st ++ to_not_check st ∧
        wall_inv g (row, col) st ∧ listed_inv (_mine_count_grid g) st ∧
        (∃ rest, to_check st = (row, col) :: rest) ∧
        (∀ e, e ∈ to_check st → expanded (_mine_count_grid g) st e) ∧
        (∀ p, p ∈ to_check st ∨ p ∈ to_not_check st →
              revealed_at (_tile_grid g) p = false).
Proof.
  intros Ht Hm Hr H.
  destruct (open_tile_unfold _ _ _ _ _ H)
    as [(_ & _ & t' & Ht' & Hs)|(t' & st & Ht' & _ & _ & Hl & -> & ->)].
  { rewrite Ht in Ht'. injection Ht' as <-. rewrite Hm, Hr in Hs. done. }
  rewrite Ht in Ht'. injection Ht' as <-.
  assert (Hinit : listed_inv (_mine_count_grid g)
            (mkFill (<[(row, col) := mark_as_revealed t]> (_tile_grid g))
                    [(row, col)] [])).
  { unfold listed_inv. simpl. split_and!.
    - apply NoDup_singleton.
    - apply NoDup_nil_2.
    - intros p _ ?%elem_of_nil. done.
    - intros p [->%list_elem_of_singleton|?%elem_of_nil]; [|done].
      by rewrite revealed_at_insert, decide_True.
    - intros p ?%elem_of_nil. done. }
  exists st. split_and!; [done..| | | | |].
  - by apply (wall_inv_final g (row, col) t Ht _ _ Hl).
  - by apply (listed_inv_final _ _ _ _ _ Hinit Hl).
  - assert (Hpre : [(row, col)] `prefix_of` to_check st).
    { eapply (open_loop_inv (_mine_count_grid g)
                (λ st, [(row, col)] `prefix_of` to_check st)); [| |exact Hl]; [|done].
      intros st0 curr rel Hp _ _. etrans; [exact Hp|apply rotate_step_prefix]. }
    destruct Hpre as [rest ->]. by exists rest.
  - eapply (open_loop_expands _ _ 0%nat); [exact Hinit| |exact Hl]. intros j e Hj. lia.
  - eapply (open_loop_fresh _ (_tile_grid g)); [|exact Hl]. simpl. split.
    + apply reveals_only_insert; [apply reveals_only_refl|done].
    + intros p [->%list_elem_of_singleton|?%elem_of_nil]; [|done].
      unfold revealed_at. by rewrite Ht.
Qed.

(** X1: [open_tile] raises [KeyError] exactly when the dict has no tile at
    the coordinate; on every stored coordinate it returns: its loop over the
    growing list always ends. *)
Theorem open_tile_returns_or_key_error g row col :
  (open_tile g row col = Raise KeyError ↔ _tile_grid g !! (row, col) = None) ∧
  (is_Some (_tile_grid g !! (row, col)) → ∃ g' l, open_tile g row col = Ret (g', l)).
Proof.
  destruct (open_tile_total g row col) as [[Hraise Hnone]|(g' & l & Hret)].
  - split; [done|]. rewrite Hnone. by intros [? ?].
  - split; [|eauto]. rewrite Hret. split; [done|]. intros Hnone.
    unfold open_tile, subscript in Hret. by rewrite Hnone in Hret.
Qed.

Lemma open_tile_returns_or_key_error_witness :
  open_tile corner_grid 9 9 = Raise KeyError.
Proof.
  apply (proj1 (open_tile_returns_or_key_error corner_grid 9 9)).
  vm_compute. reflexivity.
Defined.

(** X2: a call of [open_tile] only reveals tiles: dimensions, mine count,
    seed and the count dict stay as they are, and so do the keys of the tile
    dict and the mine and the flag of every tile; a revealed tile stays
    revealed. *)
Theorem open_tile_only_reveals g row col g' l :
  open_tile g row col = Ret (g', l) →
  same_header g g' ∧ _mine_count_grid g' = _mine_count_grid g ∧
  ∀ p, mine_at (_tile_grid g') p = mine_at (_tile_grid g) p ∧
       flagged_at (_tile_grid g') p = flagged_at (_tile_grid g) p ∧
       (is_Some (_tile_grid g' !! p) ↔ is_Some (_tile_grid g !! p)) ∧
       (revealed_at (_tile_grid g) p = true → revealed_at (_tile_grid g') p = true).
Proof.
  intros H.
  assert (Hro : same_header g g' ∧ _mine_count_grid g' = _mine_count_grid g ∧
                reveals_only (_tile_grid g) (_tile_grid g')).
  { destruct (open_tile_unfold _ _ _ _ _ H)
      as [(-> & _)|(t & st & Ht & _ & _ & Hl & -> & _)].
    - split_and!; [done..|apply reveals_only_refl].
    - split_and!; [done..|]. simpl.
      by destruct (wall_inv_final g (row, col) t Ht _ _ Hl) as (? & _). }
  destruct Hro as (Hh & Hmc & Hro). split_and!; [done..|]. intros p. split_and!.
  - by apply reveals_only_mine.
  - by apply reveals_only_flagged.
  - by apply reveals_only_dom.
  - by apply reveals_only_revealed.
Qed.

Lemma open_tile_only_reveals_witness :
  same_header corner_grid (opened (open_tile corner_grid 4 4)).1 ∧
  _mine_count_grid (opened (open_tile corner_grid 4 4)).1
    = _mine_count_grid corner_grid ∧
  ∀ p, mine_at (_tile_grid (opened (open_tile corner_grid 4 4)).1) p
         = mine_at (_tile_grid corner_grid) p ∧
       flagged_at (_tile_grid (opened (open_tile corner_grid 4 4)).1) p
         = flagged_at (_tile_grid corner_grid) p ∧
       (is_Some (_tile_grid (opened (open_tile corner_grid 4 4)).1 !! p)
          ↔ is_Some (_tile_grid corner_grid !! p)) ∧
       (revealed_at (_tile_grid corner_grid) p = true →
        revealed_at (_tile_grid (opened (open_tile corner_grid 4 4)).1) p = true).
Proof.
  apply (open_tile_only_reveals corner_grid 4 4 _
           (opened (open_tile corner_grid 4 4)).2).
  rewrite <- surjective_pairing. exact corner_grid_click_4_4.
Defined.

(** X3: when the clicked tile has no mine and is not revealed, the list
    [open_tile] returns starts with the clicked tile, repeats no position,
    and holds exactly the tiles the call revealed. *)
Theorem open_tile_returns_the_revealed g row col t g' l :
  _tile_grid g !! (row, col) = Some t → is_mine t = false → is_revealed t = false →
  open_tile g row col = Ret (g', l) →
  head l = Some (row, col) ∧ NoDup l ∧ ∀ p, p ∈ l ↔ newly_revealed g g' p.
Proof.
  intros Ht Hm Hr H.
  destruct (open_tile_loop _ _ _ _ _ _ Ht Hm Hr H)
    as (st & -> & -> & (Hro & Hrev & Hchk & _) & (Hn1 & Hn2 & Hdis & Hlrev & _)
        & [rest Hhead] & _ & Hfresh).
  split_and!.
  - by rewrite Hhead.
  - apply NoDup_app. by split_and!.
  - intros p. unfold newly_revealed. simpl. rewrite elem_of_app. split.
    + intros Hp. split; [by apply Hfresh|by apply Hlrev].
    + intros [Hbefore Hafter]. destruct (Hrev p Hafter) as [?|?]; [congruence|done].
Qed.

Lemma corner_grid_opened_4_4 :
  open_tile corner_grid 4 4
  = Ret ((opened (open_tile corner_grid 4 4)).1, (opened (open_tile corner_grid 4 4)).2).
Proof. rewrite <- surjective_pairing. exact corner_grid_click_4_4. Qed.

Lemma open_tile_returns_the_revealed_witness :
  head (opened (open_tile corner_grid 4 4)).2 = Some (4, 4) ∧
  NoDup (opened (open_tile corner_grid 4 4)).2 ∧
  ∀ p, p ∈ (opened (open_tile corner_grid 4 4)).2
       ↔ newly_revealed corner_grid (opened (open_tile corner_grid 4 4)).1 p.
Proof.
  exact (open_tile_returns_the_revealed corner_grid 4 4 new_tile _ _
           corner_grid_tile_4_4 eq_refl eq_refl corner_grid_opened_4_4).
Defined.

(** X4: the fill is complete. After a call that gets past the
    short-circuit, every neighbour of the clicked tile, and of every empty
    tile the call revealed, is revealed if it could be: it has a tile and a
    count, no flag, and no mine or a positive count. *)
Theorem open_tile_fill_complete g row col t g' l e q :
  _tile_grid g !! (row, col) = Some t → is_mine t = false → is_revealed t = false →
  open_tile g row col = Ret (g', l) →
  e = (row, col) ∨ (empty_at g e ∧ newly_revealed g g' e) →
  neighbor e q → eligible (_tile_grid g) (_mine_count_grid g) q →
  revealed_at (_tile_grid g') q = true.
Proof.
  intros Ht Hm Hr H He (rel & Hrel & ->) Hq.
  destruct (open_tile_loop _ _ _ _ _ _ Ht Hm Hr H)
    as (st & -> & -> & (Hro & Hrev & _) & (_ & _ & _ & _ & Hpos)
        & [rest Hhead] & Hexp & _).
  simpl in *.
  assert (Hin : e ∈ to_check st).
  { destruct He as [->|[Hempty [Hb Ha]]].
    - rewrite Hhead. apply list_elem_of_here.
    - destruct (Hrev e Ha) as [?|[?|Hn]]; [congruence|done|].
      apply Hpos in Hn. apply empty_at_iff in Hempty as (t' & c & _ & _ & Hc & Hle).
      unfold count_at in Hn. rewrite Hc in Hn. simpl in Hn. lia. }
  apply (Hexp e Hin rel Hrel). by apply (reveals_only_eligible _ (_tile_grid g)).
Qed.

Lemma corner_grid_eligible_3_3 :
  eligible (_tile_grid corner_grid) (_mine_count_grid corner_grid) (3, 3).
Proof.
  exists new_tile, 0. split_and!; [vm_compute; reflexivity..|left; reflexivity].
Qed.

Lemma rotation_up_left : (-1, -1) ∈ ROTATIONS.
Proof. unfold ROTATIONS. repeat first [apply list_elem_of_here|apply list_elem_of_further]. Qed.

Lemma open_tile_fill_complete_witness :
  revealed_at (_tile_grid (opened (open_tile corner_grid 4 4)).1) (3, 3) = true.
Proof.
  apply (open_tile_fill_complete corner_grid 4 4 new_tile _
           (opened (open_tile corner_grid 4 4)).2 (4, 4) (3, 3)
           corner_grid_tile_4_4 eq_refl eq_refl corner_grid_opened_4_4
           (or_introl eq_refl)).
  - exists (-1, -1). split; [exact rotation_up_left|reflexivity].
  - exact corner_grid_eligible_3_3.
Defined.

(** X5: where no mine is revealed and no mine carries a positive count, a
    click on a tile without a mine returns a list without mines. *)
Theorem open_tile_lists_no_mine g row col g' l p :
  mines_hidden g → mine_at (_tile_grid g) (row, col) = false →
  open_tile g row col = Ret (g', l) → p ∈ l →
  mine_at (_tile_grid g) p = false.
Proof.
  intros Hg Hc H Hp.
  pose proof (open_tile_mines_hidden _ _ _ _ _ H Hg) as Hg'.
  destruct (open_tile_unfold _ _ _ _ _ H)
    as [(-> & -> & _)|(t & st & Ht & Hm & Hr & _)].
  { by apply list_elem_of_singleton in Hp as ->. }
  destruct (open_tile_loop _ _ _ _ _ _ Ht Hm Hr H)
    as (st' & -> & -> & (Hro & _) & (_ & _ & _ & Hlrev & _) & _).
  simpl in Hg'. apply elem_of_app in Hp. apply Hlrev in Hp.
  rewrite <- (reveals_only_mine _ _ p Hro).
  unfold mine_at, revealed_at in *.
  destruct (fs_tiles st' !! p) as [t'|] eqn:Ht'; [|done].
  destruct (is_mine t') eqn:Hm'; [|done].
  destruct (Hg' p t' Ht' Hm') as [Hx _]. simpl in Hx. congruence.
Qed.

Lemma corner_grid_mines_hidden : mines_hidden corner_grid.
Proof.
  eapply constructed_mines_hidden, new_grid_spec. exact corner_grid_built.
Qed.

Lemma corner_grid_fill_4_4 : (3, 3) ∈ (opened (open_tile corner_grid 4 4)).2.
Proof. vm_compute. repeat first [apply list_elem_of_here|apply list_elem_of_further]. Qed.

Lemma open_tile_lists_no_mine_witness :
  mine_at (_tile_grid corner_grid) (3, 3) = false.
Proof.
  exact (open_tile_lists_no_mine corner_grid 4 4 _ _ (3, 3)
           corner_grid_mines_hidden eq_refl corner_grid_opened_4_4
           corner_grid_fill_4_4).
Defined.

(** ** Counts *)

Lemma find_surrounding_mine_count_filter tg row col :
  _find_surrounding_mine_count tg row col =
  Z.of_nat (length (filter (λ rel, mine_at tg (shift (row, col) rel) = true) ROTATIONS)).
Proof.
  unfold _find_surrounding_mine_count.
  assert (Hgen : ∀ l a,
    foldl (λ count relative_location,
      match tg !! shift (row, col) relative_location with
      | Some t => if is_mine t then count + 1 else count
      | None => count
      end) a l
    = a + Z.of_nat (length (filter (λ rel, mine_at tg (shift (row, col) rel) = true) l))).
  { induction l as [|rel l IH]; intros a; [simpl; lia|].
    cbn [foldl]. rewrite IH, filter_cons.
    destruct (decide (mine_at tg (shift (row, col) rel) = true)) as [Hm|Hm];
      unfold mine_at in Hm;
      (destruct (tg !! shift (row, col) rel) as [t|]; [destruct (is_mine t)|]);
      simpl length; try done; lia. }
  rewrite Hgen. lia.
Qed.

Lemma find_surrounding_mine_count_ext tg tg' row col :
  (∀ p, mine_at tg' p = mine_at tg p) →
  _find_surrounding_mine_count tg' row col = _find_surrounding_mine_count tg row col.
Proof.
  intros H. rewrite !find_surrounding_mine_count_filter. do 2 f_equal.
  apply list_filter_iff. intros rel. by rewrite H.
Qed.

Lemma find_surrounding_mine_count_zero tg row col :
  _find_surrounding_mine_count tg row col = 0 ↔
  ∀ q, neighbor (row, col) q → mine_at tg q = false.
Proof.
  rewrite find_surrounding_mine_count_filter. split.
  - intros H q (rel & Hrel & ->). apply not_true_is_false. intros Hm.
    assert (Hin : rel ∈ filter (λ rel, mine_at tg (shift (row, col) rel) = true)
                          ROTATIONS) by (by apply list_elem_of_filter).
    destruct (filter _ ROTATIONS) as [|x l]; [by apply elem_of_nil in Hin|].
    simpl in H. lia.
  - intros H.
    destruct (filter (λ rel, mine_at tg (shift (row, col) rel) = true) ROTATIONS)
      as [|x l] eqn:Hf; [done|].
    assert (Hin : x ∈ filter (λ rel, mine_at tg (shift (row, col) rel) = true)
                        ROTATIONS) by (rewrite Hf; apply list_elem_of_here).
    apply list_elem_of_filter in Hin as [Hm Hin].
    rewrite H in Hm; [done|]. by exists x.
Qed.

Lemma find_surrounding_mine_count_pos tg row col :
  0 < _find_surrounding_mine_count tg row col ↔
  ∃ q, neighbor (row, col) q ∧ mine_at tg q = true.
Proof.
  rewrite find_surrounding_mine_count_filter. split.
  - destruct (filter (λ rel, mine_at tg (shift (row, col) rel) = true) ROTATIONS)
      as [|x l] eqn:Hf; [simpl; lia|]. intros _.
    assert (Hin : x ∈ filter (λ rel, mine_at tg (shift (row, col) rel) = true)
                        ROTATIONS) by (rewrite Hf; apply list_elem_of_here).
    apply list_elem_of_filter in Hin as [Hm Hin].
    exists (shift (row, col) x). split; [by exists x|done].
  - intros (q & (rel & Hrel & ->) & Hm).
    assert (Hin : rel ∈ filter (λ rel, mine_at tg (shift (row, col) rel) = true)
                          ROTATIONS) by (by apply list_elem_of_filter).
    destruct (filter _ ROTATIONS) as [|x l]; [by apply elem_of_nil in Hin|].
    simpl length. lia.
Qed.

Lemma find_surrounding_mine_count_bounds tg row col :
  0 ≤ _find_surrounding_mine_count tg row col ≤ 8.
Proof.
  rewrite find_surrounding_mine_count_filter.
  pose proof (length_filter (λ rel, mine_at tg (shift (row, col) rel) = true) ROTATIONS)
    as H.
  change (length ROTATIONS) with 8%nat in H. lia.
Qed.

(** X6: the count [_find_surrounding_mine_count] returns lies between 0 and
    8, and it is 0 exactly when none of the 8 neighbours holds a mine;
    coordinates without a tile count as no mine. *)
Theorem find_surrounding_mine_count_range tg row col :
  0 ≤ _find_surrounding_mine_count tg row col ≤ 8 ∧
  (_find_surrounding_mine_count tg row col = 0 ↔
   ∀ q, neighbor (row, col) q → mine_at tg q = false).
Proof.
  split; [apply find_surrounding_mine_count_bounds|].
  apply find_surrounding_mine_count_zero.
Qed.

(** ** What a session keeps *)

Lemma constructed_well_formed g : constructed g → well_formed g.
Proof. by intros (? & _ & ? & ?). Qed.

Lemma well_formed_same_mines g g' :
  same_header g g' → _mine_count_grid g' = _mine_count_grid g →
  (∀ p, is_Some (_tile_grid g' !! p) ↔ is_Some (_tile_grid g !! p)) →
  (∀ p, mine_at (_tile_grid g') p = mine_at (_tile_grid g) p) →
  well_formed g → well_formed g'.
Proof.
  intros (Hh & Hw & Hm & _) Hmc Hdom Hmine (Hc & Hsz & Hcount). split_and!.
  - intros p. rewrite Hh, Hw, Hmc, Hdom. apply Hc.
  - rewrite Hm, <- Hsz. f_equal. apply set_eq. intros p.
    by rewrite !elem_of_mines_of, Hmine.
  - intros p t' Ht'.
    destruct (proj1 (Hdom p) (mk_is_Some _ _ Ht')) as [t Ht].
    rewrite Hmc, (Hcount p t Ht).
    rewrite (find_surrounding_mine_count_ext _ _ _ _ Hmine).
    pose proof (Hmine p) as Hp. unfold mine_at in Hp. rewrite Ht, Ht' in Hp.
    by rewrite Hp.
Qed.

Lemma flag_at_frame g row col g' (f : Tile → Tile) :
  (∀ t, is_mine (f t) = is_mine t ∧ is_revealed (f t) = is_revealed t) →
  (t ← get_tile g row col;
   Ret (set_tile_grid g (<[(row, col) := f t]> (_tile_grid g)))) = Ret g' →
  same_header g g' ∧ _mine_count_grid g' = _mine_count_grid g ∧
  (∀ p, is_Some (_tile_grid g' !! p) ↔ is_Some (_tile_grid g !! p)) ∧
  (∀ p, mine_at (_tile_grid g') p = mine_at (_tile_grid g) p) ∧
  (∀ p, revealed_at (_tile_grid g') p = revealed_at (_tile_grid g) p).
Proof.
  intros Hf H. unfold get_tile, subscript in H.
  destruct (_tile_grid g !! (row, col)) as [t|] eqn:Ht; simpl in H; [|done].
  injection H as <-. simpl. split_and!; [done..| | |]; intros p;
    unfold mine_at, revealed_at;
    (destruct (decide ((row, col) = p)) as [<-|Hne];
     [rewrite lookup_insert_eq, Ht|by rewrite lookup_insert_ne]).
  - split; eauto.
  - apply Hf.
  - apply Hf.
Qed.

Lemma open_tile_frame g row col g' l :
  open_tile g row col = Ret (g', l) →
  same_header g g' ∧ _mine_count_grid g' = _mine_count_grid g ∧
  reveals_only (_tile_grid g) (_tile_grid g').
Proof.
  intros H.
  destruct (open_tile_unfold _ _ _ _ _ H)
    as [(-> & _)|(t & st & Ht & _ & _ & Hl & -> & _)].
  - split_and!; [done..|apply reveals_only_refl].
  - split_and!; [done..|]. simpl.
    by destruct (wall_inv_final g (row, col) t Ht _ _ Hl) as (? & _).
Qed.

Lemma step_well_formed `{R : PRNG} x y :
  step x y → well_formed x.1 → same_header x.1 y.1 ∧ well_formed y.1.
Proof.
  intros Hstep. destruct Hstep as
    [g s row col g' l Ho|g s row col g' Hpf|g s row col g' Hrf|g s b _|g s fuel g' s' Hr];
    simpl; intros Hwf.
  - apply open_tile_frame in Ho as (Hh & Hmc & Hro). split; [done|].
    apply (well_formed_same_mines g); [done..| | |done]; intros p.
    + by apply reveals_only_dom.
    + by apply reveals_only_mine.
  - apply (flag_at_frame _ _ _ _ place_flag) in Hpf as (Hh & Hmc & Hd & Hm & _);
      [|done]. split; [done|]. by apply (well_formed_same_mines g).
  - apply (flag_at_frame _ _ _ _ remove_flag) in Hrf as (Hh & Hmc & Hd & Hm & _);
      [|done]. split; [done|]. by apply (well_formed_same_mines g).
  - done.
  - apply restart_grid_spec in Hr as [Hh Hc]. split; [done|].
    by apply constructed_well_formed.
Qed.

Lemma reachable_well_formed `{R : PRNG} fuel h w m sd env g s g' s' :
  new_grid fuel h w m sd env = Ret (g, s) → rtc step (g, s) (g', s') →
  same_header g g' ∧ well_formed g'.
Proof.
  intros Hnew Hrun.
  apply new_grid_spec in Hnew as (_ & _ & _ & _ & _ & Hcon).
  change g' with (g', s').1.
  eapply (rtc_ind_r (λ y, same_header g y.1 ∧ well_formed y.1));
    [|intros y z _ Hyz [Hh Hwf]|exact Hrun].
  - simpl. split; [apply same_header_refl|by apply constructed_well_formed].
  - destruct (step_well_formed _ _ Hyz Hwf) as [Hh' Hwf'].
    split; [by eapply same_header_trans|done].
Qed.

(** X7: a session never changes the shape of the grid. In every state
    reached from a constructed grid by reveals, flags, win checks and
    restarts, the dimensions, the mine count and the seed are those of
    construction, both dicts have exactly the coordinates of the grid as
    keys, and the tile dict holds as many mines as the mine count. *)
Theorem session_keeps_the_grid_shape `{R : PRNG}
    fuel h w m sd env g s g' s' :
  new_grid fuel h w m sd env = Ret (g, s) → rtc step (g, s) (g', s') →
  (_grid_height g' = h ∧ _grid_width g' = w ∧ _mine_count g' = m ∧ seed g' = seed g) ∧
  (∀ p, is_Some (_tile_grid g' !! p) ↔ in_range h w p) ∧
  (∀ p, is_Some (_mine_count_grid g' !! p) ↔ in_range h w p) ∧
  Z.of_nat (size (mines_of (_tile_grid g'))) = m.
Proof.
  intros Hnew Hrun.
  destruct (reachable_well_formed _ _ _ _ _ _ _ _ _ _ Hnew Hrun)
    as [(Hh & Hw & Hm & Hs) (Hc & Hsz & _)].
  apply new_grid_spec in Hnew as ((_ & _ & Hm1 & _) & <- & <- & <- & _ & _).
  split_and!; try done.
  - intros p. rewrite <- Hh, <- Hw. apply Hc.
  - intros p. rewrite <- Hh, <- Hw. apply Hc.
  - rewrite Hsz, Hm. lia.
Qed.

(** X8: at any time in a session the stored counts tell empty tiles from
    indicators as the board does: a tile is empty exactly when neither it
    nor any neighbour holds a mine, and it is an indicator exactly when it
    holds no mine and some neighbour does; a stored count is between 0 and
    8. *)
Theorem session_counts_match_the_mines `{R : PRNG}
    fuel h w m sd env g s g' s' p t :
  new_grid fuel h w m sd env = Ret (g, s) → rtc step (g, s) (g', s') →
  _tile_grid g' !! p = Some t →
  (empty_at g' p ↔
     is_mine t = false ∧ ∀ q, neighbor p q → mine_at (_tile_grid g') q = false) ∧
  (indicator_at g' p ↔
     is_mine t = false ∧ ∃ q, neighbor p q ∧ mine_at (_tile_grid g') q = true) ∧
  0 ≤ count_at (_mine_count_grid g') p ≤ 8.
Proof.
  intros Hnew Hrun Ht.
  destruct (reachable_well_formed _ _ _ _ _ _ _ _ _ _ Hnew Hrun)
    as [_ (_ & _ & Hcount)].
  pose proof (Hcount p t Ht) as Hc.
  pose proof (find_surrounding_mine_count_zero (_tile_grid g') p.1 p.2) as Hz.
  rewrite <- surjective_pairing in Hz.
  pose proof (find_surrounding_mine_count_bounds (_tile_grid g') p.1 p.2) as Hr.
  pose proof (find_surrounding_mine_count_pos (_tile_grid g') p.1 p.2) as Hpos.
  rewrite <- surjective_pairing in Hpos.
  split; [|split].
  - rewrite empty_at_iff. split.
    + intros (t' & c & Ht' & Hm & Hc' & Hle). rewrite Ht in Ht'. injection Ht' as <-.
      split; [done|]. apply Hz. rewrite Hm in Hc. rewrite Hc in Hc'.
      injection Hc' as <-. lia.
    + intros [Hm Hall]. exists t, 0. rewrite Hc, Hm. split_and!; try done.
      f_equal. by apply Hz.
  - unfold indicator_at, mine_at at 1, count_at. rewrite elem_of_dom, Ht, Hc. simpl.
    rewrite <- Hpos. destruct (is_mine t); simpl; split.
    + intros (_ & ? & _). done.
    + intros [? _]. done.
    + intros (_ & _ & ?). by split.
    + intros [_ ?]. split_and!; [eauto|done..].
  - unfold count_at. rewrite Hc. simpl. destruct (is_mine t); lia.
Qed.

Lemma corner_session :
  rtc (step (R := counter_prng)) (corner_grid, 2%nat)
      ((opened (open_tile corner_grid 4 4)).1, 2%nat).
Proof.
  eapply rtc_l; [|apply rtc_refl].
  exact (step_open (R := counter_prng) corner_grid 2%nat 4 4 _ _ corner_grid_opened_4_4).
Qed.

Lemma corner_opened_tile_4_4 :
  _tile_grid (opened (open_tile corner_grid 4 4)).1 !! (4, 4)
  = Some (mkTile false true false).
Proof. vm_compute. reflexivity. Qed.

Lemma session_keeps_the_grid_shape_witness :
  Z.of_nat (size (mines_of (_tile_grid (opened (open_tile corner_grid 4 4)).1))) = 1.
Proof.
  pose proof (session_keeps_the_grid_shape (R := counter_prng) 30 5 5 1 (Some 0)
                demo_env corner_grid 2%nat (opened (open_tile corner_grid 4 4)).1 2%nat
                corner_grid_built corner_session) as (_ & _ & _ & H).
  exact H.
Defined.

Lemma session_counts_match_the_mines_witness :
  0 ≤ count_at (_mine_count_grid (opened (open_tile corner_grid 4 4)).1) (4, 4) ≤ 8.
Proof.
  pose proof (session_counts_match_the_mines (R := counter_prng) 30 5 5 1 (Some 0)
                demo_env corner_grid 2%nat (opened (open_tile corner_grid 4 4)).1 2%nat
                (4, 4) (mkTile false true false)
                corner_grid_built corner_session corner_opened_tile_4_4) as (_ & _ & H).
  exact H.
Defined.

(** ** A fresh grid *)

Lemma constructed_not_won g :
  constructed g → 1 ≤ _grid_height g → 1 ≤ _grid_width g → check_win g = false.
Proof.
  intros (Hc & Hu & _) Hh Hw.
  assert (Hin : in_range (_grid_height g) (_grid_width g) (0, 0)).
  { unfold in_range. simpl. lia. }
  apply (proj1 (Hc (0, 0))) in Hin as [t Ht].
  destruct (Hu _ _ Ht) as [Hr Hf].
  apply not_true_is_false. intros Hwin.
  pose proof (proj1 (check_win_spec g) Hwin _ _ Ht) as Hx.
  apply win_tile_spec in Hx as [[? _]|[? _]]; congruence.
Qed.

(** X9: a grid just constructed is not won, whatever its mines: no tile is
    flagged or revealed yet, not even when every tile holds a mine. *)
Theorem new_grid_is_not_won `{R : PRNG} fuel h w m sd env g s :
  new_grid fuel h w m sd env = Ret (g, s) → check_win g = false.
Proof.
  intros H. apply new_grid_spec in H as ((Hh & Hw & _) & <- & <- & _ & _ & Hcon).
  apply constructed_not_won; [done|lia..].
Qed.

Lemma new_grid_is_not_won_witness : check_win corner_grid = false.
Proof.
  exact (new_grid_is_not_won (R := counter_prng) 30 5 5 1 (Some 0) demo_env
           corner_grid 2%nat corner_grid_built).
Defined.

(** ** Restart *)

(** X10: [restart_grid], at any time in a session, leaves a fresh board of
    the same shape: dimensions, mine count and recorded seed as before, a
    tile and a count at exactly the coordinates of the grid, no tile
    revealed or flagged, as many mines as the mine count, and the game not
    won. *)
Theorem restart_grid_gives_a_fresh_board `{R : PRNG}
    fuel h w m sd env g s g1 s1 fuel' g2 s2 :
  new_grid fuel h w m sd env = Ret (g, s) → rtc step (g, s) (g1, s1) →
  restart_grid fuel' g1 s1 = Ret (g2, s2) →
  same_header g g2 ∧
  (∀ p, is_Some (_tile_grid g2 !! p) ↔ in_range h w p) ∧
  (∀ p, is_Some (_mine_count_grid g2 !! p) ↔ in_range h w p) ∧
  (∀ p, revealed_at (_tile_grid g2) p = false ∧ flagged_at (_tile_grid g2) p = false) ∧
  Z.of_nat (size (mines_of (_tile_grid g2))) = m ∧
  check_win g2 = false.
Proof.
  intros Hnew Hrun Hre.
  destruct (reachable_well_formed _ _ _ _ _ _ _ _ _ _ Hnew Hrun) as [Hh1 _].
  apply new_grid_spec in Hnew as ((Hh & Hw & Hm & _) & <- & <- & <- & _ & _).
  apply restart_grid_spec in Hre as [Hh2 Hcon].
  pose proof (same_header_trans _ _ _ Hh1 Hh2) as (Eh & Ew & Em & Es).
  pose proof Hcon as (Hc & Hu & Hsz & _).
  split; [done|]. split_and!.
  - intros p. rewrite <- Eh, <- Ew. apply Hc.
  - intros p. rewrite <- Eh, <- Ew. apply Hc.
  - intros p. unfold revealed_at, flagged_at.
    destruct (_tile_grid g2 !! p) as [t|] eqn:Ht; [|done]. by apply (Hu p).
  - rewrite Hsz, Em. lia.
  - apply constructed_not_won; [done|lia..].
Qed.

(** X11: [restart_grid] returns, given draws enough, when the positions the
    generator yields from its current state are fair; it raises nothing. *)
Theorem restart_grid_terminates `{R : PRNG} fuel h w m sd env g s g1 s1 :
  new_grid fuel h w m sd env = Ret (g, s) → rtc step (g, s) (g1, s1) →
  fair g1 s1 →
  ∃ fuel1 r, ∀ fuel', (fuel1 ≤ fuel')%nat → restart_grid fuel' g1 s1 = Ret r.
Proof.
  intros Hnew Hrun Hfair.
  destruct (reachable_well_formed _ _ _ _ _ _ _ _ _ _ Hnew Hrun)
    as [(Eh & Ew & Em & _) _].
  apply new_grid_spec in Hnew as ((Hh & Hw & Hm) & <- & <- & <- & _ & _).
  unfold restart_grid. apply set_up_grid_terminates; simpl; [done|done|lia|lia| |].
  - rewrite Eh, Ew, Em. lia.
  - by apply (fair_dims g1).
Qed.

Lemma corner_restarted :
  restart_grid (R := counter_prng) 30 (opened (open_tile corner_grid 4 4)).1 2%nat
  = Ret (grid_or_empty
           (restart_grid (R := counter_prng) 30
              (opened (open_tile corner_grid 4 4)).1 2%nat), 4%nat).
Proof. vm_compute. reflexivity. Qed.

Lemma restart_grid_gives_a_fresh_board_witness :
  check_win (grid_or_empty
               (restart_grid (R := counter_prng) 30
                  (opened (open_tile corner_grid 4 4)).1 2%nat)) = false.
Proof.
  pose proof (restart_grid_gives_a_fresh_board (R := counter_prng) 30 5 5 1 (Some 0)
                demo_env corner_grid 2%nat (opened (open_tile corner_grid 4 4)).1 2%nat
                30 _ 4%nat corner_grid_built corner_session corner_restarted)
    as (_ & _ & _ & _ & _ & H).
  exact H.
Defined.

Lemma corner_opened_dims :
  _grid_height (opened (open_tile corner_grid 4 4)).1 = 5 ∧
  _grid_width (opened (open_tile corner_grid 4 4)).1 = 5.
Proof. vm_compute. split; reflexivity. Qed.

Lemma restart_grid_terminates_witness :
  ∃ fuel1 r, ∀ fuel', (fuel1 ≤ fuel')%nat →
    restart_grid (R := counter_prng) fuel'
      (opened (open_tile corner_grid 4 4)).1 2%nat = Ret r.
Proof.
  apply (restart_grid_terminates (R := counter_prng) 30 5 5 1 (Some 0) demo_env
           corner_grid 2%nat _ _ corner_grid_built corner_session).
  exact (counter_fair (opened (open_tile corner_grid 4 4)).1 1
           (proj1 corner_opened_dims) (proj2 corner_opened_dims)).
Defined.

(** X12: [restart_grid] does not reseed the generator: at any time in a
    session it sets the grid up as construction does, but drawing on from
    the state the generator is in. So the restarted grid need not be the
    grid of construction: on the counting generator the 5x5 grid of seed 0
    has its mine at (0,0) and the restarted one elsewhere. *)
Theorem restart_grid_draws_on :
  (∀ (R : PRNG) fuel h w m sd env g s g1 s1 fuel',
     new_grid fuel h w m sd env = Ret (g, s) → rtc step (g, s) (g1, s1) →
     restart_grid fuel' g1 s1 = _set_up_grid fuel' (mkGrid h w m ∅ ∅ (seed g)) s1) ∧
  (∃ g s g' s',
     new_grid (R := counter_prng) 30 5 5 1 (Some 0) demo_env = Ret (g, s) ∧
     restart_grid (R := counter_prng) 30 g s = Ret (g', s') ∧
     seed g' = seed g ∧
     mine_at (_tile_grid g) (0, 0) = true ∧ mine_at (_tile_grid g') (0, 0) = false).
Proof.
  split.
  - intros R fuel h w m sd env g s g1 s1 fuel' Hnew Hrun.
    destruct (reachable_well_formed _ _ _ _ _ _ _ _ _ _ Hnew Hrun)
      as [(Eh & Ew & Em & Es) _].
    apply new_grid_spec in Hnew as (_ & <- & <- & <- & _).
    unfold restart_grid, set_mine_count_grid, set_tile_grid. simpl.
    by rewrite Eh, Ew, Em, Es.
  - exists corner_grid, 2%nat,
      (grid_or_empty (restart_grid (R := counter_prng) 30 corner_grid 2%nat)), 4%nat.
    split; [exact corner_grid_built|].
    split; [vm_compute; reflexivity|].
    split; [vm_compute; reflexivity|].
    split; vm_compute; reflexivity.
Qed.

(** ** Flags *)

(** X13: [get_tile(row, col).place_flag()] raises [KeyError] exactly when
    the dict has no tile there; otherwise it sets the flag of that tile,
    revealed or not, and changes nothing else. *)
Theorem place_flag_at_sets_one_flag g row col :
  (place_flag_at g row col = Raise KeyError ↔ _tile_grid g !! (row, col) = None) ∧
  (∀ t, _tile_grid g !! (row, col) = Some t →
     ∃ g', place_flag_at g row col = Ret g' ∧
       same_header g g' ∧ _mine_count_grid g' = _mine_count_grid g ∧
       _tile_grid g' !! (row, col) = Some (mkTile (is_mine t) (is_revealed t) true) ∧
       ∀ p, p ≠ (row, col) → _tile_grid g' !! p = _tile_grid g !! p).
Proof.
  unfold place_flag_at, get_tile, subscript. split.
  - destruct (_tile_grid g !! (row, col)); simpl; split; done.
  - intros t ->. simpl. eexists. split; [done|]. simpl. split_and!; [done..| |].
    + by rewrite lookup_insert_eq.
    + intros p Hp. by rewrite lookup_insert_ne.
Qed.

Lemma place_flag_at_sets_one_flag_witness :
  ∃ g', place_flag_at corner_grid 4 4 = Ret g' ∧
    same_header corner_grid g' ∧ _mine_count_grid g' = _mine_count_grid corner_grid ∧
    _tile_grid g' !! (4, 4) = Some (mkTile false false true) ∧
    ∀ p, p ≠ (4, 4) → _tile_grid g' !! p = _tile_grid corner_grid !! p.
Proof.
  exact (proj2 (place_flag_at_sets_one_flag corner_grid 4 4) new_tile
           corner_grid_tile_4_4).
Defined.

Lemma grid_eta g :
  mkGrid (_grid_height g) (_grid_width g) (_mine_count g) (_tile_grid g)
         (_mine_count_grid g) (seed g) = g.
Proof. by destruct g. Qed.

Lemma tile_unflag t : is_flagged t = false → remove_flag (place_flag t) = t.
Proof. destruct t as [m r f]. unfold is_flagged, remove_flag, place_flag. simpl. by intros ->. Qed.

(** X14: placing a flag on an unflagged tile and removing it again gives
    back the grid as it was. *)
Theorem flag_round_trip g row col t :
  _tile_grid g !! (row, col) = Some t → is_flagged t = false →
  (g' ← place_flag_at g row col; remove_flag_at g' row col) = Ret g.
Proof.
  intros Ht Hf. unfold place_flag_at, remove_flag_at, get_tile, subscript.
  rewrite Ht. simpl. rewrite lookup_insert_eq. simpl.
  unfold set_tile_grid. simpl. rewrite insert_insert_eq, tile_unflag by done.
  rewrite insert_id by done. by rewrite grid_eta.
Qed.

Lemma flag_round_trip_witness :
  (g' ← place_flag_at corner_grid 4 4; remove_flag_at g' 4 4) = Ret corner_grid.
Proof. exact (flag_round_trip corner_grid 4 4 new_tile corner_grid_tile_4_4 eq_refl). Defined.

(** ** A won grid *)

Lemma won_tile_short g p t :
  check_win g = true → _tile_grid g !! p = Some t → is_mine t || is_revealed t = true.
Proof.
  intros Hw Ht. pose proof (proj1 (check_win_spec g) Hw p t Ht) as H.
  apply win_tile_spec in H as [[_ ->]|[-> _]]; [done|]. apply orb_true_r.
Qed.

Lemma place_flag_keeps_win g row col g' :
  check_win g = true → place_flag_at g row col = Ret g' → check_win g' = true.
Proof.
  intros Hw H. unfold place_flag_at, get_tile, subscript in H.
  destruct (_tile_grid g !! (row, col)) as [t|] eqn:Ht; simpl in H; [|done].
  injection H as <-. apply check_win_spec. simpl. intros p t'.
  destruct (decide ((row, col) = p)) as [<-|Hne].
  - rewrite lookup_insert_eq. intros [= <-].
    pose proof (proj1 (check_win_spec g) Hw _ _ Ht) as Hx.
    apply win_tile_spec in Hx. apply win_tile_spec.
    unfold is_flagged, is_mine, is_revealed, place_flag in *. simpl.
    destruct Hx as [[_ ?]|[? ?]]; [by left|by right].
  - rewrite lookup_insert_ne by done. by apply (proj1 (check_win_spec g) Hw).
Qed.

(** X15: a won grid stays won under the two actions of the console: a click
    on any tile changes nothing and returns the clicked coordinate alone,
    and a further flag keeps the win. *)
Theorem won_grid_stays_won g :
  check_win g = true →
  (∀ row col, is_Some (_tile_grid g !! (row, col)) →
     open_tile g row col = Ret (g, [(row, col)])) ∧
  (∀ row col g', place_flag_at g row col = Ret g' → check_win g' = true).
Proof.
  intros Hw. split.
  - intros row col [t Ht]. apply (open_tile_short g row col t Ht).
    by apply (won_tile_short g (row, col)).
  - intros row col g'. by apply place_flag_keeps_win.
Qed.

Lemma won_grid_stays_won_witness :
  (∀ row col, is_Some (_tile_grid corner_won !! (row, col)) →
     open_tile corner_won row col = Ret (corner_won, [(row, col)])) ∧
  (∀ row col g', place_flag_at corner_won row col = Ret g' → check_win g' = true).
Proof. exact (won_grid_stays_won corner_won corner_won_wins). Defined.

(** ** The seed drawn from [urandom] *)

Lemma from_bytes_big_bound bs acc :
  0 ≤ acc → Forall (λ b, 0 ≤ b < 256) bs →
  acc * 256 ^ Z.of_nat (length bs)
    ≤ foldl (λ acc b, acc * 256 + b) acc bs
    < (acc + 1) * 256 ^ Z.of_nat (length bs).
Proof.
  intros Hacc Hbs. revert acc Hacc.
  induction Hbs as [|b bs Hb _ IH]; intros acc Hacc.
  - simpl. lia.
  - cbn [foldl length]. rewrite Nat2Z.inj_succ, Z.pow_succ_r by lia.
    specialize (IH (acc * 256 + b) ltac:(lia)).
    assert (0 < 256 ^ Z.of_nat (length bs)) by (apply Z.pow_pos_nonneg; lia).
    nia.
Qed.

Lemma from_bytes_big_inj bs bs' acc acc' :
  length bs = length bs' → 0 ≤ acc → 0 ≤ acc' →
  Forall (λ b, 0 ≤ b < 256) bs → Forall (λ b, 0 ≤ b < 256) bs' →
  foldl (λ acc b, acc * 256 + b) acc bs = foldl (λ acc b, acc * 256 + b) acc' bs' →
  acc = acc' ∧ bs = bs'.
Proof.
  intros Hlen Ha Ha' Hbs. revert bs' acc acc' Hlen Ha Ha'.
  induction Hbs as [|b bs Hb _ IH]; intros [|b' bs'] acc acc' Hlen Ha Ha' Hbs' Heq;
    simpl in Hlen; try done.
  apply Forall_cons in Hbs' as [Hb' Hbs']. cbn [foldl] in Heq.
  apply IH in Heq as [Heq ->]; [|lia|lia|lia|done].
  assert (acc = acc' ∧ b = b') as [-> ->] by lia. done.
Qed.

(** X16: [generate_seed] reads the 16 bytes of [urandom] as a big-endian
    number: the seed it returns is at least 0 and below 2^128, and two
    reads that differ give two seeds that differ. *)
Theorem generate_seed_range `{R : PRNG} (env env' : os_env) :
  length (urandom16 env) = 16%nat → Forall (λ b, 0 ≤ b < 256) (urandom16 env) →
  0 ≤ generate_seed env < 2 ^ 128 ∧
  (length (urandom16 env') = 16%nat → Forall (λ b, 0 ≤ b < 256) (urandom16 env') →
   generate_seed env = generate_seed env' → urandom16 env = urandom16 env').
Proof.
  intros Hlen Hbs. unfold generate_seed, from_bytes_big. split.
  - pose proof (from_bytes_big_bound _ 0 ltac:(lia) Hbs) as H.
    rewrite Hlen in H. change (256 ^ Z.of_nat 16) with (2 ^ 128) in H. lia.
  - intros Hlen' Hbs' Heq.
    apply from_bytes_big_inj in Heq as [_ ?]; [done|congruence|lia|lia|done..].
Qed.

Lemma demo_env_bytes : Forall (λ b, 0 ≤ b < 256) (urandom16 demo_env).
Proof. repeat (apply Forall_cons_2; [simpl; lia|]). apply Forall_nil_2. Qed.

Lemma generate_seed_range_witness :
  0 ≤ generate_seed demo_env < 2 ^ 128 ∧
  (length (urandom16 demo_env) = 16%nat →
   Forall (λ b, 0 ≤ b < 256) (urandom16 demo_env) →
   generate_seed demo_env = generate_seed demo_env →
   urandom16 demo_env = urandom16 demo_env).
Proof.
  exact (generate_seed_range (R := counter_prng) demo_env demo_env eq_refl
           demo_env_bytes).
Defined.

(** ** Display *)

Lemma for_each_ext {A S} (f f' : S → A → outcome S) l s :
  (∀ s a, a ∈ l → f s a = f' s a) → for_each f l s = for_each f' l s.
Proof.
  revert s. induction l as [|a l IH]; intros s H; simpl; [done|].
  rewrite (H s a) by apply list_elem_of_here.
  destruct (f' s a) as [s1| |]; simpl; [|done..].
  apply IH. intros s2 a2 Ha2. apply H. by apply list_elem_of_further.
Qed.

Lemma grid_cell_cases g row col t c :
  _tile_grid g !! (row, col) = Some t → _mine_count_grid g !! (row, col) = Some c →
  grid_cell g row col =
  Ret (if is_revealed t && (0 <? c) then pretty c else tile_str t).
Proof.
  intros Ht Hc. unfold grid_cell, subscript. rewrite Ht. simpl.
  destruct (is_revealed t); simpl; [|done].
  rewrite Hc. simpl. by destruct (0 <? c).
Qed.

Lemma covered_lookups g p :
  covered g → in_range (_grid_height g) (_grid_width g) p →
  ∃ t c, _tile_grid g !! p = Some t ∧ _mine_count_grid g !! p = Some c.
Proof.
  intros Hc Hp. destruct (Hc p) as [H1 H2].
  apply H1 in Hp as [t Ht]. pose proof (mk_is_Some _ _ Ht) as Hs.
  apply H1, H2 in Hs as [c Hc']. eauto.
Qed.

Lemma visualization_total g : covered g → ∃ vis, visualization g = Ret vis.
Proof.
  intros Hc. unfold visualization.
  destruct (for_each_total
    (λ vis row,
      vis ← for_each (λ vis col, s ← grid_cell g row col; Ret (vis ++ [s]))
               (range (_grid_width g)) vis;
      Ret (vis ++ [newline]))
    (λ _, True) (range (_grid_height g)) []) as (vis & Hvis & _); [|done|eauto].
  intros vis row Hrow _.
  destruct (for_each_total
    (λ vis col, s ← grid_cell g row col; Ret (vis ++ [s]))
    (λ _, True) (range (_grid_width g)) vis) as (vis' & Hvis' & _); [|done|].
  - intros vis1 col Hcol _. apply elem_of_range in Hrow, Hcol.
    destruct (covered_lookups g (row, col) Hc) as (t & c & Ht & Hc'); [by split|].
    rewrite (grid_cell_cases _ _ _ _ _ Ht Hc'). simpl. eauto.
  - rewrite Hvis'. simpl. eauto.
Qed.

Lemma cheat_total g : covered g → ∃ out, cheat g = Ret out.
Proof.
  intros Hc. unfold cheat.
  destruct (for_each_total
    (λ vis row,
      vis ← for_each (λ vis col,
               t ← subscript (_tile_grid g) (row, col);
               if is_mine t then Ret (vis ++ ["X"])
               else c ← subscript (_mine_count_grid g) (row, col);
                    Ret (vis ++ [pretty c]))
               (range (_grid_width g)) vis;
      Ret (vis ++ [newline]))
    (λ _, True) (range (_grid_height g)) []) as (vis & Hvis & _);
    [|done|rewrite Hvis; simpl; eauto].
  intros vis row Hrow _.
  destruct (for_each_total
    (λ vis col,
       t ← subscript (_tile_grid g) (row, col);
       if is_mine t then Ret (vis ++ ["X"])
       else c ← subscript (_mine_count_grid g) (row, col);
            Ret (vis ++ [pretty c]))
    (λ _, True) (range (_grid_width g)) vis) as (vis' & Hvis' & _); [|done|].
  - intros vis1 col Hcol _. apply elem_of_range in Hrow, Hcol.
    destruct (covered_lookups g (row, col) Hc) as (t & c & Ht & Hc'); [by split|].
    unfold subscript. rewrite Ht, Hc'. simpl. destruct (is_mine t); simpl; eauto.
  - rewrite Hvis'. simpl. eauto.
Qed.

Lemma grid_str_total g : covered g → ∃ s, grid_str g = Ret s.
Proof.
  intros Hc. unfold grid_str. destruct (visualization_total g Hc) as [vis ->].
  simpl. eauto.
Qed.

Lemma visualization_cells g (P : string → Prop) vis :
  P newline →
  (∀ row col s, in_range (_grid_height g) (_grid_width g) (row, col) →
     grid_cell g row col = Ret s → P s) →
  visualization g = Ret vis → Forall P vis.
Proof.
  intros Hnl Hcell. unfold visualization.
  apply (for_each_inv _ (Forall P)); [|apply Forall_nil_2].
  intros vis0 row vis1 Hrow Hvis0 Hbody.
  destruct (for_each _ (range (_grid_width g)) vis0) as [vis2| |] eqn:Hin;
    simpl in Hbody; [|done..].
  injection Hbody as <-. apply Forall_app. split; [|by apply Forall_singleton].
  revert Hin. apply (for_each_inv _ (Forall P)); [|done].
  intros vis3 col vis4 Hcol Hvis3 Hb.
  destruct (grid_cell g row col) as [s| |] eqn:Hs; simpl in Hb; [|done..].
  injection Hb as <-. apply Forall_app. split; [done|]. apply Forall_singleton.
  apply (Hcell row col); [|done]. apply elem_of_range in Hrow, Hcol. by split.
Qed.

Lemma pretty_count_not_X c : 0 < c ≤ 8 → pretty c ≠ "X".
Proof.
  intros Hc.
  assert (c = 1 ∨ c = 2 ∨ c = 3 ∨ c = 4 ∨ c = 5 ∨ c = 6 ∨ c = 7 ∨ c = 8)
    as [->|[->|[->|[->|[->|[->|[->| ->]]]]]]] by lia;
    vm_compute; discriminate.
Qed.

Lemma newline_not_X : newline ≠ "X".
Proof. vm_compute. discriminate. Qed.

Lemma reachable_mines_hidden `{R : PRNG} fuel h w m sd env g s g' s' :
  new_grid fuel h w m sd env = Ret (g, s) → rtc step (g, s) (g', s') →
  mines_hidden g'.
Proof.
  intros Hnew Hrun.
  apply new_grid_spec in Hnew as (_ & _ & _ & _ & _ & Hcon).
  change g' with (g', s').1.
  eapply (rtc_ind_r (λ y, mines_hidden y.1)); [|intros y z _ ? ?|exact Hrun].
  - by apply constructed_mines_hidden.
  - by eapply step_mines_hidden.
Qed.

(** X17: at any time in a session the board prints: [Grid.__str__] raises
    nothing, and no cell of it is an X, the text of a revealed mine. *)
Theorem display_never_shows_a_mine `{R : PRNG}
    fuel h w m sd env g s g' s' :
  new_grid fuel h w m sd env = Ret (g, s) → rtc step (g, s) (g', s') →
  ∃ vis, visualization g' = Ret vis ∧
         grid_str g' = Ret (String.concat " " vis) ∧
         Forall (λ cell, cell ≠ "X") vis.
Proof.
  intros Hnew Hrun.
  pose proof (reachable_mines_hidden _ _ _ _ _ _ _ _ _ _ Hnew Hrun) as Hmh.
  destruct (reachable_well_formed _ _ _ _ _ _ _ _ _ _ Hnew Hrun)
    as [_ (Hc & _ & Hcount)].
  destruct (visualization_total g' Hc) as [vis Hvis]. exists vis.
  split; [done|]. split; [unfold grid_str; by rewrite Hvis|].
  apply (visualization_cells g' _ vis newline_not_X); [|done].
  intros row col s0 Hin Hcell.
  destruct (covered_lookups g' (row, col) Hc Hin) as (t & c & Ht & Hc').
  rewrite (grid_cell_cases _ _ _ _ _ Ht Hc') in Hcell. injection Hcell as <-.
  pose proof (Hcount _ _ Ht) as Hct. rewrite Hc' in Hct. injection Hct as Hct.
  cbn [fst snd] in Hct.
  pose proof (find_surrounding_mine_count_bounds (_tile_grid g') row col) as Hr.
  destruct (is_revealed t) eqn:Hrev; simpl.
  - destruct (0 <? c) eqn:Hpos.
    + apply pretty_count_not_X. apply Z.ltb_lt in Hpos.
      destruct (is_mine t); lia.
    + unfold tile_str. fold (is_revealed t). fold (is_mine t). rewrite Hrev.
      destruct (is_mine t) eqn:Hm; [|done].
      destruct (Hmh _ _ Ht Hm) as [? _]. congruence.
  - unfold tile_str. fold (is_revealed t). rewrite Hrev. by destruct (_flagged t).
Qed.

Lemma grid_cell_same_view g g' row col :
  covered g → covered g' → same_view g g' →
  in_range (_grid_height g) (_grid_width g) (row, col) →
  grid_cell g' row col = grid_cell g row col.
Proof.
  intros Hc Hc' (Hh & Hw & Hv) Hin.
  destruct (covered_lookups g (row, col) Hc Hin) as (t & c & Ht & Hcnt).
  destruct (covered_lookups g' (row, col) Hc') as (t' & c' & Ht' & Hcnt');
    [by rewrite Hh, Hw|].
  rewrite (grid_cell_cases _ _ _ _ _ Ht Hcnt), (grid_cell_cases _ _ _ _ _ Ht' Hcnt').
  destruct (Hv _ Hin) as (Hr & Hrev & Hunrev).
  unfold revealed_at, mine_at, flagged_at, count_at in Hr, Hrev, Hunrev.
  rewrite Ht, Ht', Hcnt, Hcnt' in *. simpl in *. rewrite Hr.
  f_equal. unfold tile_str. fold (is_revealed t) (is_revealed t').
  fold (is_mine t) (is_mine t'). rewrite Hr.
  destruct (is_revealed t).
  - destruct Hrev as [-> ->]; done.
  - simpl. fold (is_flagged t) (is_flagged t'). by rewrite Hunrev.
Qed.

(** X18: the board prints what the player sees and nothing else. Two dense
    grids of which the same tiles are revealed, with the same mine and count
    under each revealed tile and the same flag on each other tile, have the
    same [Grid.__str__], wherever their hidden mines are. *)
Theorem display_shows_only_the_visible g g' :
  covered g → covered g' → same_view g g' → grid_str g' = grid_str g.
Proof.
  intros Hc Hc' Hv. pose proof Hv as (Hh & Hw & _).
  unfold grid_str, visualization. rewrite Hh, Hw. f_equal.
  apply for_each_ext. intros vis row Hrow. f_equal.
  apply for_each_ext. intros vis1 col Hcol.
  apply elem_of_range in Hrow, Hcol.
  by rewrite (grid_cell_same_view g g' row col Hc Hc' Hv).
Qed.

Lemma display_never_shows_a_mine_witness :
  ∃ vis, visualization (opened (open_tile corner_grid 4 4)).1 = Ret vis ∧
         grid_str (opened (open_tile corner_grid 4 4)).1
           = Ret (String.concat " " vis) ∧
         Forall (λ cell, cell ≠ "X") vis.
Proof.
  exact (display_never_shows_a_mine (R := counter_prng) 30 5 5 1 (Some 0) demo_env
           corner_grid 2%nat (opened (open_tile corner_grid 4 4)).1 2%nat
           corner_grid_built corner_session).
Defined.

Lemma untouched_same_view g g' :
  _grid_height g' = _grid_height g → _grid_width g' = _grid_width g →
  untouched g → untouched g' → same_view g g'.
Proof.
  intros Hh Hw Hu Hu'. split; [done|]. split; [done|]. intros p _.
  assert (H : ∀ g0, untouched g0 →
            revealed_at (_tile_grid g0) p = false ∧ flagged_at (_tile_grid g0) p = false).
  { intros g0 H0. unfold revealed_at, flagged_at.
    destruct (_tile_grid g0 !! p) as [t|] eqn:Ht; [|done]. by apply (H0 p). }
  destruct (H g Hu) as [Hr Hf]. destruct (H g' Hu') as [Hr' Hf'].
  rewrite Hr, Hr', Hf, Hf'. split; [done|]. split; [done|done].
Qed.

Lemma corner_grid_constructed : constructed corner_grid.
Proof. eapply new_grid_spec. exact corner_grid_built. Qed.

Lemma edge_grid_constructed : constructed edge_grid.
Proof. eapply new_grid_spec. exact edge_grid_built. Qed.

Lemma corner_edge_same_view : same_view corner_grid edge_grid.
Proof.
  apply untouched_same_view.
  - vm_compute. reflexivity.
  - vm_compute. reflexivity.
  - apply corner_grid_constructed.
  - apply edge_grid_constructed.
Qed.

Lemma display_shows_only_the_visible_witness : grid_str edge_grid = grid_str corner_grid.
Proof.
  apply (display_shows_only_the_visible corner_grid edge_grid).
  - apply corner_grid_constructed.
  - apply edge_grid_constructed.
  - exact corner_edge_same_view.
Defined.

(** ** The console *)

Lemma grows_refl g : grows g g.
Proof. split; [apply same_header_refl|]. split; [done|]. intros p. by split_and!. Qed.

Lemma grows_trans g1 g2 g3 : grows g1 g2 → grows g2 g3 → grows g1 g3.
Proof.
  intros (Hh & Hm & Hp) (Hh' & Hm' & Hp').
  split; [by eapply same_header_trans|]. split; [congruence|]. intros p.
  destruct (Hp p) as (Hd & Hmi & Hf & Hr). destruct (Hp' p) as (Hd' & Hmi' & Hf' & Hr').
  split_and!.
  - by rewrite Hd'.
  - congruence.
  - auto.
  - auto.
Qed.

Lemma open_tile_grows g row col g' l : open_tile g row col = Ret (g', l) → grows g g'.
Proof.
  intros H. apply open_tile_frame in H as (Hh & Hmc & Hro).
  split; [done|]. split; [done|]. intros p. split_and!.
  - by apply reveals_only_dom.
  - by apply reveals_only_mine.
  - by rewrite (reveals_only_flagged _ _ p Hro).
  - by apply reveals_only_revealed.
Qed.

Lemma place_flag_at_grows g row col g' :
  place_flag_at g row col = Ret g' →
  grows g g' ∧ flagged_at (_tile_grid g') (row, col) = true.
Proof.
  intros H. unfold place_flag_at, get_tile, subscript in H.
  destruct (_tile_grid g !! (row, col)) as [t|] eqn:Ht; simpl in H; [|done].
  injection H as <-. simpl. split.
  - split; [done|]. split; [done|]. intros p. simpl.
    unfold mine_at, flagged_at, revealed_at.
    destruct (decide ((row, col) = p)) as [<-|Hne].
    + rewrite lookup_insert_eq, Ht. split_and!; [split; eauto|done..].
    + rewrite lookup_insert_ne by done. by split_and!.
  - unfold flagged_at. by rewrite lookup_insert_eq.
Qed.

Lemma grows_covered g g' : grows g g' → covered g → covered g'.
Proof.
  intros ((Hh & Hw & _) & Hmc & Hp) Hc p. destruct (Hp p) as (Hd & _).
  rewrite Hh, Hw, Hmc, Hd. apply Hc.
Qed.

Lemma grows_win_at g g' p :
  grows g g' → win_at (_tile_grid g) p = true → win_at (_tile_grid g') p = true.
Proof.
  intros (_ & _ & Hp). destruct (Hp p) as (_ & Hm & Hf & Hr). unfold win_at.
  rewrite Hm.
  destruct (flagged_at (_tile_grid g) p), (revealed_at (_tile_grid g) p),
    (mine_at (_tile_grid g) p); simpl; try done;
    intros _; rewrite ?Hf, ?Hr by done; simpl; by rewrite ?orb_true_r.
Qed.

Lemma check_win_at g :
  check_win g = true ↔ ∀ p, is_Some (_tile_grid g !! p) → win_at (_tile_grid g) p = true.
Proof.
  rewrite check_win_spec. unfold win_at, flagged_at, mine_at, revealed_at. split.
  - intros H p [t Ht]. rewrite Ht. by apply (H p).
  - intros H p t Ht. specialize (H p (mk_is_Some _ _ Ht)). by rewrite Ht in H.
Qed.

Lemma play_loop_cons g row col flag inputs :
  play_loop g ((row, col, flag) :: inputs) =
  (_ ← grid_str g;
   g' ← turn g (row, col, flag);
   if check_win g' then Ret (g', true) else play_loop g' inputs).
Proof. destruct inputs; reflexivity. Qed.

Lemma turn_grows g i g' : turn g i = Ret g' → grows g g'.
Proof.
  unfold turn. destruct i as [[row col] [|]]; simpl.
  - by intros [? _]%place_flag_at_grows.
  - destruct (open_tile g row col) as [[g1 l]| |] eqn:Ho; simpl; [|done..].
    intros [= <-]. by eapply open_tile_grows.
Qed.

Lemma turn_key_error g row col flag :
  _tile_grid g !! (row, col) = None → turn g (row, col, flag) = Raise KeyError.
Proof.
  intros Hn. unfold turn, place_flag_at, get_tile, open_tile, subscript. simpl.
  rewrite Hn. by destruct flag.
Qed.

Lemma play_loop_grows inputs g g' b :
  play_loop g inputs = Ret (g', b) →
  grows g g' ∧ (b = true → check_win g' = true).
Proof.
  revert g. induction inputs as [|[[row col] flag] inputs IH]; intros g.
  - simpl. destruct (grid_str g); simpl; [|done..]. intros [= <- <-].
    split; [apply grows_refl|done].
  - rewrite play_loop_cons. destruct (grid_str g); simpl; [|done..].
    destruct (turn g (row, col, flag)) as [g1| |] eqn:Ht; simpl; [|done..].
    apply turn_grows in Ht.
    destruct (check_win g1) eqn:Hw.
    + intros [= <- <-]. by split.
    + intros [Hg Hb]%IH. split; [by eapply grows_trans|done].
Qed.

Lemma play_loop_app inputs more g g' :
  play_loop g inputs = Ret (g', false) →
  play_loop g (inputs ++ more) = play_loop g' more.
Proof.
  revert g. induction inputs as [|[[row col] flag] inputs IH]; intros g.
  - simpl. destruct (grid_str g) eqn:Hs; simpl; [|done..]. by intros [= <-].
  - rewrite <- app_comm_cons, !play_loop_cons.
    destruct (grid_str g); simpl; [|done..].
    destruct (turn g (row, col, flag)) as [g1| |]; simpl; [|done..].
    destruct (check_win g1); [done|]. apply IH.
Qed.

Lemma open_tile_reveals_clicked g row col t g' l :
  _tile_grid g !! (row, col) = Some t → is_mine t = false →
  open_tile g row col = Ret (g', l) →
  revealed_at (_tile_grid g') (row, col) = true.
Proof.
  intros Ht Hm H. destruct (is_revealed t) eqn:Hr.
  - rewrite (open_tile_short g row col t Ht) in H by (by rewrite Hr, orb_true_r).
    injection H as <- _. unfold revealed_at. by rewrite Ht.
  - destruct (open_tile_loop _ _ _ _ _ _ Ht Hm Hr H)
      as (st & -> & _ & _ & (_ & _ & _ & Hlrev & _) & [rest Hhead] & _).
    simpl. apply Hlrev. left. rewrite Hhead. apply list_elem_of_here.
Qed.

Lemma winning_turn g p :
  is_Some (_tile_grid g !! p) →
  ∃ g', turn g (p.1, p.2, mine_at (_tile_grid g) p) = Ret g' ∧
        win_at (_tile_grid g') p = true.
Proof.
  intros [t Ht]. destruct p as [row col]. unfold turn. simpl.
  unfold mine_at at 1. rewrite Ht. destruct (is_mine t) eqn:Hm.
  - unfold place_flag_at, get_tile, subscript. rewrite Ht. simpl. eexists.
    split; [done|]. unfold win_at, flagged_at, mine_at. simpl.
    rewrite lookup_insert_eq. unfold is_flagged, is_mine, place_flag in *. simpl.
    by rewrite Hm.
  - destruct (open_tile_total g row col) as [[_ Hn]|(g' & l & Ho)]; [congruence|].
    rewrite Ho. simpl. exists g'. split; [done|].
    pose proof (open_tile_reveals_clicked _ _ _ _ _ _ Ht Hm Ho) as Hr.
    apply open_tile_grows in Ho as (_ & _ & Hp).
    destruct (Hp (row, col)) as (_ & Hmi & _). unfold win_at. rewrite Hr, Hmi.
    unfold mine_at. rewrite Ht, Hm. simpl. apply orb_true_r.
Qed.

Lemma winning_inputs_grows g g' ps : grows g g' → winning_inputs g' ps = winning_inputs g ps.
Proof.
  intros (_ & _ & Hp). unfold winning_inputs. apply list_fmap_ext.
  intros _ p _. destruct (Hp p) as (_ & -> & _). done.
Qed.

Lemma play_loop_wins ps g :
  covered g → check_win g = false →
  (∀ p, p ∈ ps → is_Some (_tile_grid g !! p)) →
  (∀ p, is_Some (_tile_grid g !! p) → win_at (_tile_grid g) p = true ∨ p ∈ ps) →
  ∃ g', play_loop g (winning_inputs g ps) = Ret (g', true).
Proof.
  revert g. induction ps as [|p ps IH]; intros g Hc Hw Hin Hwin.
  - assert (check_win g = true); [|congruence].
    apply check_win_at. intros p Hp.
    destruct (Hwin p Hp) as [?|?%elem_of_nil]; done.
  - unfold winning_inputs. rewrite fmap_cons, play_loop_cons.
    destruct (grid_str_total g Hc) as [s ->]. simpl.
    destruct (winning_turn g p) as (g1 & Ht & Hp1); [apply Hin, list_elem_of_here|].
    rewrite Ht. simpl. pose proof (turn_grows _ _ _ Ht) as Hg.
    destruct (check_win g1) eqn:Hw1; [eauto|].
    fold (winning_inputs g ps). rewrite <- (winning_inputs_grows g g1 ps Hg).
    pose proof Hg as (_ & _ & Hdom).
    apply IH; [by eapply grows_covered|done| |].
    + intros q Hq. apply (proj1 (Hdom q)), Hin. by apply list_elem_of_further.
    + intros q Hq. apply (proj1 (Hdom q)) in Hq.
      destruct (Hwin q Hq) as [Hq1|Hq1].
      * left. by eapply grows_win_at.
      * apply elem_of_cons in Hq1 as [->|?]; [by left|by right].
Qed.

Lemma covered_can_win g :
  covered g → 1 ≤ _grid_height g → 1 ≤ _grid_width g →
  ∃ inputs g', play_loop g inputs = Ret (g', true).
Proof.
  intros Hc Hh Hw. destruct (check_win g) eqn:Hwin.
  - exists [(0, 0, false)], g. rewrite play_loop_cons.
    destruct (grid_str_total g Hc) as [s ->]. simpl.
    assert (Hin : in_range (_grid_height g) (_grid_width g) (0, 0)).
    { unfold in_range. simpl. lia. }
    apply (proj1 (Hc (0, 0))) in Hin as [t Ht].
    unfold turn. simpl.
    rewrite (open_tile_short g 0 0 t Ht) by (by eapply won_tile_short).
    simpl. by rewrite Hwin.
  - exists (winning_inputs g (all_positions (_grid_height g) (_grid_width g))).
    apply play_loop_wins; [done..| |].
    + intros p Hp. apply (proj1 (Hc p)). by apply all_positions_spec.
    + intros p Hp. right. apply all_positions_spec. by apply (proj1 (Hc p)).
Qed.

Lemma console_unfold `{R : PRNG} fuel h w m sd c env inputs g' b :
  MinesweeperConsole fuel h w m sd c env inputs = Ret (g', b) →
  ∃ g s, new_grid fuel h w m sd env = Ret (g, s) ∧
         play_loop g inputs = Ret (g', b) ∧
         ∀ inputs', MinesweeperConsole fuel h w m sd c env inputs'
                    = play_loop g inputs'.
Proof.
  unfold MinesweeperConsole, play_game.
  destruct (new_grid fuel h w m sd env) as [[g s]| |] eqn:Hnew; simpl; [|done..].
  destruct c.
  - destruct (cheat g) as [out| |] eqn:Hch; simpl; [|done..].
    intros H. exists g, s. by split_and!.
  - simpl. intros H. exists g, s. by split_and!.
Qed.

(** X19: a console game only ever adds to the board. Whatever the inputs,
    the grid the console holds has the shape, the counts and the mines of
    the grid it constructed; no flag of it has been removed and no revealed
    tile hidden; and the loop breaks on a win only when [check_win] holds. *)
Theorem console_only_adds `{R : PRNG} fuel h w m sd c env inputs g s g' b :
  new_grid fuel h w m sd env = Ret (g, s) →
  MinesweeperConsole fuel h w m sd c env inputs = Ret (g', b) →
  same_header g g' ∧ _mine_count_grid g' = _mine_count_grid g ∧
  (∀ p, (is_Some (_tile_grid g' !! p) ↔ is_Some (_tile_grid g !! p)) ∧
        mine_at (_tile_grid g') p = mine_at (_tile_grid g) p ∧
        (flagged_at (_tile_grid g) p = true → flagged_at (_tile_grid g') p = true) ∧
        (revealed_at (_tile_grid g) p = true → revealed_at (_tile_grid g') p = true)) ∧
  (b = true → check_win g' = true).
Proof.
  intros Hnew (g0 & s0 & Hnew0 & Hplay & _)%console_unfold.
  rewrite Hnew in Hnew0. injection Hnew0 as <- <-.
  apply play_loop_grows in Hplay as [(Hh & Hmc & Hp) Hb]. by split_and!.
Qed.

(** X20: the console does not catch the [KeyError] of a coordinate outside
    the grid: while it waits for input, a turn on such a coordinate, flag or
    click, ends it with that exception. *)
Theorem console_crashes_outside_the_grid `{R : PRNG}
    fuel h w m sd c env inputs g' row col flag more :
  MinesweeperConsole fuel h w m sd c env inputs = Ret (g', false) →
  ¬ in_range h w (row, col) →
  MinesweeperConsole fuel h w m sd c env (inputs ++ (row, col, flag) :: more)
  = Raise KeyError.
Proof.
  intros (g & s & Hnew & Hplay & Heq)%console_unfold Hout.
  rewrite Heq, (play_loop_app _ _ _ _ Hplay), play_loop_cons.
  apply new_grid_spec in Hnew as (_ & <- & <- & _ & _ & (Hc & _)).
  apply play_loop_grows in Hplay as [Hg _].
  pose proof (grows_covered _ _ Hg Hc) as Hc'.
  destruct (grid_str_total g' Hc') as [s0 ->]. simpl.
  rewrite turn_key_error; [done|].
  destruct Hg as ((Hh & Hw & _) & _). rewrite <- Hh, <- Hw in Hout.
  destruct (_tile_grid g' !! (row, col)) as [t|] eqn:Ht; [|done].
  destruct Hout. apply (proj1 (Hc' (row, col))). eauto.
Qed.

(** X21: the console has no losing state. While it waits for input, some
    further inputs win the game: a flag on every mine and a click on every
    other tile will do, whatever was clicked or flagged before. *)
Theorem console_can_always_win `{R : PRNG} fuel h w m sd c env inputs g' :
  MinesweeperConsole fuel h w m sd c env inputs = Ret (g', false) →
  ∃ more g'', MinesweeperConsole fuel h w m sd c env (inputs ++ more)
              = Ret (g'', true).
Proof.
  intros (g & s & Hnew & Hplay & Heq)%console_unfold.
  apply new_grid_spec in Hnew as ((Hh & Hw & _) & <- & <- & _ & _ & (Hc & _)).
  pose proof (play_loop_grows _ _ _ _ Hplay) as [Hg _].
  pose proof (grows_covered _ _ Hg Hc) as Hc'.
  destruct Hg as ((Eh & Ew & _) & _).
  destruct (covered_can_win g' Hc') as (more & g'' & Hwin); [lia..|].
  exists more, g''. by rewrite Heq, (play_loop_app _ _ _ _ Hplay).
Qed.

Lemma corner_console_waits :
  MinesweeperConsole (R := counter_prng) 30 5 5 1 (Some 0) true demo_env [(4, 4, false)]
  = Ret ((played (MinesweeperConsole (R := counter_prng) 30 5 5 1 (Some 0) true
                    demo_env [(4, 4, false)])).1, false).
Proof. vm_compute. reflexivity. Qed.

Lemma corner_console_wins :
  MinesweeperConsole (R := counter_prng) 30 5 5 1 (Some 0) true demo_env
    [(4, 4, false); (0, 0, true)]
  = Ret ((played (MinesweeperConsole (R := counter_prng) 30 5 5 1 (Some 0) true
                    demo_env [(4, 4, false); (0, 0, true)])).1, true).
Proof. vm_compute. reflexivity. Qed.

Lemma console_only_adds_witness :
  check_win (played (MinesweeperConsole (R := counter_prng) 30 5 5 1 (Some 0) true
                       demo_env [(4, 4, false); (0, 0, true)])).1 = true.
Proof.
  pose proof (console_only_adds (R := counter_prng) 30 5 5 1 (Some 0) true demo_env
                [(4, 4, false); (0, 0, true)] corner_grid 2%nat _ true
                corner_grid_built corner_console_wins) as (_ & _ & _ & H).
  exact (H eq_refl).
Defined.

Lemma outside_9_9 : ¬ in_range 5 5 (9, 9).
Proof. unfold in_range. simpl. lia. Qed.

Lemma console_crashes_outside_the_grid_witness :
  MinesweeperConsole (R := counter_prng) 30 5 5 1 (Some 0) true demo_env
    ([(4, 4, false)] ++ [(9, 9, false)])
  = Raise KeyError.
Proof.
  exact (console_crashes_outside_the_grid (R := counter_prng) 30 5 5 1 (Some 0) true
           demo_env [(4, 4, false)] _ 9 9 false [] corner_console_waits outside_9_9).
Defined.

Lemma console_can_always_win_witness :
  ∃ more g'',
    MinesweeperConsole (R := counter_prng) 30 5 5 1 (Some 0) true demo_env
      ([(4, 4, false)] ++ more)
    = Ret (g'', true).
Proof.
  exact (console_can_always_win (R := counter_prng) 30 5 5 1 (Some 0) true demo_env
           [(4, 4, false)] _ corner_console_waits).
Defined.

Lemma for_each_appends {A} (body : list string → A → outcome (list string))
    (cells : A → list string) l vis :
  (∀ vis a, a ∈ l → body vis a = Ret (vis ++ cells a)) →
  for_each body l vis = Ret (vis ++ (a ← l; cells a)).
Proof.
  revert vis. induction l as [|a l IH]; intros vis H; simpl.
  - by rewrite app_nil_r.
  - rewrite H by apply list_elem_of_here. simpl. rewrite IH.
    + by rewrite <- app_assoc.
    + intros vis' a' Ha'. apply H. by apply list_elem_of_further.
Qed.

Lemma cheat_cells g :
  covered g →
  cheat g =
  Ret ["Cheat:";
       String.concat EmptyString
         (cells_of (λ p, if mine_at (_tile_grid g) p then "X"
                         else pretty (count_at (_mine_count_grid g) p))
                   (_grid_height g) (_grid_width g))].
Proof.
  intros Hc. unfold cheat, cells_of.
  rewrite (for_each_appends _
    (λ row, (col ← range (_grid_width g);
             [if mine_at (_tile_grid g) (row, col) then "X"
              else pretty (count_at (_mine_count_grid g) (row, col))]) ++ [newline])).
  { done. }
  intros vis row Hrow.
  rewrite (for_each_appends _
    (λ col, [if mine_at (_tile_grid g) (row, col) then "X"
             else pretty (count_at (_mine_count_grid g) (row, col))])).
  { simpl. by rewrite <- app_assoc. }
  intros vis1 col Hcol. apply elem_of_range in Hrow, Hcol.
  destruct (covered_lookups g (row, col) Hc) as (t & c & Ht & Hc'); [by split|].
  unfold subscript, mine_at, count_at. rewrite Ht, Hc'. simpl.
  by destruct (is_mine t).
Qed.

(** X22: at any time in a session [cheat] prints the whole layout: after
    the line Cheat:, row by row, an X for every mine and the stored count
    for every other tile, revealed or not, a newline after each row. *)
Theorem cheat_prints_the_layout `{R : PRNG} fuel h w m sd env g s g' s' :
  new_grid fuel h w m sd env = Ret (g, s) → rtc step (g, s) (g', s') →
  cheat g' =
  Ret ["Cheat:";
       String.concat EmptyString
         (cells_of (λ p, if mine_at (_tile_grid g') p then "X"
                         else pretty (count_at (_mine_count_grid g') p)) h w)].
Proof.
  intros Hnew Hrun.
  destruct (reachable_well_formed _ _ _ _ _ _ _ _ _ _ Hnew Hrun)
    as [(Hh & Hw & _) (Hc & _)].
  apply new_grid_spec in Hnew as (_ & <- & <- & _).
  rewrite <- Hh, <- Hw. by apply cheat_cells.
Qed.

Lemma cheat_prints_the_layout_witness :
  cheat (opened (open_tile corner_grid 4 4)).1 =
  Ret ["Cheat:";
       String.concat EmptyString
         (cells_of (λ p, if mine_at (_tile_grid (opened (open_tile corner_grid 4 4)).1) p
                         then "X"
                         else pretty (count_at
                                (_mine_count_grid (opened (open_tile corner_grid 4 4)).1)
                                p)) 5 5)].
Proof.
  exact (cheat_prints_the_layout (R := counter_prng) 30 5 5 1 (Some 0) demo_env
           corner_grid 2%nat (opened (open_tile corner_grid 4 4)).1 2%nat
           corner_grid_built corner_session).
Defined.

Lemma play_loop_won_app inputs more g g' :
  play_loop g inputs = Ret (g', true) →
  play_loop g (inputs ++ more) = Ret (g', true).
Proof.
  revert g. induction inputs as [|[[row col] flag] inputs IH]; intros g.
  - simpl. destruct (grid_str g); simpl; [|done..]. by intros [= _].
  - rewrite <- app_comm_cons, !play_loop_cons.
    destruct (grid_str g); simpl; [|done..].
    destruct (turn g (row, col, flag)) as [g1| |]; simpl; [|done..].
    destruct (check_win g1); [done|]. apply IH.
Qed.

Lemma play_loop_waiting_not_won inputs g g' :
  check_win g = false → play_loop g inputs = Ret (g', false) → check_win g' = false.
Proof.
  revert g. induction inputs as [|[[row col] flag] inputs IH]; intros g Hw.
  - simpl. destruct (grid_str g); simpl; [|done..]. by intros [= <-].
  - rewrite play_loop_cons. destruct (grid_str g); simpl; [|done..].
    destruct (turn g (row, col, flag)) as [g1| |]; simpl; [|done..].
    destruct (check_win g1) eqn:Hw1; [done|]. by apply IH.
Qed.

(** X23: the console stops at the win: once the loop has broken on a win,
    no later input is read, the result is the same whatever follows. While
    the console still waits for input the game is not won. *)
Theorem console_stops_at_the_win `{R : PRNG} fuel h w m sd c env inputs g' b :
  MinesweeperConsole fuel h w m sd c env inputs = Ret (g', b) →
  (b = true → ∀ more,
     MinesweeperConsole fuel h w m sd c env (inputs ++ more) = Ret (g', true)) ∧
  (b = false → check_win g' = false).
Proof.
  intros (g & s & Hnew & Hplay & Heq)%console_unfold. split.
  - intros -> more. rewrite Heq. by apply play_loop_won_app.
  - intros ->. apply (play_loop_waiting_not_won inputs g); [|done].
    apply new_grid_spec in Hnew as ((Hh & Hw & _) & <- & <- & _ & _ & Hcon).
    apply constructed_not_won; [done|lia..].
Qed.

Lemma console_stops_at_the_win_witness :
  MinesweeperConsole (R := counter_prng) 30 5 5 1 (Some 0) true demo_env
    ([(4, 4, false); (0, 0, true)] ++ [(1, 1, false)])
  = Ret ((played (MinesweeperConsole (R := counter_prng) 30 5 5 1 (Some 0) true
                    demo_env [(4, 4, false); (0, 0, true)])).1, true).
Proof.
  exact (proj1 (console_stops_at_the_win (R := counter_prng) 30 5 5 1 (Some 0) true
                  demo_env [(4, 4, false); (0, 0, true)] _ true corner_console_wins)
           eq_refl [(1, 1, false)]).
Defined.

(** X24: the console cannot be lost. While it waits for input, a click on a
    mine, as on a tile already revealed, changes nothing and ends nothing:
    the console waits on with the grid it had. *)
Theorem console_mine_click_changes_nothing `{R : PRNG}
    fuel h w m sd c env inputs g' row col :
  MinesweeperConsole fuel h w m sd c env inputs = Ret (g', false) →
  mine_at (_tile_grid g') (row, col) = true ∨
    revealed_at (_tile_grid g') (row, col) = true →
  MinesweeperConsole fuel h w m sd c env (inputs ++ [(row, col, false)])
  = Ret (g', false).
Proof.
  intros (g & s & Hnew & Hplay & Heq)%console_unfold Hclick.
  rewrite Heq, (play_loop_app _ _ _ _ Hplay), play_loop_cons.
  apply new_grid_spec in Hnew as ((Hh & Hw & _) & <- & <- & _ & _ & Hcon).
  assert (Hnot : check_win g' = false).
  { apply (play_loop_waiting_not_won inputs g); [|done].
    apply constructed_not_won; [done|lia..]. }
  destruct Hcon as (Hc & _).
  apply play_loop_grows in Hplay as [Hg _].
  pose proof (grows_covered _ _ Hg Hc) as Hc'.
  destruct (grid_str_total g' Hc') as [s0 Hs0]. rewrite Hs0. simpl.
  unfold turn. simpl.
  assert (Hshort : open_tile g' row col = Ret (g', [(row, col)])).
  { unfold mine_at, revealed_at in Hclick.
    destruct (_tile_grid g' !! (row, col)) as [t|] eqn:Ht; [|by destruct Hclick].
    apply (open_tile_short g' row col t Ht).
    destruct Hclick as [->| ->]; [done|apply orb_true_r]. }
  rewrite Hshort. simpl. by rewrite Hnot, Hs0.
Qed.

Lemma corner_console_mine :
  mine_at (_tile_grid (played (MinesweeperConsole (R := counter_prng) 30 5 5 1 (Some 0)
                                 true demo_env [(4, 4, false)])).1) (0, 0) = true.
Proof. vm_compute. reflexivity. Qed.

Lemma console_mine_click_changes_nothing_witness :
  MinesweeperConsole (R := counter_prng) 30 5 5 1 (Some 0) true demo_env
    ([(4, 4, false)] ++ [(0, 0, false)])
  = Ret ((played (MinesweeperConsole (R := counter_prng) 30 5 5 1 (Some 0) true
                    demo_env [(4, 4, false)])).1, false).
Proof.
  exact (console_mine_click_changes_nothing (R := counter_prng) 30 5 5 1 (Some 0) true
           demo_env [(4, 4, false)] _ 0 0 corner_console_waits
           (or_introl corner_console_mine)).
Defined.
